(** * The dyad response pipeline: tag parser, response processor, type-check caller

    A shallow embedding of
      - [ipc/utils/dyad_tag_parser.ts]        (the tag extractors),
      - [ipc/processors/executeAddDependency.ts],
      - [ipc/processors/response_processor.ts] (processFullResponseActions),
      - [ipc/processors/tsc.ts]                (generateProblemReport),
    followed by the properties established about them.

    Conventions.  A JavaScript string is a [string] whose characters are code
    units below 256.  A thrown value is represented by the string that
    [String(value)] yields, since every handler of the pipeline only ever
    converts it to text.  Modules imported by these files but not part of them
    (node:fs, node:path, git, the Supabase client, the database, ...) are
    represented by the explicit world model and the [Env] record below.
    Queries and updates of the database are taken to succeed, and the map of
    pending uploads handed out for a chat keeps its entries when the registry
    forgets the chat. *)

From Stdlib Require Import Ascii String.
From stdpp Require Import base option list strings gmap pretty.

Local Open Scope string_scope.

(** ** Characters and strings *)

Definition dquote : ascii := "034"%char.
Definition newline : ascii := "010"%char.
Definition space : ascii := " "%char.

(** A string made of one code unit. *)
Definition str1 (c : ascii) : string := String c EmptyString.

(** White space and line terminators of ECMAScript ([\s] and [trim]) among
    the code units below 256: TAB, LF, VT, FF, CR, SP, NBSP. *)
Definition is_space (c : ascii) : bool :=
  let n := nat_of_ascii c in
  (n =? 9)%nat || (n =? 10)%nat || (n =? 11)%nat || (n =? 12)%nat
  || (n =? 13)%nat || (n =? 32)%nat || (n =? 160)%nat.

(** Canonicalize of a non-unicode, ignore-case regular expression: the ASCII
    letters are compared by their upper-case form; no other code unit is
    identified with an ASCII character. *)
Definition to_upper (c : ascii) : ascii :=
  let n := nat_of_ascii c in
  if (97 <=? n)%nat && (n <=? 122)%nat then ascii_of_nat (n - 32) else c.

Definition char_eq (ci : bool) (a b : ascii) : bool :=
  if ci then Ascii.eqb (to_upper a) (to_upper b) else Ascii.eqb a b.

(** [String.prototype.trimStart], [trimEnd] and [trim]. *)
Fixpoint trimStart (s : string) : string :=
  match s with
  | EmptyString => EmptyString
  | String a s' => if is_space a then trimStart s' else s
  end.

Fixpoint trimEnd (s : string) : string :=
  match s with
  | EmptyString => EmptyString
  | String a s' =>
      match trimEnd s' with
      | EmptyString => if is_space a then EmptyString else str1 a
      | t => String a t
      end
  end.

Definition trim (s : string) : string := trimEnd (trimStart s).

(** [s.split(sep)] for a separator of one code unit. *)
Fixpoint split (sep : ascii) (s : string) : list string :=
  match s with
  | EmptyString => [EmptyString]
  | String a s' =>
      if Ascii.eqb a sep then EmptyString :: split sep s'
      else match split sep s' with
           | h :: t => String a h :: t
           | [] => [str1 a]
           end
  end.

(** [arr.join(sep)]. *)
Definition join (sep : string) (l : list string) : string := String.concat sep l.

(** [s.startsWith(p)]. *)
Definition startsWith (p s : string) : bool := String.prefix p s.

(** [s.slice(0, n)]. *)
Definition slice0 (n : nat) (s : string) : string := String.substring 0 n s.

(** ** Regular expressions of the tag parser

    Every regular expression of the parser is a sequence of literals, of
    character classes [[^c]*] / [[^c]+] that are each followed by the very
    character they exclude, and of one lazy [[\s\S]*?] followed by a literal.
    Matching such an expression at a given start index has at most one
    outcome, so each piece is a function from the remaining input to the
    captured text and the input left. *)

(** A literal, compared with or without the [i] flag. *)
Fixpoint lit (ci : bool) (p s : string) : option string :=
  match p with
  | EmptyString => Some s
  | String a p' =>
      match s with
      | EmptyString => None
      | String b s' => if char_eq ci a b then lit ci p' s' else None
      end
  end.

(** [[^c]*], greedy: the longest prefix free of [c], and what follows it. *)
Fixpoint span_not (c : ascii) (s : string) : string * string :=
  match s with
  | EmptyString => (EmptyString, EmptyString)
  | String a s' =>
      if Ascii.eqb a c then (EmptyString, s)
      else let '(x, r) := span_not c s' in (String a x, r)
  end.

(** The lazy group [[\s\S]*?] followed by the literal [closer]: the text
    before the first occurrence of [closer], and the input after that
    occurrence. *)
Fixpoint lazy_until (ci : bool) (closer s : string) : option (string * string) :=
  match lit ci closer s with
  | Some r => Some (EmptyString, r)
  | None =>
      match s with
      | EmptyString => None
      | String a s' =>
          match lazy_until ci closer s' with
          | Some (b, r) => Some (String a b, r)
          | None => None
          end
      end
  end.

(** The result of matching at one start index: the value built from the
    groups, and the input after the match. *)
Definition matcher (G : Type) : Type := string -> option (G * string).

(** [regex.exec(s)] for a regular expression without the [g] flag: the first
    start index at which it matches. *)
Fixpoint exec_first {G} (m : matcher G) (s : string) : option G :=
  match m s with
  | Some (g, _) => Some g
  | None =>
      match s with
      | EmptyString => None
      | String _ s' => exec_first m s'
      end
  end.

(** The loop [while ((match = regex.exec(s)) !== null)] of a [g] regular
    expression: all matches from left to right, each search starting at
    [lastIndex], the end of the previous match.  [skip] is the distance from
    the current index to [lastIndex].  None of the expressions matches the
    empty string, so nothing is found at the end of the input. *)
Fixpoint exec_all {G} (m : matcher G) (s : string) (skip : nat) : list G :=
  match s with
  | EmptyString => []
  | String _ s' =>
      match skip with
      | S k => exec_all m s' k
      | O =>
          match m s with
          | Some (g, rest) =>
              g :: exec_all m s' (String.length s - String.length rest - 1)
          | None => exec_all m s' 0
          end
      end
  end.

(** The attribute expressions [name=Q], group [[^Q]+], [Q], where Q stands
    for the double quote: captures the value. *)
Definition attr_matcher (name : string) : matcher string := fun s =>
  r1 ← lit false (name +:+ "=" +:+ str1 dquote) s;
  let '(v, r2) := span_not dquote r1 in
  match v with
  | EmptyString => None
  | _ => r3 ← lit false (str1 dquote) r2; Some (v, r3)
  end.

Definition pathRegex : string -> option string := exec_first (attr_matcher "path").
Definition descriptionRegex : string -> option string :=
  exec_first (attr_matcher "description").

(** A match of the expression made of the literal [<tag], the group [[^>]*],
    the literal [>], the lazy group [[\s\S]*?] and the literal [</tag>]:
    [match[0]], [match[1]], [match[2]]. *)
Record TagMatch := {
  tm_whole : string;
  tm_attrs : string;
  tm_body : string;
}.

Definition open_close_matcher (ci : bool) (tag : string) : matcher TagMatch := fun s =>
  r1 ← lit ci ("<" +:+ tag) s;
  let '(attrs, r2) := span_not ">" r1 in
  r3 ← lit ci ">" r2;
  '(body, r4) ← lazy_until ci ("</" +:+ tag +:+ ">") r3;
  Some ({| tm_whole := slice0 (String.length s - String.length r4) s;
           tm_attrs := attrs; tm_body := body |}, r4).

(** ** dyad_tag_parser.ts *)

Record PathTag := {
  path : string;
  content : string;
  description : option string;
}.

Record RenameTag := {
  from : string;
  to : string;
}.

Record SqlQuery := {
  sql_content : string;
  sql_description : option string;
}.

(** One call of [logger.warn] / [logger.log] / [logger.error]. *)
Inductive LogLevel := LInfo | LWarn | LError.

Record LogEntry := {
  level : LogLevel;
  text : string;
}.

(** The code-fence clean-up shared by the write, execute-sql and
    search-replace extractors. *)
Definition stripFences (content : string) : string :=
  let contentLines := split newline content in
  let afterShift :=
    match contentLines with
    | l0 :: tl => if startsWith "```" l0 then tl else contentLines
    | [] => contentLines
    end in
  let afterPop :=
    match last afterShift with
    | Some ll => if startsWith "```" ll then removelast afterShift else afterShift
    | None => afterShift
    end in
  join (str1 newline) afterPop.

Section TagParser.

(** [shared/normalizePath], not part of these files. *)
Variable normalizePath : string -> string.

(** The body of the loops of [getDyadWriteTags] and
    [getDyadSearchReplaceTags], which differ only in the tag name: the tag
    pushed, or the warning logged. *)
Definition pathTagOfMatch (tag : string) (m : TagMatch) : PathTag + LogEntry :=
  let attributesString := tm_attrs m in
  let content := trim (tm_body m) in
  match pathRegex attributesString with
  | Some p =>
      inl {| path := normalizePath p;
             content := stripFences content;
             description := descriptionRegex attributesString |}
  | None =>
      inr {| level := LWarn;
             text := "Found <" +:+ tag +:+ "> tag without a valid 'path' attribute: "
                     +:+ tm_whole m |}
  end.

Fixpoint collectPathTags (tag : string) (ms : list TagMatch)
  : list PathTag * list LogEntry :=
  match ms with
  | [] => ([], [])
  | m :: ms' =>
      let '(tags, warns) := collectPathTags tag ms' in
      match pathTagOfMatch tag m with
      | inl t => (t :: tags, warns)
      | inr w => (tags, w :: warns)
      end
  end.

Definition pathTags (tag : string) (fullResponse : string)
  : list PathTag * list LogEntry :=
  collectPathTags tag (exec_all (open_close_matcher true tag) fullResponse 0).

(** [getDyadWriteTags], with the warnings it logs. *)
Definition getDyadWriteTags_logged : string -> list PathTag * list LogEntry :=
  pathTags "dyad-write".
Definition getDyadWriteTags (fullResponse : string) : list PathTag :=
  (getDyadWriteTags_logged fullResponse).1.

(** [getDyadSearchReplaceTags], with the warnings it logs. *)
Definition getDyadSearchReplaceTags_logged : string -> list PathTag * list LogEntry :=
  pathTags "dyad-search-replace".
Definition getDyadSearchReplaceTags (fullResponse : string) : list PathTag :=
  (getDyadSearchReplaceTags_logged fullResponse).1.

(** The expression of [getDyadRenameTags]: [<dyad-rename from=Q], the group
    [[^Q]+], [Q to=Q], the group [[^Q]+], [Q], [[^>]*], [>], the lazy group
    [[\s\S]*?], [</dyad-rename>]; flag [g]. *)
Definition rename_matcher : matcher (string * string) := fun s =>
  r1 ← lit false ("<dyad-rename from=" +:+ str1 dquote) s;
  let '(f, r2) := span_not dquote r1 in
  match f with
  | EmptyString => None
  | _ =>
      r3 ← lit false (str1 dquote +:+ " to=" +:+ str1 dquote) r2;
      let '(t, r4) := span_not dquote r3 in
      match t with
      | EmptyString => None
      | _ =>
          r5 ← lit false (str1 dquote) r4;
          let '(_, r6) := span_not ">" r5 in
          r7 ← lit false ">" r6;
          '(_, r8) ← lazy_until false "</dyad-rename>" r7;
          Some ((f, t), r8)
      end
  end.

Definition getDyadRenameTags (fullResponse : string) : list RenameTag :=
  (fun m => {| from := normalizePath m.1; to := normalizePath m.2 |})
    <$> exec_all rename_matcher fullResponse 0.

(** The expression of [getDyadDeleteTags]: [<dyad-delete path=Q], the group
    [[^Q]+], [Q], [[^>]*], [>], the lazy group [[\s\S]*?], [</dyad-delete>];
    flag [g]. *)
Definition delete_matcher : matcher string := fun s =>
  r1 ← lit false ("<dyad-delete path=" +:+ str1 dquote) s;
  let '(p, r2) := span_not dquote r1 in
  match p with
  | EmptyString => None
  | _ =>
      r3 ← lit false (str1 dquote) r2;
      let '(_, r4) := span_not ">" r3 in
      r5 ← lit false ">" r4;
      '(_, r6) ← lazy_until false "</dyad-delete>" r5;
      Some (p, r6)
  end.

Definition getDyadDeleteTags (fullResponse : string) : list string :=
  normalizePath <$> exec_all delete_matcher fullResponse 0.

(** The expression of [getDyadAddDependencyTags]: [<dyad-add-dependency
    packages=Q], the group [[^Q]+], [Q>], [[^<]*], [</dyad-add-dependency>];
    flag [g]. *)
Definition add_dependency_matcher : matcher string := fun s =>
  r1 ← lit false ("<dyad-add-dependency packages=" +:+ str1 dquote) s;
  let '(p, r2) := span_not dquote r1 in
  match p with
  | EmptyString => None
  | _ =>
      r3 ← lit false (str1 dquote +:+ ">") r2;
      let '(_, r4) := span_not "<" r3 in
      r5 ← lit false "</dyad-add-dependency>" r4;
      Some (p, r5)
  end.

(** [packages.push(...match[1].split(SPACE))] for every match. *)
Definition getDyadAddDependencyTags (fullResponse : string) : list string :=
  mjoin (split space <$> exec_all add_dependency_matcher fullResponse 0).

(** [getDyadExecuteSqlTags]: the open/close expression for
    [dyad-execute-sql], flag [g] only. *)
Definition getDyadExecuteSqlTags (fullResponse : string) : list SqlQuery :=
  (fun m =>
     {| sql_content := stripFences (trim (tm_body m));
        sql_description := descriptionRegex (tm_attrs m) |})
    <$> exec_all (open_close_matcher false "dyad-execute-sql") fullResponse 0.

End TagParser.

(** ** The world outside the pipeline *)

(** The result of a call that may throw: the value returned, or the thrown
    value converted to text. *)
Inductive outcome (A : Type) : Type :=
  | Done (a : A)
  | Raise (e : string).
Arguments Done {A} a.
Arguments Raise {A} e.

(** The file system: absolute paths to regular files (with their contents) and
    directories.  A directory's entries are the paths that extend it by a
    slash. *)
Inductive node :=
  | File (data : string)
  | Dir.

(** A row of the [messages] table (the columns the pipeline reads or sets). *)
Record Message := {
  msg_role : string;
  msg_chatId : Z;
  msg_content : string;
  commitHash : option string;
  approvalState : option string;
}.

(** The [app] joined to a chat. *)
Record App := {
  app_id : Z;
  app_path : string;
  neonProjectId : option string;
  neonDevelopmentBranchId : option string;
  supabaseProjectId : option string;
}.

(** An entry of the pending-upload registry. *)
Record FileInfo := {
  filePath : string;
  originalName : string;
}.

(** Calls made to git, in order. *)
Inductive GitOp :=
  | GitAdd (appPath filepath : string)
  | GitRemove (appPath filepath : string)
  | GitAddAll (appPath : string)
  | GitCommit (appPath message : string) (amend : bool).

(** Calls made to the Supabase management client, in order. *)
Inductive SupabaseCall :=
  | ExecuteSql (project : option string) (query : string)
  | DeleteFunction (project : option string) (functionName : string)
  | DeployFunction (project : option string) (functionName content : string).

Record World := {
  fs : gmap string node;
  messages : gmap Z Message;
  chats : gmap Z App;
  fileUploads : gmap Z (gmap string FileInfo);
  gitLog : list GitOp;
  supabaseLog : list SupabaseCall;
  installCalls : list (list string);
  logs : list LogEntry;
}.

(** [{ success, content?, error? }] of the search-replace processor. *)
Record SearchReplaceResult := {
  success : bool;
  sr_content : option string;
  sr_error : option string;
}.

(** What the collaborators answer.  The functions of [node:path] and the
    modules of the repository that are imported by the pipeline but are not
    part of it are taken as they come; a fallible one answers with an
    [outcome].  The services (Neon, Supabase, git) answer according to the
    world at the time of the call. *)
Record Env := {
  normalizePath : string -> string;
  getDyadAppPath : string -> string;
  safeJoin : string -> string -> outcome string;
  path_dirname : string -> string;
  path_basename : string -> string;
  path_extname : string -> string;
  path_join : string -> string -> string;
  isServerFunction : string -> bool;
  applySearchReplace : string -> string -> SearchReplaceResult;
  enableSupabaseWriteSqlMigration : bool;
  storeDbTimestampAtCurrentVersion : World -> Z -> outcome unit;
  executeSupabaseSql : World -> option string -> string -> outcome unit;
  writeMigrationFile :
    string -> string -> option string -> gmap string node ->
    outcome string * gmap string node;
  (** [execPromise(command, { cwd })]: stdout and stderr, and the file system
      the command leaves. *)
  execPromise :
    string -> string -> gmap string node ->
    outcome (string * string) * gmap string node;
  (** [subject.replace(new RegExp(pattern, flag g), replacement)]: the text
      with every match replaced, or what [new RegExp] throws for a pattern
      that is no regular expression. *)
  regexReplace : string -> string -> string -> outcome string;
  deleteSupabaseFunction : World -> option string -> string -> outcome unit;
  deploySupabaseFunctions : World -> option string -> string -> string -> outcome unit;
  gitAdd : World -> string -> string -> outcome unit;
  gitRemove : World -> string -> string -> outcome unit;
  gitAddAll : World -> string -> outcome unit;
  gitCommit : World -> string -> string -> bool -> outcome string;
  getGitUncommittedFiles : World -> string -> outcome (list string);
}.

(** ** The state of one invocation *)

(** [interface Output]. *)
Record Output := {
  message : string;
  error : string;
}.

(** The world together with the arrays that [processFullResponseActions]
    declares before its [try] block and mutates throughout. *)
Record St := {
  world : World;
  writtenFiles : list string;
  renamedFiles : list string;
  deletedFiles : list string;
  warnings : list Output;
  errors : list Output;
}.

Definition on_world (f : World -> World) (st : St) : St :=
  {| world := f (world st); writtenFiles := writtenFiles st;
     renamedFiles := renamedFiles st; deletedFiles := deletedFiles st;
     warnings := warnings st; errors := errors st |}.

Definition set_fs (v : gmap string node) (w : World) : World :=
  {| fs := v; messages := messages w; chats := chats w;
     fileUploads := fileUploads w; gitLog := gitLog w;
     supabaseLog := supabaseLog w; installCalls := installCalls w;
     logs := logs w |}.

Definition set_messages (v : gmap Z Message) (w : World) : World :=
  {| fs := fs w; messages := v; chats := chats w;
     fileUploads := fileUploads w; gitLog := gitLog w;
     supabaseLog := supabaseLog w; installCalls := installCalls w;
     logs := logs w |}.

Definition set_fileUploads (v : gmap Z (gmap string FileInfo)) (w : World) : World :=
  {| fs := fs w; messages := messages w; chats := chats w;
     fileUploads := v; gitLog := gitLog w;
     supabaseLog := supabaseLog w; installCalls := installCalls w;
     logs := logs w |}.

Definition push_git (op : GitOp) (w : World) : World :=
  {| fs := fs w; messages := messages w; chats := chats w;
     fileUploads := fileUploads w; gitLog := gitLog w ++ [op];
     supabaseLog := supabaseLog w; installCalls := installCalls w;
     logs := logs w |}.

Definition push_supabase (c : SupabaseCall) (w : World) : World :=
  {| fs := fs w; messages := messages w; chats := chats w;
     fileUploads := fileUploads w; gitLog := gitLog w;
     supabaseLog := supabaseLog w ++ [c]; installCalls := installCalls w;
     logs := logs w |}.

Definition push_install (pk : list string) (w : World) : World :=
  {| fs := fs w; messages := messages w; chats := chats w;
     fileUploads := fileUploads w; gitLog := gitLog w;
     supabaseLog := supabaseLog w; installCalls := installCalls w ++ [pk];
     logs := logs w |}.

Definition push_log (l : LogEntry) (w : World) : World :=
  {| fs := fs w; messages := messages w; chats := chats w;
     fileUploads := fileUploads w; gitLog := gitLog w;
     supabaseLog := supabaseLog w; installCalls := installCalls w;
     logs := logs w ++ [l] |}.

Definition push_written (p : string) (st : St) : St :=
  {| world := world st; writtenFiles := writtenFiles st ++ [p];
     renamedFiles := renamedFiles st; deletedFiles := deletedFiles st;
     warnings := warnings st; errors := errors st |}.

Definition push_renamed (p : string) (st : St) : St :=
  {| world := world st; writtenFiles := writtenFiles st;
     renamedFiles := renamedFiles st ++ [p]; deletedFiles := deletedFiles st;
     warnings := warnings st; errors := errors st |}.

Definition push_deleted (p : string) (st : St) : St :=
  {| world := world st; writtenFiles := writtenFiles st;
     renamedFiles := renamedFiles st; deletedFiles := deletedFiles st ++ [p];
     warnings := warnings st; errors := errors st |}.

Definition push_warning (o : Output) (st : St) : St :=
  {| world := world st; writtenFiles := writtenFiles st;
     renamedFiles := renamedFiles st; deletedFiles := deletedFiles st;
     warnings := warnings st ++ [o]; errors := errors st |}.

Definition push_error (o : Output) (st : St) : St :=
  {| world := world st; writtenFiles := writtenFiles st;
     renamedFiles := renamedFiles st; deletedFiles := deletedFiles st;
     warnings := warnings st; errors := errors st ++ [o] |}.

(** The state at the declaration of the arrays. *)
Definition start (w : World) : St :=
  {| world := w; writtenFiles := []; renamedFiles := []; deletedFiles := [];
     warnings := []; errors := [] |}.

(** ** Computations that change the state and may throw *)

Definition M (A : Type) : Type := St -> outcome A * St.

Definition ret {A} (a : A) : M A := fun st => (Done a, st).

Definition throw {A} (e : string) : M A := fun st => (Raise e, st).

Definition bind {A B} (m : M A) (k : A -> M B) : M B := fun st =>
  match m st with
  | (Done a, st') => k a st'
  | (Raise e, st') => (Raise e, st')
  end.

Notation "'let*' x ':=' m 'in' k" := (bind m (fun x => k))
  (at level 10, x pattern, m at level 100, k at level 200).
Notation "m ';;' k" := (bind m (fun _ => k))
  (at level 100, k at level 200, right associativity).

(** [try { m } catch (error) { h error }]. *)
Definition tryCatch {A} (m : M A) (h : string -> M A) : M A := fun st =>
  match m st with
  | (Done a, st') => (Done a, st')
  | (Raise e, st') => h e st'
  end.

(** A state change that cannot throw. *)
Definition modify (f : St -> St) : M unit := fun st => (Done tt, f st).

Definition gets {A} (f : St -> A) : M A := fun st => (Done (f st), st).

(** The answer of a call that leaves the state alone: its value, or what it
    throws. *)
Definition await {A} (o : outcome A) : M A := fun st => (o, st).

(** The answer of a service, in the world as it is. *)
Definition ask {A} (f : World -> outcome A) : M A := fun st => (f (world st), st).

(** [for (const x of l) { body x }]. *)
Fixpoint forEach {A} (l : list A) (body : A -> M unit) : M unit :=
  match l with
  | [] => ret tt
  | x :: l' => body x;; forEach l' body
  end.

(** [if (c) { m }] *)
Definition when (c : bool) (m : M unit) : M unit := if c then m else ret tt.

Definition logger (lv : LogLevel) (s : string) : M unit :=
  modify (on_world (push_log {| level := lv; text := s |})).

(** JavaScript truthiness of a string that may be undefined or null. *)
Definition truthy (o : option string) : bool :=
  match o with
  | Some (String _ _) => true
  | _ => false
  end.

Definition nonempty (s : string) : bool :=
  match s with String _ _ => true | EmptyString => false end.

(** ** node:fs, on the file-system model *)

(** The text libuv gives for an error code. *)
Definition describe (code : string) : string :=
  if String.eqb code "ENOENT" then "no such file or directory"
  else if String.eqb code "EEXIST" then "file already exists"
  else if String.eqb code "EISDIR" then "illegal operation on a directory"
  else if String.eqb code "ENOTDIR" then "not a directory"
  else if String.eqb code "ENOTEMPTY" then "directory not empty"
  else if String.eqb code "EINVAL" then "invalid argument"
  else if String.eqb code "EPERM" then "operation not permitted"
  else "unknown error".

(** What [String(error)] gives for the error of a file-system call: on one
    path, on no path (a read on an open descriptor), and on two paths. *)
Definition fsError (code syscall p : string) : string :=
  "Error: " +:+ code +:+ ": " +:+ describe code +:+ ", " +:+ syscall
    +:+ " '" +:+ p +:+ "'".

Definition fsErrorFd (code syscall : string) : string :=
  "Error: " +:+ code +:+ ": " +:+ describe code +:+ ", " +:+ syscall.

Definition fsErrorTo (code syscall a b : string) : string :=
  fsError code syscall a +:+ " -> '" +:+ b +:+ "'".

(** [k] lies inside the directory [p]. *)
Definition under (p k : string) : bool := String.prefix (p +:+ "/") k.

Fixpoint drop_str (n : nat) (s : string) : string :=
  match n, s with
  | S n', String _ s' => drop_str n' s'
  | _, _ => s
  end.

Definition update_fs (f : gmap string node -> outcome (gmap string node)) : M unit :=
  fun st =>
    match f (fs (world st)) with
    | Done m => (Done tt, on_world (set_fs m) st)
    | Raise e => (Raise e, st)
    end.

Definition existsSync (p : string) : M bool :=
  gets (fun st => match fs (world st) !! p with Some _ => true | None => false end).

(** [fs.lstatSync(p).isDirectory()] *)
Definition lstat_isDirectory (p : string) : M bool := fun st =>
  match fs (world st) !! p with
  | Some Dir => (Done true, st)
  | Some (File _) => (Done false, st)
  | None => (Raise (fsError "ENOENT" "lstat" p), st)
  end.

(** [fs.rmdirSync(p, { recursive: true })] *)
Definition rmdirSync_recursive (p : string) : M unit :=
  update_fs (fun m =>
    match m !! p with
    | Some Dir =>
        Done (filter (fun kv : string * node => kv.1 <> p /\ under p kv.1 = false) m)
    | Some (File _) => Raise (fsError "ENOTDIR" "rmdir" p)
    | None => Raise (fsError "ENOENT" "rmdir" p)
    end).

Definition unlinkSync (p : string) : M unit :=
  update_fs (fun m =>
    match m !! p with
    | Some (File _) => Done (delete p m)
    | Some Dir => Raise (fsError "EISDIR" "unlink" p) (* as Linux answers *)
    | None => Raise (fsError "ENOENT" "unlink" p)
    end).

(** The directories above [s], outermost first, where [pre] is what has been
    read of the path so far: [/apps/demo/lib] lies below [/apps] and
    [/apps/demo]. *)
Fixpoint ancestors_from (pre s : string) : list string :=
  match s with
  | EmptyString => []
  | String c s' =>
      (if Ascii.eqb c "/" && nonempty pre then [pre] else [])
        ++ ancestors_from (pre +:+ String c EmptyString) s'
  end.

Definition ancestors (p : string) : list string := ancestors_from EmptyString p.

Definition is_file (o : option node) : bool :=
  match o with Some (File _) => true | _ => false end.

(** Some directory above [p] is a regular file. *)
Definition blocked (p : string) (m : gmap string node) : bool :=
  existsb (fun q => is_file (m !! q)) (ancestors p).

(** [p] and the directories above it, made directories. *)
Definition withDirs (p : string) (m : gmap string node) : gmap string node :=
  foldr (fun q acc => <[q := Dir]> acc) m (p :: ancestors p).

(** [fs.mkdirSync(p, { recursive: true })]: nothing to do when the directory
    is there; otherwise the missing directories above [p] are made with it,
    and a regular file among them, or at [p], makes the call throw. *)
Definition mkdirSync_recursive (p : string) : M unit :=
  update_fs (fun m =>
    match m !! p with
    | Some (File _) => Raise (fsError "EEXIST" "mkdir" p)
    | Some Dir => Done m
    | None =>
        if blocked p m then Raise (fsError "ENOTDIR" "mkdir" p)
        else Done (withDirs p m)
    end).

(** The call above does not throw. *)
Definition canMkdir (p : string) (m : gmap string node) : bool :=
  match m !! p with
  | Some (File _) => false
  | Some Dir => true
  | None => negb (blocked p m)
  end.

(** The file system it leaves then. *)
Definition mkdirp (p : string) (m : gmap string node) : gmap string node :=
  match m !! p with
  | Some _ => m
  | None => withDirs p m
  end.

(** The path of an entry of directory [a] once [a] has become [b]. *)
Definition rekey (a b k : string) : string :=
  if String.eqb k a then b
  else if under a k then b +:+ drop_str (String.length a) k
  else k.

Definition has_entries (p : string) (m : gmap string node) : bool :=
  bool_decide (filter (fun kv : string * node => under p kv.1 = true) m <> ∅).

Definition renameSync (a b : string) : M unit :=
  update_fs (fun m =>
    match m !! a with
    | None => Raise (fsErrorTo "ENOENT" "rename" a b)
    | Some (File d) =>
        match m !! b with
        | Some Dir => Raise (fsErrorTo "EISDIR" "rename" a b)
        | _ => Done (<[b := File d]> (delete a m))
        end
    | Some Dir =>
        match m !! b with
        | Some (File _) => Raise (fsErrorTo "ENOTDIR" "rename" a b)
        | _ =>
            if String.eqb a b then Done m
            else if under a b then Raise (fsErrorTo "EINVAL" "rename" a b)
            else if has_entries b m then Raise (fsErrorTo "ENOTEMPTY" "rename" a b)
            else Done (list_to_map
                         ((fun kv : string * node => (rekey a b kv.1, kv.2))
                            <$> map_to_list m))
        end
    end).

(** [fs.promises.readFile(p)], with or without an encoding. *)
Definition readFile (p : string) : M string := fun st =>
  match fs (world st) !! p with
  | Some (File d) => (Done d, st)
  | Some Dir => (Raise (fsErrorFd "EISDIR" "read"), st)
  | None => (Raise (fsError "ENOENT" "open" p), st)
  end.

Definition writeFileSync (p data : string) : M unit :=
  update_fs (fun m =>
    match m !! p with
    | Some Dir => Raise (fsError "EISDIR" "open" p)
    | _ => Done (<[p := File data]> m)
    end).

(** [db.update(messages).set(...).where(eq(messages.id, messageId))] *)
Definition update_message (messageId : Z) (f : Message -> Message) : M unit :=
  modify (on_world (fun w => set_messages (alter f messageId (messages w)) w)).

Definition set_content (c : string) (m : Message) : Message :=
  {| msg_role := msg_role m; msg_chatId := msg_chatId m; msg_content := c;
     commitHash := commitHash m; approvalState := approvalState m |}.

Definition set_commitHash (h : string) (m : Message) : Message :=
  {| msg_role := msg_role m; msg_chatId := msg_chatId m;
     msg_content := msg_content m;
     commitHash := Some h; approvalState := approvalState m |}.

Definition set_approvalState (a : string) (m : Message) : Message :=
  {| msg_role := msg_role m; msg_chatId := msg_chatId m;
     msg_content := msg_content m;
     commitHash := commitHash m; approvalState := Some a |}.

(** [db.query.messages.findFirst] on id, role and chat. *)
Definition findMessage (messageId chatId : Z) : M (option Message) :=
  gets (fun st =>
    match messages (world st) !! messageId with
    | Some m =>
        if String.eqb (msg_role m) "assistant" && (msg_chatId m =? chatId)%Z
        then Some m else None
    | None => None
    end).

(** [{ updatedFiles?, error?, extraFiles?, extraFilesError? }] *)
Record ProcessResult := {
  updatedFiles : option bool;
  res_error : option string;
  extraFiles : option (list string);
  extraFilesError : option string;
}.

Definition emptyResult : ProcessResult :=
  {| updatedFiles := None; res_error := None; extraFiles := None;
     extraFilesError := None |}.

(** ** executeAddDependency.ts and response_processor.ts *)

Section Processor.

Variable env : Env.

(** The collaborators that act on the outside: the call is recorded, then
    its answer awaited. *)
Definition do_gitAdd (appPath filepath : string) : M unit :=
  modify (on_world (push_git (GitAdd appPath filepath)));;
  ask (fun w => gitAdd env w appPath filepath).

Definition do_gitRemove (appPath filepath : string) : M unit :=
  modify (on_world (push_git (GitRemove appPath filepath)));;
  ask (fun w => gitRemove env w appPath filepath).

Definition do_gitAddAll (appPath : string) : M unit :=
  modify (on_world (push_git (GitAddAll appPath)));;
  ask (fun w => gitAddAll env w appPath).

Definition do_gitCommit (appPath msg : string) (amend : bool) : M string :=
  modify (on_world (push_git (GitCommit appPath msg amend)));;
  ask (fun w => gitCommit env w appPath msg amend).

Definition do_executeSupabaseSql (project : option string) (query : string) : M unit :=
  modify (on_world (push_supabase (ExecuteSql project query)));;
  ask (fun w => executeSupabaseSql env w project query).

Definition do_deleteSupabaseFunction (project : option string) (name : string) : M unit :=
  modify (on_world (push_supabase (DeleteFunction project name)));;
  ask (fun w => deleteSupabaseFunction env w project name).

Definition do_deploySupabaseFunctions (project : option string) (name body : string)
  : M unit :=
  modify (on_world (push_supabase (DeployFunction project name body)));;
  ask (fun w => deploySupabaseFunctions env w project name body).

Definition do_writeMigrationFile (appPath query : string) (descr : option string)
  : M string := fun st =>
  let '(o, m) := writeMigrationFile env appPath query descr (fs (world st)) in
  (o, on_world (set_fs m) st).

Definition do_execPromise (command cwd : string) : M (string * string) := fun st =>
  let '(o, m) := execPromise env command cwd (fs (world st)) in
  (o, on_world (set_fs m) st).

(** [executeAddDependency({ packages, message, appPath })] *)
Definition executeAddDependency
    (packages : list string) (messageId : Z) (msg : Message) (appPath : string)
  : M unit :=
  modify (on_world (push_install packages));;
  let packageStr := join " " packages in
  let* (stdout, stderr) :=
    do_execPromise
      ("(pnpm add " +:+ packageStr +:+ ") || (npm install --legacy-peer-deps "
       +:+ packageStr +:+ ")")
      appPath in
  let installResults :=
    stdout +:+ (if nonempty stderr then str1 newline +:+ stderr else EmptyString) in
  let openTag :=
    "<dyad-add-dependency packages=" +:+ str1 dquote +:+ join " " packages
    +:+ str1 dquote +:+ ">" in
  let* updatedContent :=
    await (regexReplace env
             (openTag +:+ "[^<]*</dyad-add-dependency>")
             (openTag +:+ installResults +:+ "</dyad-add-dependency>")
             (msg_content msg)) in
  update_message messageId (set_content updatedContent).

Definition getFunctionNameFromPath (input : string) : string :=
  path_basename env
    (if nonempty (path_extname env input) then path_dirname env input else input).

Definition readFileFromFunctionPath (input : string) : M string :=
  if nonempty (path_extname env input) then readFile input
  else readFile (path_join env input "index.ts").

(** The template [${x}] of a description that may be undefined. *)
Definition show_opt (o : option string) : string := default "undefined" o.

(** Lines 310-345: the execute-sql actions. *)
Definition sqlStage (app : App) (appPath : string) (queries : list SqlQuery) : M unit :=
  when (negb (length queries =? 0)%nat)
    (forEach queries (fun query =>
       tryCatch
         (do_executeSupabaseSql (supabaseProjectId app) (sql_content query);;
          when (enableSupabaseWriteSqlMigration env)
            (tryCatch
               (let* migrationFilePath :=
                  do_writeMigrationFile appPath (sql_content query)
                    (sql_description query) in
                modify (push_written migrationFilePath))
               (fun error =>
                  modify (push_error
                    {| message := "Failed to write SQL migration file for: "
                                  +:+ show_opt (sql_description query);
                       error := error |}))))
         (fun error =>
            modify (push_error
              {| message := "Failed to execute SQL query: " +:+ sql_content query;
                 error := error |})));;
     logger LInfo ("Executed " +:+ pretty (length queries) +:+ " SQL queries")).

(** Lines 347-378: the add-dependency action. *)
Definition dependencyStage
    (messageId : Z) (msg : Message) (appPath : string) (packages : list string)
  : M unit :=
  when (negb (length packages =? 0)%nat)
    (tryCatch
       (executeAddDependency packages messageId msg appPath)
       (fun error =>
          modify (push_error
            {| message := "Failed to add dependencies: " +:+ join ", " packages;
               error := error |}));;
     modify (push_written "package.json");;
     let pnpmFilename := "pnpm-lock.yaml" in
     let* pnpmPath := await (safeJoin env appPath pnpmFilename) in
     let* pnpmExists := existsSync pnpmPath in
     when pnpmExists (modify (push_written pnpmFilename));;
     let packageLockFilename := "package-lock.json" in
     let* lockPath := await (safeJoin env appPath packageLockFilename) in
     let* lockExists := existsSync lockPath in
     when lockExists (modify (push_written packageLockFilename))).

(** Lines 397-434: the delete actions. *)
Definition deleteStage (app : App) (appPath : string) (paths : list string) : M unit :=
  forEach paths (fun filePath =>
    let* fullFilePath := await (safeJoin env appPath filePath) in
    let* found := existsSync fullFilePath in
    (if found then
       let* isDir := lstat_isDirectory fullFilePath in
       (if isDir then rmdirSync_recursive fullFilePath else unlinkSync fullFilePath);;
       logger LInfo ("Successfully deleted file: " +:+ fullFilePath);;
       modify (push_deleted filePath);;
       tryCatch
         (do_gitRemove appPath filePath)
         (fun error =>
            logger LWarn ("Failed to git remove deleted file " +:+ filePath +:+ ": "
                          +:+ error))
     else logger LWarn ("File to delete does not exist: " +:+ fullFilePath));;
    when (isServerFunction env filePath)
      (tryCatch
         (do_deleteSupabaseFunction (supabaseProjectId app)
            (getFunctionNameFromPath filePath))
         (fun error =>
            modify (push_error
              {| message := "Failed to delete Supabase function: " +:+ filePath;
                 error := error |})))).

(** Lines 436-489: the rename actions. *)
Definition renameStage (app : App) (appPath : string) (tags : list RenameTag) : M unit :=
  forEach tags (fun tag =>
    let* fromPath := await (safeJoin env appPath (from tag)) in
    let* toPath := await (safeJoin env appPath (to tag)) in
    let dirPath := path_dirname env toPath in
    mkdirSync_recursive dirPath;;
    let* found := existsSync fromPath in
    (if found then
       renameSync fromPath toPath;;
       logger LInfo ("Successfully renamed file: " +:+ fromPath +:+ " -> " +:+ toPath);;
       modify (push_renamed (to tag));;
       do_gitAdd appPath (to tag);;
       tryCatch
         (do_gitRemove appPath (from tag))
         (fun error =>
            logger LWarn ("Failed to git remove old file " +:+ from tag +:+ ": "
                          +:+ error))
     else logger LWarn ("Source file for rename does not exist: " +:+ fromPath));;
    when (isServerFunction env (from tag))
      (tryCatch
         (do_deleteSupabaseFunction (supabaseProjectId app)
            (getFunctionNameFromPath (from tag)))
         (fun error =>
            modify (push_warning
              {| message := "Failed to delete Supabase function: " +:+ from tag
                            +:+ " as part of renaming " +:+ from tag +:+ " to "
                            +:+ to tag;
                 error := error |})));;
    when (isServerFunction env (to tag))
      (tryCatch
         (let* body := readFileFromFunctionPath toPath in
          do_deploySupabaseFunctions (supabaseProjectId app)
            (getFunctionNameFromPath (to tag)) body)
         (fun error =>
            modify (push_error
              {| message := "Failed to deploy Supabase function: " +:+ to tag
                            +:+ " as part of renaming " +:+ from tag +:+ " to "
                            +:+ to tag;
                 error := error |})))).

(** Lines 493-536: one search-replace action (the loop body). *)
Definition searchReplaceOne (app : App) (appPath : string) (tag : PathTag) : M unit :=
  let filePath := path tag in
  let* fullFilePath := await (safeJoin env appPath filePath) in
  tryCatch
    (let* found := existsSync fullFilePath in
     if negb found then
       logger LWarn ("Search-replace target file does not exist: " +:+ filePath)
     else
       let* original := readFile fullFilePath in
       let result := applySearchReplace env original (content tag) in
       match success result, sr_content result with
       | true, Some newContent =>
           writeFileSync fullFilePath newContent;;
           modify (push_written filePath);;
           when (isServerFunction env filePath)
             (tryCatch
                (do_deploySupabaseFunctions (supabaseProjectId app)
                   (path_basename env (path_dirname env filePath)) newContent)
                (fun error =>
                   modify (push_error
                     {| message := "Failed to deploy Supabase function after search-replace: "
                                   +:+ filePath;
                        error := error |})))
       | _, _ =>
           logger LWarn ("Failed to apply search-replace to " +:+ filePath +:+ ": "
                         +:+ default "unknown" (sr_error result))
       end)
    (fun error =>
       modify (push_error
         {| message := "Error applying search-replace to " +:+ filePath;
            error := error |})).

Definition searchReplaceStage (app : App) (appPath : string) (tags : list PathTag)
  : M unit :=
  forEach tags (searchReplaceOne app appPath).

(** Lines 544-566: the content to write, and whether it is still a string
    (an uploaded file is read as a Buffer). *)
Definition resolveContent
    (fileUploadsMap : option (gmap string FileInfo)) (tag : PathTag)
  : M (string * bool) :=
  match fileUploadsMap with
  | Some uploads =>
      let trimmedContent := trim (content tag) in
      match uploads !! trimmedContent with
      | Some fileInfo =>
          tryCatch
            (let* fileContent := readFile (filePath fileInfo) in
             logger LInfo ("Replaced file ID " +:+ trimmedContent
                           +:+ " with content from " +:+ originalName fileInfo);;
             ret (fileContent, false))
            (fun error =>
               logger LError ("Failed to read uploaded file "
                              +:+ originalName fileInfo +:+ ": " +:+ error);;
               modify (push_error
                 {| message := "Failed to read uploaded file: "
                               +:+ originalName fileInfo;
                    error := error |});;
               ret (content tag, true))
      | None => ret (content tag, true)
      end
  | None => ret (content tag, true)
  end.

(** Lines 538-590: the write actions. *)
Definition writeStage
    (app : App) (appPath : string) (fileUploadsMap : option (gmap string FileInfo))
    (tags : list PathTag)
  : M unit :=
  forEach tags (fun tag =>
    let filePath := path tag in
    let* fullFilePath := await (safeJoin env appPath filePath) in
    let* (data, isString) := resolveContent fileUploadsMap tag in
    let dirPath := path_dirname env fullFilePath in
    mkdirSync_recursive dirPath;;
    writeFileSync fullFilePath data;;
    logger LInfo ("Successfully wrote file: " +:+ fullFilePath);;
    modify (push_written filePath);;
    when (isServerFunction env filePath && isString)
      (tryCatch
         (do_deploySupabaseFunctions (supabaseProjectId app)
            (path_basename env (path_dirname env filePath)) data)
         (fun error =>
            modify (push_error
              {| message := "Failed to deploy Supabase function: " +:+ filePath;
                 error := error |})))).

(** Lines 593-597. *)
Definition hasChanges (st : St) (packages : list string) : bool :=
  negb (length (writtenFiles st) =? 0)%nat
  || negb (length (renamedFiles st) =? 0)%nat
  || negb (length (deletedFiles st) =? 0)%nat
  || negb (length packages =? 0)%nat.

(** Lines 609-621. *)
Definition changes (st : St) (packages : list string) (queries : list SqlQuery)
  : list string :=
  (if negb (length (writtenFiles st) =? 0)%nat
   then ["wrote " +:+ pretty (length (writtenFiles st)) +:+ " file(s)"] else [])
  ++ (if negb (length (renamedFiles st) =? 0)%nat
      then ["renamed " +:+ pretty (length (renamedFiles st)) +:+ " file(s)"] else [])
  ++ (if negb (length (deletedFiles st) =? 0)%nat
      then ["deleted " +:+ pretty (length (deletedFiles st)) +:+ " file(s)"] else [])
  ++ (if negb (length packages =? 0)%nat
      then ["added " +:+ join ", " packages +:+ " package(s)"] else [])
  ++ (if negb (length queries =? 0)%nat
      then ["executed " +:+ pretty (length queries) +:+ " SQL queries"] else []).

(** Lines 623-625. *)
Definition commitMessage (chatSummary : option string) (chs : list string) : string :=
  match chatSummary with
  | Some (String c s) => "[dyad] " +:+ String c s +:+ " - " +:+ join ", " chs
  | _ => "[dyad] " +:+ join ", " chs
  end.

(** Lines 602-667: stage, commit, fold in the files edited outside, record
    the commit hash.  Answers [uncommittedFiles] and [extraFilesError]. *)
Definition commitStage
    (appPath : string) (chatSummary : option string) (messageId : Z)
    (packages : list string) (queries : list SqlQuery)
  : M (list string * option string) :=
  let* written := gets writtenFiles in
  forEach written (fun file => do_gitAdd appPath file);;
  let* chs := gets (fun st => changes st packages queries) in
  let msg := commitMessage chatSummary chs in
  let* commitHash0 := do_gitCommit appPath msg false in
  logger LInfo ("Successfully committed changes: " +:+ join ", " chs);;
  let* uncommittedFiles := ask (fun w => getGitUncommittedFiles env w appPath) in
  let* (commitHash1, extraFilesError) :=
    (if negb (length uncommittedFiles =? 0)%nat then
       do_gitAddAll appPath;;
       tryCatch
         (let* h := do_gitCommit appPath
                      (msg +:+ " + extra files edited outside of Dyad") true in
          logger LInfo ("Amend commit with changes outside of dyad: "
                        +:+ join ", " uncommittedFiles);;
          ret (h, None))
         (fun error =>
            logger LError ("Failed to commit changes outside of dyad: "
                           +:+ join ", " uncommittedFiles);;
            ret (commitHash0, Some error))
     else ret (commitHash0, None)) in
  update_message messageId (set_commitHash commitHash1);;
  ret (uncommittedFiles, extraFilesError).

Definition log_all (l : list LogEntry) : M unit :=
  forEach l (fun e => modify (on_world (push_log e))).

(** Lines 310-590, once the message has been found. *)
Definition runActions
    (fullResponse : string) (app : App) (appPath : string)
    (fileUploadsMap : option (gmap string FileInfo))
    (messageId : Z) (msg : Message)
    (dyadWriteTags : list PathTag) (dyadRenameTags : list RenameTag)
    (dyadDeletePaths dyadAddDependencyPackages : list string)
    (dyadExecuteSqlQueries : list SqlQuery)
  : M unit :=
  sqlStage app appPath dyadExecuteSqlQueries;;
  dependencyStage messageId msg appPath dyadAddDependencyPackages;;
  deleteStage app appPath dyadDeletePaths;;
  renameStage app appPath dyadRenameTags;;
  let '(dyadSearchReplaceTags, srWarnings) :=
    getDyadSearchReplaceTags_logged (normalizePath env) fullResponse in
  log_all srWarnings;;
  searchReplaceStage app appPath dyadSearchReplaceTags;;
  writeStage app appPath fileUploadsMap dyadWriteTags.

(** Lines 592-681. *)
Definition commitAndApprove
    (appPath : string) (chatSummary : option string) (messageId : Z)
    (packages : list string) (queries : list SqlQuery)
  : M ProcessResult :=
  let* changed := gets (fun st => hasChanges st packages) in
  let* (uncommittedFiles, extraFilesError) :=
    (if changed then commitStage appPath chatSummary messageId packages queries
     else ret ([], None)) in
  logger LInfo ("mark as approved: hasChanges "
                +:+ (if changed then "true" else "false"));;
  update_message messageId (set_approvalState "approved");;
  ret {| updatedFiles := Some changed;
         res_error := None;
         extraFiles := if negb (length uncommittedFiles =? 0)%nat
                       then Some uncommittedFiles else None;
         extraFilesError := extraFilesError |}.

(** Lines 287-681: the body of the [try] block. *)
Definition tryBlock
    (fullResponse : string) (chatId : Z) (chatSummary : option string)
    (messageId : Z) (app : App) (appPath : string)
    (fileUploadsMap : option (gmap string FileInfo))
  : M ProcessResult :=
  let '(dyadWriteTags, writeWarnings) :=
    getDyadWriteTags_logged (normalizePath env) fullResponse in
  log_all writeWarnings;;
  let dyadRenameTags := getDyadRenameTags (normalizePath env) fullResponse in
  let dyadDeletePaths := getDyadDeleteTags (normalizePath env) fullResponse in
  let dyadAddDependencyPackages := getDyadAddDependencyTags fullResponse in
  let dyadExecuteSqlQueries :=
    if truthy (supabaseProjectId app) then getDyadExecuteSqlTags fullResponse
    else [] in
  let* found := findMessage messageId chatId in
  match found with
  | None =>
      logger LError ("No message found for ID: " +:+ pretty messageId);;
      ret emptyResult
  | Some msg =>
      runActions fullResponse app appPath fileUploadsMap messageId msg
        dyadWriteTags dyadRenameTags dyadDeletePaths dyadAddDependencyPackages
        dyadExecuteSqlQueries;;
      commitAndApprove appPath chatSummary messageId dyadAddDependencyPackages
        dyadExecuteSqlQueries
  end.

(** Lines 686-699: the block appended to the stored message. *)
Definition dyadOutput (kind : string) (o : Output) : string :=
  "<dyad-output type=" +:+ str1 dquote +:+ kind +:+ str1 dquote
  +:+ " message=" +:+ str1 dquote +:+ message o +:+ str1 dquote +:+ ">"
  +:+ error o +:+ "</dyad-output>".

Definition appendedContent (ws es : list Output) : string :=
  str1 newline +:+ "    "
  +:+ join (str1 newline) (dyadOutput "warning" <$> ws)
  +:+ str1 newline +:+ "    "
  +:+ join (str1 newline) (dyadOutput "error" <$> es)
  +:+ str1 newline +:+ "    ".

(** Lines 685-708: the [finally] block. *)
Definition finallyBlock (fullResponse : string) (messageId : Z) : M unit :=
  let* appended := gets (fun st => appendedContent (warnings st) (errors st)) in
  when (negb (String.length appended =? 0)%nat)
    (update_message messageId
       (set_content (fullResponse +:+ str1 newline +:+ str1 newline +:+ appended))).

(** Lines 256-273: the Neon pre-step. *)
Definition neonStep (app : App) : M unit :=
  when (truthy (neonProjectId app) && truthy (neonDevelopmentBranchId app))
    (tryCatch
       (ask (fun w => storeDbTimestampAtCurrentVersion env w (app_id app)))
       (fun error =>
          logger LError ("Error creating Neon branch at current version: " +:+ error);;
          throw ("Error: Could not create Neon branch; database versioning functionality is not working: "
                 +:+ error))).

(** Lines 682-684: the [catch] clause. *)
Definition catchClause (error : string) : M ProcessResult :=
  logger LError ("Error processing files: " +:+ error);;
  ret {| updatedFiles := None; res_error := Some error;
         extraFiles := None; extraFilesError := None |}.

(** Lines 286-684: the [try] block with its [catch] clause. *)
Definition tryCatchBlock
    (fullResponse : string) (chatId : Z) (chatSummary : option string)
    (messageId : Z) (app : App) (appPath : string)
    (fileUploadsMap : option (gmap string FileInfo))
  : M ProcessResult :=
  tryCatch
    (tryBlock fullResponse chatId chatSummary messageId app appPath fileUploadsMap)
    catchClause.

(** [processFullResponseActions(fullResponse, chatId, { chatSummary,
    messageId })]: [Done r] when the promise resolves to [r], [Raise e] when
    it is rejected; with the state the invocation leaves. *)
Definition processFullResponseActions
    (fullResponse : string) (chatId : Z) (chatSummary : option string)
    (messageId : Z) (w : World)
  : outcome ProcessResult * St :=
  let fileUploadsMap := fileUploads w !! chatId in
  let w1 := set_fileUploads (delete chatId (fileUploads w)) w in
  let w2 :=
    push_log {| level := LInfo;
                text := "processFullResponseActions for chatId " +:+ pretty chatId |}
      w1 in
  match chats w2 !! chatId with
  | None =>
      (Done emptyResult,
       start (push_log {| level := LError;
                          text := "No app found for chat ID: " +:+ pretty chatId |}
                w2))
  | Some app =>
      match neonStep app (start w2) with
      | (Raise e, st) => (Raise e, st)
      | (Done _, st) =>
          let appPath := getDyadAppPath env (app_path app) in
          let '(r, st1) :=
            tryCatchBlock fullResponse chatId chatSummary messageId app appPath
              fileUploadsMap st in
          let '(_, st2) := finallyBlock fullResponse messageId st1 in
          (r, st2)
      end
  end.

End Processor.

(** ** tsc.ts: the caller of the type-check worker *)

Section Tsc.

(** [ProblemReport] of [ipc_types], carried through untouched. *)
Variable ProblemReport : Type.

Record VirtualChanges := {
  deletePaths : list string;
  renameTags : list RenameTag;
  writeTags : list PathTag;
}.

Record WorkerInput := {
  virtualChanges : VirtualChanges;
  wi_appPath : string;
  tsBuildInfoCacheDir : string;
}.

Record WorkerOutput := {
  wo_success : bool;
  wo_data : option ProblemReport;
  wo_error : option string;
}.

Inductive Promise :=
  | Pending
  | Resolved (report : ProblemReport)
  | Rejected (e : string).

(** What the caller holds once the executor of the promise has run: the
    promise, the worker it created (terminated or not) and the messages
    posted to it. *)
Record Caller := {
  promise : Promise;
  terminated : bool;
  posted : list WorkerInput;
}.

(** What can happen next: one of the three events the caller listens to, or
    wall-clock time going by without any of them. *)
Inductive WorkerEvent :=
  | OnMessage (output : WorkerOutput)
  | OnError (e : string)
  | OnExit (code : Z)
  | Elapsed (ms : nat).

(** [resolve] and [reject] settle a pending promise and are ignored
    afterwards. *)
Definition settle (p : Promise) (c : Caller) : Caller :=
  {| promise := match promise c with Pending => p | settled => settled end;
     terminated := terminated c; posted := posted c |}.

(** [worker.terminate()] *)
Definition terminate (c : Caller) : Caller :=
  {| promise := promise c; terminated := true; posted := posted c |}.

(** Lines 92-120: the handlers registered on the worker.  No timer is
    created anywhere in the function, so elapsed time reaches no handler. *)
Definition handle (c : Caller) (ev : WorkerEvent) : Caller :=
  match ev with
  | OnMessage output =>
      let c1 := terminate c in
      match wo_success output, wo_data output with
      | true, Some data => settle (Resolved data) c1
      | _, _ =>
          settle (Rejected ("Error: " +:+
                            match wo_error output with
                            | Some (String a e) => String a e
                            | _ => "Unknown worker error"
                            end)) c1
      end
  | OnError e => settle (Rejected e) (terminate c)
  | OnExit code =>
      if (code =? 0)%Z then c
      else settle (Rejected ("Error: Worker exited with code " +:+ pretty code)) c
  | Elapsed _ => c
  end.

(** Lines 82-145: the executor creates the worker, registers the handlers and
    posts the input. *)
Definition generateProblemReport
    (normalizePath : string -> string) (getTypeScriptCachePath : string)
    (fullResponse appPath : string)
  : Caller :=
  let writeTags := getDyadWriteTags normalizePath fullResponse in
  let renameTags := getDyadRenameTags normalizePath fullResponse in
  let deletePaths := getDyadDeleteTags normalizePath fullResponse in
  let virtualChanges :=
    {| deletePaths := deletePaths; renameTags := renameTags;
       writeTags := writeTags |} in
  let input :=
    {| virtualChanges := virtualChanges; wi_appPath := appPath;
       tsBuildInfoCacheDir := getTypeScriptCachePath |} in
  {| promise := Pending; terminated := false; posted := [input] |}.

(** The caller after a sequence of events. *)
Definition after (events : list WorkerEvent) (c : Caller) : Caller :=
  fold_left handle events c.

End Tsc.

Arguments Pending {ProblemReport}.
Arguments Resolved {ProblemReport} report.
Arguments Rejected {ProblemReport} e.
Arguments OnMessage {ProblemReport} output.
Arguments OnError {ProblemReport} e.
Arguments OnExit {ProblemReport} code.
Arguments Elapsed {ProblemReport} ms.
Arguments promise {ProblemReport} c.
Arguments terminated {ProblemReport} c.
Arguments posted {ProblemReport} c.
Arguments handle {ProblemReport} c ev.
Arguments after {ProblemReport} events c.

(** ** A concrete environment, for examples *)

Module Demo.

(** The part of a path before its last slash. *)
Fixpoint dirname_go (s : string) : option string :=
  match s with
  | EmptyString => None
  | String a s' =>
      match dirname_go s' with
      | Some d => Some (String a d)
      | None => if Ascii.eqb a "/" then Some EmptyString else None
      end
  end.

Definition dirname (s : string) : string := default "." (dirname_go s).

(** The part of a path after its last slash. *)
Fixpoint basename (s : string) : string :=
  match s with
  | EmptyString => EmptyString
  | String a s' =>
      match dirname_go s' with
      | Some _ => basename s'
      | None => if Ascii.eqb a "/" then s' else s
      end
  end.

(** Every collaborator answers; the patch engine replaces the whole file by
    the rule text unless the text is empty. *)
Definition env : Env := {|
  normalizePath := id;
  getDyadAppPath := fun p => "/apps/" +:+ p;
  safeJoin := fun base p => Done (base +:+ "/" +:+ p);
  path_dirname := dirname;
  path_basename := basename;
  path_extname := fun _ => ".ts";
  path_join := fun a b => a +:+ "/" +:+ b;
  isServerFunction := fun p => String.prefix "supabase/functions/" p;
  applySearchReplace := fun original rules =>
    match rules with
    | EmptyString =>
        {| success := false; sr_content := None; sr_error := Some "no rules" |}
    | _ => {| success := true; sr_content := Some rules; sr_error := None |}
    end;
  enableSupabaseWriteSqlMigration := false;
  storeDbTimestampAtCurrentVersion := fun _ _ => Done tt;
  executeSupabaseSql := fun _ _ _ => Done tt;
  writeMigrationFile := fun _ _ _ m => (Raise "Error: migrations disabled", m);
  execPromise := fun _ _ m => (Done ("installed", EmptyString), m);
  regexReplace := fun _ _ subject => Done subject;
  deleteSupabaseFunction := fun _ _ _ => Done tt;
  deploySupabaseFunctions := fun _ _ _ _ => Done tt;
  gitAdd := fun _ _ _ => Done tt;
  gitRemove := fun _ _ _ => Done tt;
  gitAddAll := fun _ _ => Done tt;
  gitCommit := fun _ _ _ amend => Done (if amend then "c0ffee2" else "c0ffee1");
  getGitUncommittedFiles := fun _ _ => Done [];
|}.

Definition app : App := {|
  app_id := 7; app_path := "demo";
  neonProjectId := None; neonDevelopmentBranchId := None;
  supabaseProjectId := None;
|}.

Definition theMessage (body : string) : Message := {|
  msg_role := "assistant"; msg_chatId := 1; msg_content := body;
  commitHash := None; approvalState := None;
|}.

(** Chat 1 belongs to [app]; message 10 holds the response; [old.ts] and
    [b.ts] exist in the app directory. *)
Definition world (body : string) : World := {|
  fs := {[ "/apps/demo" := Dir;
           "/apps/demo/old.ts" := File "export const x = 0;";
           "/apps/demo/b.ts" := File "export const b = 2;" ]};
  messages := {[ 10%Z := theMessage body ]};
  chats := {[ 1%Z := app ]};
  fileUploads := ∅;
  gitLog := [];
  supabaseLog := [];
  installCalls := [];
  logs := [];
|}.

Definition q : string := str1 dquote.

(** The two end-to-end scenarios of the specification. *)
Definition renameScenario : string :=
  "<dyad-delete path=" +:+ q +:+ "old.ts" +:+ q +:+ "></dyad-delete>"
  +:+ "<dyad-rename from=" +:+ q +:+ "b.ts" +:+ q +:+ " to=" +:+ q +:+ "old.ts"
  +:+ q +:+ "></dyad-rename>"
  +:+ "<dyad-write path=" +:+ q +:+ "old.ts" +:+ q
  +:+ ">export const x = 1;</dyad-write>".

Definition dependencyScenario : string :=
  "<dyad-add-dependency packages=" +:+ q +:+ "left right" +:+ q
  +:+ "></dyad-add-dependency>"
  +:+ "<dyad-add-dependency packages=" +:+ q +:+ "right extra" +:+ q
  +:+ "></dyad-add-dependency>".

End Demo.

(** ** Texts made of tags and plain text *)

(** [c] occurs in [s]. *)
Fixpoint has_char (c : ascii) (s : string) : bool :=
  match s with
  | EmptyString => false
  | String a s' => Ascii.eqb a c || has_char c s'
  end.

(** The literal [p] occurs somewhere in [s]. *)
Fixpoint occurs (ci : bool) (p s : string) : bool :=
  match lit ci p s with
  | Some _ => true
  | None =>
      match s with
      | EmptyString => false
      | String _ s' => occurs ci p s'
      end
  end.

(** Matching the literal [p] against [s] meets a character that differs,
    before either of them ends: [p] does not match there, whatever text comes
    after [s]. *)
Fixpoint mismatch (ci : bool) (p s : string) : bool :=
  match p, s with
  | String a p', String b s' => if char_eq ci a b then mismatch ci p' s' else true
  | _, _ => false
  end.

(** At no index of [t] does the literal [p] match or get cut short by the end
    of [t]: [t] holds no beginning of [p]. *)
Fixpoint clear_of (ci : bool) (p t : string) : bool :=
  match t with
  | EmptyString => true
  | String _ t' => mismatch ci p t && clear_of ci p t'
  end.

(** A tag with an attribute string and a body, as text. *)
Definition pathTagText (tag attrs body : string) : string :=
  "<" +:+ tag +:+ attrs +:+ ">" +:+ body +:+ "</" +:+ tag +:+ ">".

(** An add-dependency tag with its package list and its body, as text. *)
Definition dependencyTagText (packages body : string) : string :=
  "<dyad-add-dependency packages=" +:+ str1 dquote +:+ packages +:+ str1 dquote
  +:+ ">" +:+ body +:+ "</dyad-add-dependency>".

(** A piece of a response: text in which the tag in question does not begin
    (it may hold tags of other kinds), or one tag given by two strings
    (attributes and body, or packages and body). *)
Inductive Segment :=
  | Plain (t : string)
  | Tagged (a b : string).

Definition render (tagText : string -> string -> string) (d : list Segment) : string :=
  fold_right
    (fun seg acc =>
       match seg with
       | Plain t => t +:+ acc
       | Tagged a b => tagText a b +:+ acc
       end)
    EmptyString d.


(** Plain text holds no beginning of the opening tag; the package list of a
    tag is not empty and holds no double quote, its body no opening angle
    bracket. *)
Definition wfDependencySegment (seg : Segment) : bool :=
  match seg with
  | Plain t => clear_of false ("<dyad-add-dependency packages=" +:+ str1 dquote) t
  | Tagged packages body =>
      nonempty packages && negb (has_char dquote packages)
      && negb (has_char "<" body)
  end.

(** The package lists of the tags of a text, in order. *)
Definition packageAttributes (d : list Segment) : list string :=
  omap (fun seg => match seg with Tagged p _ => Some p | Plain _ => None end) d.



(** The closing tag of [tag] has a single opening angle bracket, in front. *)
Definition plainName (tag : string) : bool :=
  forallb (fun ch => negb (char_eq true ch "<"))
    (list_ascii_of_string ("/" +:+ tag +:+ ">")).

(** ** Reaching the [try] block *)

(** The state in which the [try] block starts. *)
Definition atTry (w : World) (chatId : Z) : St :=
  start
    (push_log {| level := LInfo;
                 text := "processFullResponseActions for chatId " +:+ pretty chatId |}
       (set_fileUploads (delete chatId (fileUploads w)) w)).

(** The invocation gets past the two exits in front of the [try] block: the
    chat has an app, and the Neon snapshot, when one is due, succeeds. *)
Definition entersTry (env : Env) (w : World) (chatId : Z) (app : App) : Prop :=
  chats w !! chatId = Some app /\
  (truthy (neonProjectId app) && truthy (neonDevelopmentBranchId app) = true ->
   storeDbTimestampAtCurrentVersion env (world (atTry w chatId)) (app_id app)
   = Done tt).

(** ** Relations between the state before and after a computation *)

(** The file system is the same. *)
Definition sameFs : relation St := fun st st' =>
  fs (world st') = fs (world st).

(** No call of [executeAddDependency] has been added. *)
Definition sameInstalls : relation St := fun st st' =>
  installCalls (world st') = installCalls (world st).

(** Some file has been written, renamed or deleted so far. *)
Definition changed (st : St) : bool :=
  negb (length (writtenFiles st) =? 0)%nat
  || negb (length (renamedFiles st) =? 0)%nat
  || negb (length (deletedFiles st) =? 0)%nat.

(** The commit hash recorded on a message, if the message is there. *)
Definition hashOf (messageId : Z) (st : St) : option (option string) :=
  commitHash <$> messages (world st) !! messageId.

(** The three arrays do not become empty again. *)
Definition staysChanged : relation St := fun st st' =>
  changed st = true -> changed st' = true.

(** As long as nothing has been written, renamed or deleted, git has not been
    called and the commit hash of the message is untouched. *)
Definition gitOnlyAfterChange (messageId : Z) : relation St := fun st st' =>
  staysChanged st st' /\
  (changed st' = true \/
   (gitLog (world st') = gitLog (world st) /\ hashOf messageId st' = hashOf messageId st)).

(** A message that is stored stays stored. *)
Definition keepsMessage (messageId : Z) : relation St := fun st st' =>
  is_Some (messages (world st) !! messageId) ->
  is_Some (messages (world st') !! messageId).

(** Neither the three arrays, nor the calls to git, nor the commit hash of
    the message have changed. *)
Definition quiet (messageId : Z) : relation St := fun st st' =>
  writtenFiles st' = writtenFiles st /\
  renamedFiles st' = renamedFiles st /\
  deletedFiles st' = deletedFiles st /\
  gitLog (world st') = gitLog (world st) /\
  hashOf messageId st' = hashOf messageId st.

(** Exactly one call of [executeAddDependency], with [packages], has been
    added. *)
Definition addsInstall (packages : list string) : relation St := fun st st' =>
  installCalls (world st') = (installCalls (world st) ++ [packages])%list.

(** ** Reaching the actions *)

(** [findFirst] finds the message: it is stored under [messageId], written by
    the assistant, in the chat [chatId]. *)
Definition messageFound (w : World) (messageId chatId : Z) (msg : Message) : Prop :=
  messages w !! messageId = Some msg /\
  msg_role msg = "assistant" /\
  msg_chatId msg = chatId.

Definition push_logs (l : list LogEntry) (w : World) : World :=
  fold_left (fun w e => push_log e w) l w.

(** The state in which the first action starts: the warnings of
    [getDyadWriteTags] have been logged. *)
Definition atActions (env : Env) (fullResponse : string) (w : World) (chatId : Z) : St :=
  on_world
    (push_logs (getDyadWriteTags_logged (normalizePath env) fullResponse).2)
    (atTry w chatId).

(** Lines 310-590 of an invocation that has found the app [app] and the
    message [msg]: how the actions end, and the state they leave. *)
Definition actionsRun
    (env : Env) (fullResponse : string) (chatId messageId : Z) (w : World)
    (app : App) (msg : Message)
  : outcome unit * St :=
  runActions env fullResponse app (getDyadAppPath env (app_path app))
    (fileUploads w !! chatId) messageId msg
    (getDyadWriteTags (normalizePath env) fullResponse)
    (getDyadRenameTags (normalizePath env) fullResponse)
    (getDyadDeleteTags (normalizePath env) fullResponse)
    (getDyadAddDependencyTags fullResponse)
    (if truthy (supabaseProjectId app) then getDyadExecuteSqlTags fullResponse else [])
    (atActions env fullResponse w chatId).


Definition push_gits (ops : list GitOp) (w : World) : World :=
  fold_left (fun w op => push_git op w) ops w.

(** ** Failing search-replace actions *)

(** The patch engine reports a failure: [!result.success], or a content that
    is not a string. *)
Definition patchFails (env : Env) (original rules : string) : Prop :=
  let result := applySearchReplace env original rules in
  success result = false \/ sr_content result = None.

(** The warning a failing search-replace action logs. *)
Definition searchReplaceWarning
    (env : Env) (fsys : gmap string node) (full : string) (tag : PathTag) : LogEntry :=
  match fsys !! full with
  | Some (File original) =>
      {| level := LWarn;
         text := "Failed to apply search-replace to " +:+ path tag +:+ ": "
                 +:+ default "unknown"
                       (sr_error (applySearchReplace env original (content tag))) |}
  | _ =>
      {| level := LWarn;
         text := "Search-replace target file does not exist: " +:+ path tag |}
  end.

(** ** An environment in which the Neon snapshot fails *)

Module NeonDown.

Definition env : Env := {|
  normalizePath := normalizePath Demo.env;
  getDyadAppPath := getDyadAppPath Demo.env;
  safeJoin := safeJoin Demo.env;
  path_dirname := path_dirname Demo.env;
  path_basename := path_basename Demo.env;
  path_extname := path_extname Demo.env;
  path_join := path_join Demo.env;
  isServerFunction := isServerFunction Demo.env;
  applySearchReplace := applySearchReplace Demo.env;
  enableSupabaseWriteSqlMigration := false;
  storeDbTimestampAtCurrentVersion := fun _ _ => Raise "Error: branch not found";
  executeSupabaseSql := executeSupabaseSql Demo.env;
  writeMigrationFile := writeMigrationFile Demo.env;
  execPromise := execPromise Demo.env;
  regexReplace := regexReplace Demo.env;
  deleteSupabaseFunction := deleteSupabaseFunction Demo.env;
  deploySupabaseFunctions := deploySupabaseFunctions Demo.env;
  gitAdd := gitAdd Demo.env;
  gitRemove := gitRemove Demo.env;
  gitAddAll := gitAddAll Demo.env;
  gitCommit := gitCommit Demo.env;
  getGitUncommittedFiles := getGitUncommittedFiles Demo.env;
|}.

Definition app : App := {|
  app_id := 7; app_path := "demo";
  neonProjectId := Some "neon-project";
  neonDevelopmentBranchId := Some "br-dev";
  supabaseProjectId := None;
|}.

(** The world of [Demo], with the app attached to a Neon branch. *)
Definition world (body : string) : World :=
  {| fs := fs (Demo.world body); messages := messages (Demo.world body);
     chats := {[ 1%Z := app ]}; fileUploads := ∅; gitLog := [];
     supabaseLog := []; installCalls := []; logs := [] |}.

End NeonDown.

(** The kind of a path: absent, a file, or a directory. *)
Definition kindOf (o : option node) : option bool :=
  match o with
  | None => None
  | Some (File _) => Some false
  | Some Dir => Some true
  end.

(** Every path keeps its kind. *)
Definition sameKinds : relation St := fun st st' =>
  forall p, kindOf (fs (world st') !! p) = kindOf (fs (world st) !! p).

(** ** An environment in which the amend commit fails *)

Module AmendFails.

(** As [Demo.env], but a file edited outside is left after the primary commit
    and the amend commit throws. *)
Definition env : Env := {|
  normalizePath := normalizePath Demo.env;
  getDyadAppPath := getDyadAppPath Demo.env;
  safeJoin := safeJoin Demo.env;
  path_dirname := path_dirname Demo.env;
  path_basename := path_basename Demo.env;
  path_extname := path_extname Demo.env;
  path_join := path_join Demo.env;
  isServerFunction := isServerFunction Demo.env;
  applySearchReplace := applySearchReplace Demo.env;
  enableSupabaseWriteSqlMigration := false;
  storeDbTimestampAtCurrentVersion := storeDbTimestampAtCurrentVersion Demo.env;
  executeSupabaseSql := executeSupabaseSql Demo.env;
  writeMigrationFile := writeMigrationFile Demo.env;
  execPromise := execPromise Demo.env;
  regexReplace := regexReplace Demo.env;
  deleteSupabaseFunction := deleteSupabaseFunction Demo.env;
  deploySupabaseFunctions := deploySupabaseFunctions Demo.env;
  gitAdd := gitAdd Demo.env;
  gitRemove := gitRemove Demo.env;
  gitAddAll := gitAddAll Demo.env;
  gitCommit := fun _ _ _ amend =>
    if amend then Raise "Error: cannot amend" else Done "c0ffee1";
  getGitUncommittedFiles := fun _ _ => Done ["notes.md"];
|}.

End AmendFails.

(** ** Example texts *)

Module Texts.




(** The examples given in the comments of the tag parser. *)
Definition writeExample : string :=
  "<dyad-write path=" +:+ Demo.q +:+ "src/App.tsx" +:+ Demo.q +:+ " description="
  +:+ Demo.q +:+ "main component" +:+ Demo.q +:+ ">" +:+ str1 newline
  +:+ "```tsx" +:+ str1 newline
  +:+ "import React from 'react';" +:+ str1 newline
  +:+ "export default function App() { return <div>Hello</div>; }" +:+ str1 newline
  +:+ "```" +:+ str1 newline
  +:+ "</dyad-write>".

Definition renameExample : string :=
  "<dyad-rename from=" +:+ Demo.q +:+ "src/OldComponent.tsx" +:+ Demo.q +:+ " to="
  +:+ Demo.q +:+ "src/NewComponent.tsx" +:+ Demo.q +:+ "></dyad-rename>".

Definition deleteExample : string :=
  "<dyad-delete path=" +:+ Demo.q +:+ "src/unused/OldComponent.tsx" +:+ Demo.q
  +:+ "></dyad-delete>".

Definition dependencyExample : string :=
  "<dyad-add-dependency packages=" +:+ Demo.q +:+ "react react-dom typescript"
  +:+ Demo.q +:+ "></dyad-add-dependency>".

Definition tab : ascii := "009"%char.

End Texts.

(** ** Statements about computations *)

(** [respects R m]: whatever [m] answers, the state it leaves is related by
    [R] to the state it started in. *)
Definition respects {A} (R : relation St) (m : M A) : Prop :=
  forall st, R st (m st).2.

(** [m] does not throw. *)
Definition total {A} (m : M A) : Prop :=
  forall st, exists a, (m st).1 = Done a.

(** ** dyad_tag_parser.ts: the chat summary and the commands *)

(** The expression of [getDyadChatSummaryTag]: [<dyad-chat-summary>], the lazy
    group [[\s\S]*?], [</dyad-chat-summary>]. *)
Definition chat_summary_matcher : matcher string := fun s =>
  r1 ← lit false "<dyad-chat-summary>" s;
  lazy_until false "</dyad-chat-summary>" r1.

(** [getDyadChatSummaryTag]: a single [exec] of a fresh expression, so the
    first match only; [null] when there is none or when its group is empty. *)
Definition getDyadChatSummaryTag (fullResponse : string) : option string :=
  match exec_first chat_summary_matcher fullResponse with
  | Some (String a body) => Some (trim (String a body))
  | _ => None
  end.

(** The expression of [getDyadCommandTags]: [<dyad-command type=Q], the group
    [[^Q]+], [Q], [[^>]*], [></dyad-command>]; flag [g]. *)
Definition command_matcher : matcher string := fun s =>
  r1 ← lit false ("<dyad-command type=" +:+ str1 dquote) s;
  let '(t, r2) := span_not dquote r1 in
  match t with
  | EmptyString => None
  | _ =>
      r3 ← lit false (str1 dquote) r2;
      let '(_, r4) := span_not ">" r3 in
      r5 ← lit false "></dyad-command>" r4;
      Some (t, r5)
  end.

Definition getDyadCommandTags (fullResponse : string) : list string :=
  exec_all command_matcher fullResponse 0.

(** ** parse_mention_apps.ts *)

(** The class [[a-zA-Z0-9_-]]. *)
Definition is_mention_char (c : ascii) : bool :=
  let n := nat_of_ascii c in
  ((97 <=? n)%nat && (n <=? 122)%nat)
  || ((65 <=? n)%nat && (n <=? 90)%nat)
  || ((48 <=? n)%nat && (n <=? 57)%nat)
  || (n =? 95)%nat || (n =? 45)%nat.

(** A greedy class at the end of an expression: the longest prefix made of
    characters of the class, and what follows it. *)
Fixpoint span_while (p : ascii -> bool) (s : string) : string * string :=
  match s with
  | EmptyString => (EmptyString, EmptyString)
  | String a s' =>
      if p a then let '(x, r) := span_while p s' in (String a x, r)
      else (EmptyString, s)
  end.

(** [MENTION_REGEX]: [@app:], then the group [[a-zA-Z0-9_-]+]; flag [g]. *)
Definition mention_matcher : matcher string := fun s =>
  r1 ← lit false "@app:" s;
  let '(name, r2) := span_while is_mention_char r1 in
  match name with
  | EmptyString => None
  | _ => Some (name, r2)
  end.

(** [parseAppMentions].  The expression is shared by all calls, but the loop
    only ends when [exec] answers [null], which puts [lastIndex] back to
    zero: every call searches from the start of the prompt. *)
Definition parseAppMentions (prompt : string) : list string :=
  exec_all mention_matcher prompt 0.

(** ** Tags as text, for the other extractors *)

(** A rename tag, with what may follow its two attributes and its body. *)
Definition renameTagText (f t more body : string) : string :=
  "<dyad-rename from=" +:+ str1 dquote +:+ f +:+ str1 dquote +:+ " to="
  +:+ str1 dquote +:+ t +:+ str1 dquote +:+ more +:+ ">" +:+ body
  +:+ "</dyad-rename>".

(** A delete tag, with what may follow its path and its body. *)
Definition deleteTagText (p more body : string) : string :=
  "<dyad-delete path=" +:+ str1 dquote +:+ p +:+ str1 dquote +:+ more +:+ ">"
  +:+ body +:+ "</dyad-delete>".

(** A command tag, with what may follow its type. *)
Definition commandTagText (t more : string) : string :=
  "<dyad-command type=" +:+ str1 dquote +:+ t +:+ str1 dquote +:+ more
  +:+ "></dyad-command>".

(** A chat summary tag. *)
Definition chatSummaryTagText (body : string) : string :=
  "<dyad-chat-summary>" +:+ body +:+ "</dyad-chat-summary>".

(** The value of an attribute: not empty, no double quote. *)
Definition attrValue (v : string) : bool :=
  nonempty v && negb (has_char dquote v).

(** [s] begins with a character of [[a-zA-Z0-9_-]]. *)
Definition continuesName (s : string) : bool :=
  match s with
  | String a _ => is_mention_char a
  | EmptyString => false
  end.

(** A name as [MENTION_REGEX] captures it. *)
Definition mentionName (n : string) : bool :=
  nonempty n && forallb is_mention_char (list_ascii_of_string n).

(** A fenced block: the fence with its language, the code, the closing
    fence. *)
Definition fenced (lang code : string) : string :=
  "```" +:+ lang +:+ str1 newline +:+ code +:+ str1 newline +:+ "```".

(** The first and the last line of a text. *)
Definition firstLine (s : string) : string := default EmptyString (head (split newline s)).
Definition lastLine (s : string) : string := default EmptyString (last (split newline s)).

(** ** White space and captured values *)

(** White space only. *)
Definition blank (s : string) : bool := forallb is_space (list_ascii_of_string s).

(** A path as the extractors capture it, before it is normalised. *)
Definition capturedFrom (np : string -> string) (p : string) : Prop :=
  exists raw, p = np raw /\ attrValue raw = true.

(** ** response_processor.ts: dryRunSearchReplace *)

(** An entry of [issues]. *)
Record Issue := {
  issue_filePath : string;
  issue_error : string;
}.

Section DryRun.

Variable env : Env.

(** Lines 153-185: the body of the loop, with the entries it pushes to
    [issues]. *)
Definition dryRunOne (appPath : string) (tag : PathTag) : M (list Issue) :=
  let filePath := path tag in
  let* fullFilePath := await (safeJoin env appPath filePath) in
  tryCatch
    (let* found := existsSync fullFilePath in
     if negb found then
       ret [ {| issue_filePath := filePath;
                issue_error := "Search-replace target file does not exist: "
                               +:+ filePath |} ]
     else
       let* original := readFile fullFilePath in
       let result := applySearchReplace env original (content tag) in
       match success result, sr_content result with
       | true, Some _ => ret []
       | _, _ =>
           ret [ {| issue_filePath := filePath;
                    issue_error := "Unable to apply search-replace to file because: "
                                   +:+ show_opt (sr_error result) |} ]
       end)
    (fun error => ret [ {| issue_filePath := filePath; issue_error := error |} ]).

(** Lines 152-186: the loop over the tags. *)
Fixpoint dryRunLoop (appPath : string) (tags : list PathTag) : M (list Issue) :=
  match tags with
  | [] => ret []
  | tag :: rest =>
      let* found := dryRunOne appPath tag in
      let* more := dryRunLoop appPath rest in
      ret (found ++ more)%list
  end.

(** [dryRunSearchReplace({ fullResponse, appPath })] *)
Definition dryRunSearchReplace (fullResponse appPath : string) : M (list Issue) :=
  let '(dyadSearchReplaceTags, srWarnings) :=
    getDyadSearchReplaceTags_logged (normalizePath env) fullResponse in
  log_all srWarnings;;
  dryRunLoop appPath dyadSearchReplaceTags.

End DryRun.

(** ** More relations between the state before and after a computation *)

(** Nothing but the log has changed. *)
Definition onlyLogged : relation St := fun st st' =>
  fs (world st') = fs (world st) /\
  messages (world st') = messages (world st) /\
  chats (world st') = chats (world st) /\
  fileUploads (world st') = fileUploads (world st) /\
  gitLog (world st') = gitLog (world st) /\
  supabaseLog (world st') = supabaseLog (world st) /\
  installCalls (world st') = installCalls (world st) /\
  writtenFiles st' = writtenFiles st /\
  renamedFiles st' = renamedFiles st /\
  deletedFiles st' = deletedFiles st /\
  warnings st' = warnings st /\
  errors st' = errors st.

(** The registry of pending uploads is the same. *)
Definition sameUploads : relation St := fun st st' =>
  fileUploads (world st') = fileUploads (world st).

Definition isExecuteSql (c : SupabaseCall) : bool :=
  match c with
  | ExecuteSql _ _ => true
  | _ => false
  end.

(** The SQL queries sent to Supabase so far. *)
Definition sqlCalls (st : St) : list SupabaseCall :=
  List.filter isExecuteSql (supabaseLog (world st)).

Definition sameSql : relation St := fun st st' => sqlCalls st' = sqlCalls st.

(** The approval state recorded on a message, if the message is there. *)
Definition approvalOf (messageId : Z) (st : St) : option (option string) :=
  approvalState <$> messages (world st) !! messageId.

(** Neither the commit hash nor the approval state of the message has
    changed. *)
Definition sameMarks (messageId : Z) : relation St := fun st st' =>
  hashOf messageId st' = hashOf messageId st /\
  approvalOf messageId st' = approvalOf messageId st.

Definition isCommit (op : GitOp) : bool :=
  match op with
  | GitCommit _ _ _ => true
  | _ => false
  end.

(** The commits asked of git so far. *)
Definition commits (st : St) : list GitOp :=
  List.filter isCommit (gitLog (world st)).

Definition sameCommits : relation St := fun st st' => commits st' = commits st.

(** [m] leaves a state related by [R] whenever it throws. *)
Definition onRaise {A} (R : relation St) (m : M A) : Prop :=
  forall st e st', m st = (Raise e, st') -> R st st'.

(** The file system once the directory [p] and all it holds are gone. *)
Definition withoutTree (p : string) (m : gmap string node) : gmap string node :=
  filter (fun kv : string * node => kv.1 <> p /\ under p kv.1 = false) m.


(** ** The dependency step, in parts *)

(** The command line of [executeAddDependency]. *)
Definition installCommand (packages : list string) : string :=
  "(pnpm add " +:+ join " " packages +:+ ") || (npm install --legacy-peer-deps "
  +:+ join " " packages +:+ ")".

(** The lock files that exist, in the order in which they are recorded. *)
Definition lockFiles (m : gmap string node) (pnpmPath lockPath : string) : list string :=
  ((if bool_decide (is_Some (m !! pnpmPath)) then ["pnpm-lock.yaml"] else [])
   ++ (if bool_decide (is_Some (m !! lockPath)) then ["package-lock.json"] else []))%list.

(** ** Relations for the file actions and the commits *)

(** The list of deleted files is the same. *)
Definition sameDeleted : relation St := fun st st' =>
  deletedFiles st' = deletedFiles st.

(** An error shown to the user stays. *)
Definition keepsError (o : Output) : relation St := fun st st' =>
  o ∈ errors st -> o ∈ errors st'.

(** Neither the calls to Supabase nor the errors and warnings shown to the
    user have changed. *)
Definition sameReports : relation St := fun st st' =>
  supabaseLog (world st') = supabaseLog (world st) /\
  errors st' = errors st /\
  warnings st' = warnings st.

(** At most the primary commit and, after it, its amendment. *)
Definition commitShape (l : list GitOp) : Prop :=
  l = [] \/
  (exists appPath msg, l = [GitCommit appPath msg false]) \/
  (exists appPath msg,
     l = [GitCommit appPath msg false;
          GitCommit appPath (msg +:+ " + extra files edited outside of Dyad") true]).

(** The commits in [l] have been asked of git, and no other. *)
Definition addsCommits (l : list GitOp) : relation St := fun st st' =>
  commits st' = (commits st ++ l)%list.

(** ** Events that settle nothing *)

(** A clean exit, or time going by. *)
Definition silent {ProblemReport : Type} (ev : WorkerEvent ProblemReport) : bool :=
  match ev with
  | OnExit code => (code =? 0)%Z
  | Elapsed _ => true
  | _ => false
  end.

(** ** An environment in which the install command fails *)

Module InstallFails.

Definition env : Env := {|
  normalizePath := normalizePath Demo.env;
  getDyadAppPath := getDyadAppPath Demo.env;
  safeJoin := safeJoin Demo.env;
  path_dirname := path_dirname Demo.env;
  path_basename := path_basename Demo.env;
  path_extname := path_extname Demo.env;
  path_join := path_join Demo.env;
  isServerFunction := isServerFunction Demo.env;
  applySearchReplace := applySearchReplace Demo.env;
  enableSupabaseWriteSqlMigration := false;
  storeDbTimestampAtCurrentVersion := storeDbTimestampAtCurrentVersion Demo.env;
  executeSupabaseSql := executeSupabaseSql Demo.env;
  writeMigrationFile := writeMigrationFile Demo.env;
  execPromise := fun _ _ m => (Raise "Error: Command failed", m);
  regexReplace := regexReplace Demo.env;
  deleteSupabaseFunction := deleteSupabaseFunction Demo.env;
  deploySupabaseFunctions := deploySupabaseFunctions Demo.env;
  gitAdd := gitAdd Demo.env;
  gitRemove := gitRemove Demo.env;
  gitAddAll := gitAddAll Demo.env;
  gitCommit := gitCommit Demo.env;
  getGitUncommittedFiles := getGitUncommittedFiles Demo.env;
|}.

End InstallFails.

(** ** A world with a pending upload, a directory and a message of the user *)

Module Uploads.

Definition info : FileInfo :=
  {| filePath := "/tmp/upload-1"; originalName := "logo.svg" |}.

Definition uploads : gmap string FileInfo := {[ "DYAD_ATTACHMENT_0" := info ]}.

(** The uploaded file is in place. *)
Definition stored : St :=
  start (set_fs (<["/tmp/upload-1" := File "<svg></svg>"]> (fs (Demo.world EmptyString)))
           (Demo.world EmptyString)).

(** The uploaded file is gone. *)
Definition lost : St := start (Demo.world EmptyString).

Definition tag : PathTag :=
  {| path := "supabase/functions/logo.svg"; content := " DYAD_ATTACHMENT_0 ";
     description := None |}.

(** The directory of the target is there. *)
Definition ready (st : St) : St :=
  on_world (fun w => set_fs (<["/apps/demo/supabase/functions" := Dir]> (fs w)) w) st.

(** The app directory holds a directory [lib] with two files. *)
Definition withLib : St :=
  start (set_fs (<["/apps/demo/lib" := Dir]>
                   (<["/apps/demo/lib/a.ts" := File "a"]>
                      (<["/apps/demo/lib/sub/b.ts" := File "b"]>
                         (fs (Demo.world EmptyString)))))
           (Demo.world EmptyString)).

(** Message 10 was written by the user. *)
Definition userWorld (body : string) : World :=
  set_messages
    {[ 10%Z := {| msg_role := "user"; msg_chatId := 1; msg_content := body;
                  commitHash := None; approvalState := None |} ]}
    (Demo.world body).

End Uploads.

(** ** More example texts *)

Module MoreTexts.

Definition pathAttr (p : string) : string := " path=" +:+ Demo.q +:+ p +:+ Demo.q.

(** A write into a path below a file: the directory cannot be created. *)
Definition blockedWrite : string :=
  pathTagText "dyad-write" (pathAttr "old.ts/x") "y".

Definition oneWrite : string :=
  pathTagText "dyad-write" (pathAttr "new.ts") "let n = 0;".

Definition sqlAndWrite : string :=
  pathTagText "dyad-execute-sql" EmptyString "select 1;" +:+ oneWrite.

Definition patch : PathTag :=
  {| path := "old.ts"; content := "export const x = 2;"; description := None |}.

End MoreTexts.

(** ** Relations for the order of the file actions *)


(** Nothing has been renamed or deleted, and git has not been called. *)
Definition keepsTrace : relation St := fun st st' =>
  renamedFiles st' = renamedFiles st /\
  deletedFiles st' = deletedFiles st /\
  gitLog (world st') = gitLog (world st).

(** The files and the three arrays are the same; git may have been called. *)
Definition keepsActions : relation St := fun st st' =>
  fs (world st') = fs (world st) /\
  writtenFiles st' = writtenFiles st /\
  renamedFiles st' = renamedFiles st /\
  deletedFiles st' = deletedFiles st /\
  gitLog (world st) `prefix_of` gitLog (world st').

(** ** The rename scenario with a search-replace action, and a directory in
    the place of the file *)

Module Order.

Definition scenario : string :=
  deleteTagText "old.ts" EmptyString EmptyString
  +:+ renameTagText "b.ts" "old.ts" EmptyString EmptyString
  +:+ pathTagText "dyad-search-replace" (MoreTexts.pathAttr "old.ts") "export const x = 2;"
  +:+ pathTagText "dyad-write" (MoreTexts.pathAttr "old.ts") "export const x = 1;".


End Order.

(** * Properties *)

(** ** The examples of the parser's comments *)

Example getDyadWriteTags_example :
  getDyadWriteTags id Texts.writeExample
  = [ {| path := "src/App.tsx";
         content := "import React from 'react';" +:+ str1 newline
                    +:+ "export default function App() { return <div>Hello</div>; }";
         description := Some "main component" |} ].
Proof. reflexivity. Qed.

Example getDyadRenameTags_example :
  getDyadRenameTags id Texts.renameExample
  = [ {| from := "src/OldComponent.tsx"; to := "src/NewComponent.tsx" |} ].
Proof. reflexivity. Qed.

Example getDyadDeleteTags_example :
  getDyadDeleteTags id Texts.deleteExample = ["src/unused/OldComponent.tsx"].
Proof. reflexivity. Qed.

Example getDyadAddDependencyTags_example :
  getDyadAddDependencyTags Texts.dependencyExample
  = ["react"; "react-dom"; "typescript"].
Proof. reflexivity. Qed.

(** The dependency scenario of the specification. *)
Example getDyadAddDependencyTags_scenario :
  getDyadAddDependencyTags Demo.dependencyScenario
  = ["left"; "right"; "right"; "extra"].
Proof. reflexivity. Qed.

(** ** Strings and the regular-expression pieces *)

Lemma append_cons a s t : String a s +:+ t = String a (s +:+ t).
Proof. reflexivity. Qed.

Lemma append_nil_r s : s +:+ EmptyString = s.
Proof. induction s as [|a s IH]; [reflexivity|]. rewrite append_cons. by f_equal. Qed.

Lemma append_assoc s t u : (s +:+ t) +:+ u = s +:+ t +:+ u.
Proof.
  induction s as [|a s IH]; [reflexivity|].
  rewrite !append_cons. by f_equal.
Qed.

Lemma length_append s t :
  String.length (s +:+ t) = String.length s + String.length t.
Proof.
  induction s as [|a s IH]; [reflexivity|].
  rewrite append_cons. simpl. by rewrite IH.
Qed.

Lemma substring_append s t : String.substring 0 (String.length s) (s +:+ t) = s.
Proof.
  induction s as [|a s IH].
  - destruct t; reflexivity.
  - rewrite append_cons. simpl. by rewrite IH.
Qed.

Lemma char_eq_refl ci a : char_eq ci a a = true.
Proof. unfold char_eq. destruct ci; apply Ascii.eqb_refl. Qed.

Lemma lit_append ci p s : lit ci p (p +:+ s) = Some s.
Proof.
  induction p as [|a p IH]; [reflexivity|].
  rewrite append_cons. simpl. by rewrite char_eq_refl.
Qed.

Lemma span_not_append c x s :
  has_char c x = false -> span_not c (x +:+ String c s) = (x, String c s).
Proof.
  induction x as [|a x IH]; intros Hx.
  - change (EmptyString +:+ String c s) with (String c s).
    simpl. by rewrite Ascii.eqb_refl.
  - simpl in Hx. apply orb_false_iff in Hx as [Ha Hx].
    rewrite append_cons. simpl. rewrite Ha. by rewrite IH.
Qed.

(** A literal none of whose characters can match [c] does not start to match
    later by putting [c] after the input. *)
Lemma lit_none_extend ci c p x s :
  forallb (fun ch => negb (char_eq ci ch c)) (list_ascii_of_string p) = true ->
  lit ci p x = None ->
  lit ci p (x +:+ String c s) = None.
Proof.
  revert x. induction p as [|ch p IH]; intros x Hp Hx; [discriminate|].
  simpl in Hp. apply andb_true_iff in Hp as [Hch Hp].
  destruct x as [|b x].
  - change (EmptyString +:+ String c s) with (String c s). simpl.
    by destruct (char_eq ci ch c).
  - rewrite append_cons. simpl in *.
    destruct (char_eq ci ch b); [by apply IH|done].
Qed.

(** The closing tag of a body that does not hold it is found right after the
    body. *)
Lemma lazy_until_append ci c p body s :
  forallb (fun ch => negb (char_eq ci ch c)) (list_ascii_of_string p) = true ->
  occurs ci (String c p) body = false ->
  lazy_until ci (String c p) (body +:+ String c p +:+ s) = Some (body, s).
Proof.
  intros Hp. induction body as [|a body IH]; intros Hb.
  - change (EmptyString +:+ String c p +:+ s) with (String c p +:+ s).
    destruct (String c p +:+ s) eqn:E; [done|].
    unfold lazy_until; fold lazy_until. rewrite <- E at 1.
    by rewrite lit_append.
  - unfold occurs in Hb; fold occurs in Hb.
    destruct (lit ci (String c p) (String a body)) eqn:Hl; [done|].
    rewrite append_cons.
    unfold lazy_until; fold lazy_until.
    assert (lit ci (String c p) (String a (body +:+ String c p +:+ s)) = None) as ->.
    { simpl in Hl |- *. destruct (char_eq ci c a); [|done].
      change (String c p +:+ s) with (String c (p +:+ s)).
      by apply lit_none_extend. }
    by rewrite IH.
Qed.

Lemma exec_all_skip {G} (m : matcher G) x s :
  exec_all m (x +:+ s) (String.length x) = exec_all m s 0.
Proof.
  induction x as [|a x IH]; [by destruct s|].
  rewrite append_cons. simpl. apply IH.
Qed.

(** A match at the current index, then the search resumes after it. *)
Lemma exec_all_match {G} (m : matcher G) t s g :
  nonempty t = true ->
  m (t +:+ s) = Some (g, s) ->
  exec_all m (t +:+ s) 0 = g :: exec_all m s 0.
Proof.
  destruct t as [|a t]; [done|]. intros _ Hm.
  rewrite append_cons in *. simpl. rewrite Hm. f_equal.
  rewrite length_append.
  replace (S (String.length t + String.length s) - String.length s - 1)
    with (String.length t) by lia.
  apply exec_all_skip.
Qed.

Lemma lit_mismatch ci p s r : mismatch ci p s = true -> lit ci p (s +:+ r) = None.
Proof.
  revert s. induction p as [|a p IH]; intros [|b s] H; try done.
  rewrite append_cons. simpl in *.
  destruct (char_eq ci a b); [by apply IH|done].
Qed.

(** Text that holds no beginning of the literal an expression starts with is
    passed over. *)
Lemma exec_all_clear {G} (m : matcher G) ci opener t s :
  (forall x r, mismatch ci opener x = true -> m (x +:+ r) = None) ->
  clear_of ci opener t = true ->
  exec_all m (t +:+ s) 0 = exec_all m s 0.
Proof.
  intros Hm. induction t as [|a t IH]; intros Ht; [reflexivity|].
  simpl in Ht. apply andb_true_iff in Ht as [Ha Ht].
  pose proof (Hm (String a t) s Ha) as Hnone.
  rewrite append_cons in *.
  change (exec_all m (String a (t +:+ s)) 0)
    with (match m (String a (t +:+ s)) with
          | Some (g, rest) =>
              g :: exec_all m (t +:+ s)
                     (String.length (String a (t +:+ s)) - String.length rest - 1)
          | None => exec_all m (t +:+ s) 0
          end).
  rewrite Hnone. by apply IH.
Qed.

(** ** The expressions on rendered tags *)

Arguments pathTagText : simpl never.
Arguments dependencyTagText : simpl never.

Lemma open_close_matcher_mismatch ci tag x r :
  mismatch ci ("<" +:+ tag) x = true -> open_close_matcher ci tag (x +:+ r) = None.
Proof. intros Hx. unfold open_close_matcher. by rewrite lit_mismatch. Qed.

Lemma pathTagText_shape tag attrs body s :
  pathTagText tag attrs body +:+ s
  = String "<" (tag +:+ attrs +:+ String ">"
                  (body +:+ String "<" ("/" +:+ tag +:+ ">") +:+ s)).
Proof.
  unfold pathTagText.
  change ("</" +:+ tag +:+ ">") with (String "<" ("/" +:+ tag +:+ ">")).
  change ("<" +:+ tag +:+ attrs +:+ ">" +:+ body +:+ String "<" ("/" +:+ tag +:+ ">"))
    with (String "<" (tag +:+ attrs +:+ ">" +:+ body +:+ String "<" ("/" +:+ tag +:+ ">"))).
  rewrite append_cons. f_equal.
  rewrite !append_assoc. reflexivity.
Qed.

Lemma slice0_whole t s :
  slice0 (String.length (t +:+ s) - String.length s) (t +:+ s) = t.
Proof.
  rewrite length_append.
  replace (String.length t + String.length s - String.length s)
    with (String.length t) by lia.
  apply substring_append.
Qed.

Lemma open_close_matcher_steps ci tag s r1 attrs r2 r3 body r4 :
  lit ci ("<" +:+ tag) s = Some r1 ->
  span_not ">" r1 = (attrs, r2) ->
  lit ci ">" r2 = Some r3 ->
  lazy_until ci ("</" +:+ tag +:+ ">") r3 = Some (body, r4) ->
  open_close_matcher ci tag s
  = Some ({| tm_whole := slice0 (String.length s - String.length r4) s;
             tm_attrs := attrs; tm_body := body |}, r4).
Proof.
  intros H1 H2 H3 H4. unfold open_close_matcher.
  rewrite H1. cbv beta iota delta [mbind option_bind].
  rewrite H2. cbv beta iota. rewrite H3, H4. reflexivity.
Qed.

Lemma open_close_matcher_tag tag attrs body s :
  plainName tag = true ->
  has_char ">" attrs = false ->
  occurs true ("</" +:+ tag +:+ ">") body = false ->
  open_close_matcher true tag (pathTagText tag attrs body +:+ s)
  = Some ({| tm_whole := pathTagText tag attrs body;
             tm_attrs := attrs; tm_body := body |}, s).
Proof.
  intros Htag Hattrs Hbody.
  set (closer := String "<" ("/" +:+ tag +:+ ">")).
  set (rest := attrs +:+ String ">" (body +:+ closer +:+ s)).
  assert (lit true ("<" +:+ tag) (pathTagText tag attrs body +:+ s) = Some rest) as H1.
  { rewrite pathTagText_shape. exact (lit_append true (String "<" tag) rest). }
  assert (span_not ">" rest = (attrs, String ">" (body +:+ closer +:+ s))) as H2
    by by apply span_not_append.
  assert (lazy_until true ("</" +:+ tag +:+ ">") (body +:+ closer +:+ s)
          = Some (body, s)) as H3
    by exact (lazy_until_append true "<" ("/" +:+ tag +:+ ">") body s Htag Hbody).
  rewrite (open_close_matcher_steps _ _ _ _ _ _ _ _ _ H1 H2 eq_refl H3).
  by rewrite slice0_whole.
Qed.

Lemma render_plain tagText t d :
  render tagText (Plain t :: d) = t +:+ render tagText d.
Proof. reflexivity. Qed.

Lemma render_tagged tagText a b d :
  render tagText (Tagged a b :: d) = tagText a b +:+ render tagText d.
Proof. reflexivity. Qed.



(** ** The tag extractors on texts made of tags *)






(** ** Package lists *)

Lemma split_no_separator sep n : has_char sep n = false -> split sep n = [n].
Proof.
  induction n as [|a n IH]; intros Hn; [reflexivity|].
  simpl in *. apply orb_false_iff in Hn as [Ha Hn].
  by rewrite Ha, IH.
Qed.

Lemma split_append sep n r :
  has_char sep n = false -> split sep (n +:+ String sep r) = n :: split sep r.
Proof.
  induction n as [|a n IH]; intros Hn.
  - change (EmptyString +:+ String sep r) with (String sep r).
    simpl. by rewrite Ascii.eqb_refl.
  - simpl in Hn. apply orb_false_iff in Hn as [Ha Hn].
    rewrite append_cons. simpl. by rewrite Ha, IH.
Qed.

(** Names without a space, joined by single spaces, are split back into
    themselves. *)
Lemma split_join names :
  names <> [] ->
  Forall (fun n => has_char space n = false) names ->
  split space (join " " names) = names.
Proof.
  intros Hne Hall. induction Hall as [|n names Hn Hall IH]; [done|].
  destruct names as [|n' names].
  - simpl. by apply split_no_separator.
  - change (join " " (n :: n' :: names))
      with (n +:+ String space (join " " (n' :: names))).
    rewrite split_append by done. f_equal. by apply IH.
Qed.

Lemma add_dependency_matcher_mismatch x r :
  mismatch false ("<dyad-add-dependency packages=" +:+ str1 dquote) x = true ->
  add_dependency_matcher (x +:+ r) = None.
Proof. intros Hx. unfold add_dependency_matcher. by rewrite lit_mismatch. Qed.

Lemma add_dependency_matcher_steps s r1 p r2 r3 x r4 r5 :
  lit false ("<dyad-add-dependency packages=" +:+ str1 dquote) s = Some r1 ->
  span_not dquote r1 = (p, r2) ->
  nonempty p = true ->
  lit false (str1 dquote +:+ ">") r2 = Some r3 ->
  span_not "<" r3 = (x, r4) ->
  lit false "</dyad-add-dependency>" r4 = Some r5 ->
  add_dependency_matcher s = Some (p, r5).
Proof.
  intros H1 H2 Hp H3 H4 H5. unfold add_dependency_matcher.
  rewrite H1. cbv beta iota delta [mbind option_bind].
  rewrite H2. cbv beta iota. destruct p; [done|].
  rewrite H3, H4. cbv beta iota. by rewrite H5.
Qed.

Lemma dependencyTagText_shape packages body s :
  dependencyTagText packages body +:+ s
  = ("<dyad-add-dependency packages=" +:+ str1 dquote)
    +:+ packages
    +:+ String dquote (String ">" (body +:+ String "<" ("/dyad-add-dependency>" +:+ s))).
Proof.
  unfold dependencyTagText. rewrite !append_assoc. reflexivity.
Qed.

Lemma add_dependency_matcher_tag packages body s :
  nonempty packages = true ->
  has_char dquote packages = false ->
  has_char "<" body = false ->
  add_dependency_matcher (dependencyTagText packages body +:+ s) = Some (packages, s).
Proof.
  intros Hne Hq Hb.
  set (r4 := String "<" ("/dyad-add-dependency>" +:+ s)).
  set (r2 := String dquote (String ">" (body +:+ r4))).
  apply (add_dependency_matcher_steps _ (packages +:+ r2) packages r2
           (body +:+ r4) body r4 s).
  - rewrite dependencyTagText_shape. apply lit_append.
  - by apply span_not_append.
  - done.
  - exact (lit_append false (str1 dquote +:+ ">") (body +:+ r4)).
  - by apply span_not_append.
  - exact (lit_append false "</dyad-add-dependency>" s).
Qed.

Lemma exec_all_dependencies d :
  forallb wfDependencySegment d = true ->
  exec_all add_dependency_matcher (render dependencyTagText d) 0
  = packageAttributes d.
Proof.
  induction d as [|[t|p b] d IH]; intros Hd; [reflexivity|..];
    simpl in Hd; apply andb_true_iff in Hd as [Hseg Hd].
  - rewrite render_plain.
    rewrite (exec_all_clear _ false ("<dyad-add-dependency packages=" +:+ str1 dquote));
      [by apply IH| |done].
    intros x r Hx. by apply add_dependency_matcher_mismatch.
  - apply andb_true_iff in Hseg as [Hseg Hb].
    apply andb_true_iff in Hseg as [Hp Hq].
    apply negb_true_iff in Hq, Hb.
    rewrite render_tagged.
    rewrite (exec_all_match _ (dependencyTagText p b) _ _ eq_refl
               (add_dependency_matcher_tag _ _ _ Hp Hq Hb)).
    by rewrite IH.
Qed.

(** The packages of a text made of add-dependency tags: every tag's list,
    split at the spaces, one after the other. *)
Lemma getDyadAddDependencyTags_render d :
  forallb wfDependencySegment d = true ->
  getDyadAddDependencyTags (render dependencyTagText d)
  = mjoin (split space <$> packageAttributes d).
Proof.
  intros Hd. unfold getDyadAddDependencyTags. by rewrite exec_all_dependencies.
Qed.

(** ** Reasoning about computations

    For a reflexive and transitive [R], [respects R] is preserved by every way
    of putting computations together. *)

Section Respects.

Context (R : relation St) `{!PreOrder R}.

Lemma respects_ret {A} (a : A) : respects R (ret a).
Proof. intros st. reflexivity. Qed.

Lemma respects_throw {A} e : respects R (@throw A e).
Proof. intros st. reflexivity. Qed.

Lemma respects_await {A} (o : outcome A) : respects R (await o).
Proof. intros st. reflexivity. Qed.

Lemma respects_ask {A} (f : World -> outcome A) : respects R (ask f).
Proof. intros st. reflexivity. Qed.

Lemma respects_gets {A} (f : St -> A) : respects R (gets f).
Proof. intros st. reflexivity. Qed.

Lemma respects_bind {A B} (m : M A) (k : A -> M B) :
  respects R m -> (forall a, respects R (k a)) -> respects R (bind m k).
Proof.
  intros Hm Hk st. unfold bind. specialize (Hm st).
  destruct (m st) as [[a|e] st']; simpl in *; [|done].
  etrans; [exact Hm|apply Hk].
Qed.

Lemma respects_tryCatch {A} (m : M A) (h : string -> M A) :
  respects R m -> (forall e, respects R (h e)) -> respects R (tryCatch m h).
Proof.
  intros Hm Hh st. unfold tryCatch. specialize (Hm st).
  destruct (m st) as [[a|e] st']; simpl in *; [done|].
  etrans; [exact Hm|apply Hh].
Qed.

Lemma respects_forEach {A} (l : list A) (body : A -> M unit) :
  (forall x, respects R (body x)) -> respects R (forEach l body).
Proof.
  intros Hb. induction l as [|x l IH]; simpl.
  - apply respects_ret.
  - apply respects_bind; [apply Hb|by intros _].
Qed.

Lemma respects_when c (m : M unit) : respects R m -> respects R (when c m).
Proof. intros Hm. destruct c; [done|apply respects_ret]. Qed.

End Respects.

Lemma total_ret {A} (a : A) : total (ret a).
Proof. intros st. by exists a. Qed.

Lemma total_modify f : total (modify f).
Proof. intros st. by exists tt. Qed.

Lemma total_gets {A} (f : St -> A) : total (gets f).
Proof. intros st. by eexists. Qed.

Lemma total_bind {A B} (m : M A) (k : A -> M B) :
  total m -> (forall a, total (k a)) -> total (bind m k).
Proof.
  intros Hm Hk st. unfold bind. destruct (Hm st) as [a Ha].
  destruct (m st) as [[a'|e] st']; simpl in *; [|done]. apply Hk.
Qed.

Lemma total_tryCatch {A} (m : M A) (h : string -> M A) :
  (forall e, total (h e)) -> total (tryCatch m h).
Proof.
  intros Hh st. unfold tryCatch.
  destruct (m st) as [[a|e] st']; simpl; [by eexists|apply Hh].
Qed.

Lemma total_forEach {A} (l : list A) (body : A -> M unit) :
  (forall x, x ∈ l -> total (body x)) -> total (forEach l body).
Proof.
  induction l as [|x l IH]; intros Hb; simpl.
  - apply total_ret.
  - apply total_bind; [apply Hb; left|].
    intros _. apply IH. intros y Hy. apply Hb. by right.
Qed.

Lemma total_when c (m : M unit) : total m -> total (when c m).
Proof. intros Hm. destruct c; [done|apply total_ret]. Qed.

Lemma total_logger lv s : total (logger lv s).
Proof. apply total_modify. Qed.

(** A computation that does not throw and respects [R] ends normally in a
    related state. *)
Lemma total_respects_run {A} (R : relation St) (m : M A) st :
  total m -> respects R m -> exists a st', m st = (Done a, st') /\ R st st'.
Proof.
  intros Ht Hr. destruct (Ht st) as [a Ha]. specialize (Hr st).
  destruct (m st) as [o st']; simpl in *; subst. eauto.
Qed.

Global Instance sameFs_preorder : PreOrder sameFs.
Proof. split; [done|]. intros a b c Hab Hbc. unfold sameFs in *. congruence. Qed.

Global Instance sameInstalls_preorder : PreOrder sameInstalls.
Proof. split; [done|]. intros a b c Hab Hbc. unfold sameInstalls in *. congruence. Qed.

Global Instance staysChanged_preorder : PreOrder staysChanged.
Proof. split; [intros a Ha; exact Ha|]. intros a b c Hab Hbc Ha. auto. Qed.

Global Instance keepsMessage_preorder id : PreOrder (keepsMessage id).
Proof. split; [intros a Ha; exact Ha|]. intros a b c Hab Hbc Ha. auto. Qed.

Global Instance gitOnlyAfterChange_preorder id : PreOrder (gitOnlyAfterChange id).
Proof.
  split.
  - intros a. split; [reflexivity|by right].
  - intros a b c [Hab Hab'] [Hbc Hbc']. split; [by etrans|].
    destruct Hbc' as [Hc|[Hg Hh]]; [by left|].
    destruct Hab' as [Hb|[Hg' Hh']]; [left; by apply Hbc|].
    right. split; congruence.
Qed.

(** The state changes of the primitive computations, by evaluation. *)
Ltac run_prim :=
  intros ?st;
  cbv [update_fs existsSync lstat_isDirectory rmdirSync_recursive unlinkSync
       mkdirSync_recursive renameSync readFile writeFileSync update_message
       findMessage logger modify gets await ask ret throw
       do_writeMigrationFile do_execPromise];
  repeat (case_match; simpl in *; simplify_eq);
  simpl.

Ltac respects_step :=
  match goal with
  | |- respects _ (bind _ (fun '(_, _) => _)) =>
      apply respects_bind; [apply _| |intros [? ?]]
  | |- respects _ (bind _ _) => apply respects_bind; [apply _| |intros ?]
  | |- respects _ (tryCatch _ _) => apply respects_tryCatch; [apply _| |intros ?]
  | |- respects _ (forEach _ _) => apply respects_forEach; [apply _|intros ?]
  | |- respects _ (when _ _) => apply respects_when; [apply _|]
  | |- respects _ (ret _) => apply respects_ret; apply _
  | |- respects _ (throw _) => apply respects_throw; apply _
  | |- respects _ (await _) => apply respects_await; apply _
  | |- respects _ (ask _) => apply respects_ask; apply _
  | |- respects _ (gets _) => apply respects_gets; apply _
  | |- respects _ (if ?c then _ else _) => destruct c
  | |- respects _ (match ?x with _ => _ end) => destruct x
  end.

Ltac unfold_stages :=
  unfold sqlStage, dependencyStage, deleteStage, renameStage, searchReplaceStage,
    searchReplaceOne, writeStage, resolveContent, commitStage, commitAndApprove,
    runActions, tryBlock, tryCatchBlock, catchClause, finallyBlock, neonStep, log_all, executeAddDependency,
    readFileFromFunctionPath,
    do_gitAdd, do_gitRemove, do_gitAddAll, do_gitCommit, do_executeSupabaseSql,
    do_deleteSupabaseFunction, do_deploySupabaseFunctions.

(** ** The file system after the file actions *)

Ltac sameFs_prim := solve [run_prim; unfold sameFs; simpl; reflexivity].

Ltac sameFs_tac :=
  repeat first [respects_step | sameFs_prim | progress unfold_stages].

Lemma commitAndApprove_sameFs env appPath summary messageId packages queries :
  respects sameFs (commitAndApprove env appPath summary messageId packages queries).
Proof. sameFs_tac. Qed.

Lemma finallyBlock_sameFs fullResponse messageId :
  respects sameFs (finallyBlock fullResponse messageId).
Proof. sameFs_tac. Qed.

(** ** Entering the [try] block, and the [finally] block *)

Lemma neonStep_enters env w chatId app :
  entersTry env w chatId app ->
  neonStep env app (atTry w chatId) = (Done tt, atTry w chatId).
Proof.
  intros [_ Hneon]. unfold neonStep.
  destruct (truthy (neonProjectId app) && truthy (neonDevelopmentBranchId app));
    [|reflexivity].
  unfold when, tryCatch, ask. by rewrite Hneon.
Qed.

Lemma process_enters env fullResponse chatId summary messageId w app :
  entersTry env w chatId app ->
  processFullResponseActions env fullResponse chatId summary messageId w
  = let run :=
      tryCatchBlock env fullResponse chatId summary messageId app
        (getDyadAppPath env (app_path app)) (fileUploads w !! chatId)
        (atTry w chatId) in
    (run.1, (finallyBlock fullResponse messageId run.2).2).
Proof.
  intros Henter. unfold processFullResponseActions.
  change (chats (push_log _ (set_fileUploads _ w)) !! chatId)
    with (chats w !! chatId).
  destruct Henter as [Hchat Hneon]. rewrite Hchat.
  change (start (push_log _ (set_fileUploads _ w))) with (atTry w chatId).
  rewrite (neonStep_enters env w chatId app (conj Hchat Hneon)).
  cbv zeta.
  destruct (tryCatchBlock _ _ _ _ _ _ _ _ _) as [r st1]. simpl.
  by destruct (finallyBlock fullResponse messageId st1).
Qed.

Lemma appendedContent_length ws es : (String.length (appendedContent ws es) =? 0)%nat = false.
Proof. reflexivity. Qed.

Lemma finallyBlock_run fullResponse messageId st :
  finallyBlock fullResponse messageId st
  = (Done tt,
     on_world
       (fun w =>
          set_messages
            (alter
               (set_content (fullResponse +:+ str1 newline +:+ str1 newline
                             +:+ appendedContent (warnings st) (errors st)))
               messageId (messages w))
            w)
       st).
Proof.
  unfold finallyBlock, bind, gets. by rewrite appendedContent_length.
Qed.

Ltac keepsMessage_prim :=
  solve [run_prim; unfold keepsMessage; simpl; try done;
         intros; by apply lookup_alter_is_Some].

Lemma tryCatchBlock_keepsMessage env id fullResponse chatId summary messageId app
    appPath uploads :
  respects (keepsMessage id)
    (tryCatchBlock env fullResponse chatId summary messageId app appPath uploads).
Proof. repeat first [respects_step | keepsMessage_prim | progress unfold_stages]. Qed.

(** C10.  In every invocation that enters the [try] block, and so reaches the
    [finally] block, the appended block is not empty, whatever the warnings
    and errors are; the content of the stored message is therefore always
    replaced by the full response, two line feeds and that block. *)
Theorem finally_always_overwrites_content
    env fullResponse chatId summary messageId w app :
  entersTry env w chatId app ->
  let st := (processFullResponseActions env fullResponse chatId summary messageId w).2 in
  let block := appendedContent (warnings st) (errors st) in
  (forall ws es, 0 < String.length (appendedContent ws es)) /\
  (forall m0, messages w !! messageId = Some m0 ->
     exists m, messages (world st) !! messageId = Some m /\
       msg_content m
       = fullResponse +:+ str1 newline +:+ str1 newline +:+ block).
Proof.
  intros Henter. rewrite (process_enters _ _ _ _ _ _ _ Henter). cbv zeta.
  split; [intros ws es; simpl; lia|].
  intros m0 Hm0.
  set (run := tryCatchBlock _ _ _ _ _ _ _ _ _).
  assert (is_Some (messages (world run.2) !! messageId)) as [m1 Hm1].
  { apply (tryCatchBlock_keepsMessage env messageId fullResponse chatId summary
             messageId app (getDyadAppPath env (app_path app))
             (fileUploads w !! chatId) (atTry w chatId)).
    simpl. eauto. }
  rewrite finallyBlock_run. simpl.
  rewrite lookup_alter_eq, Hm1. simpl. eauto.
Qed.

(** ** Git is only called after a change *)

Lemma respects_weaken {A} (R R' : relation St) (m : M A) :
  (forall a b, R a b -> R' a b) -> respects R m -> respects R' m.
Proof. intros HR Hm st. apply HR, Hm. Qed.

Lemma quiet_staysChanged id a b : quiet id a b -> staysChanged a b.
Proof.
  intros (Hw & Hr & Hd & _). unfold staysChanged, changed. by rewrite Hw, Hr, Hd.
Qed.

Lemma quiet_gitOnly id a b : quiet id a b -> gitOnlyAfterChange id a b.
Proof.
  intros Hq. split; [by eapply quiet_staysChanged|].
  destruct Hq as (_ & _ & _ & Hg & Hh). by right.
Qed.

Lemma hash_alter (f : Message -> Message) (i j : Z) (m : gmap Z Message) :
  (forall x, commitHash (f x) = commitHash x) ->
  commitHash <$> alter f i m !! j = commitHash <$> m !! j.
Proof.
  intros Hf. rewrite lookup_alter. case_decide; [subst|done].
  destruct (m !! j); simpl; [by rewrite Hf|done].
Qed.

Ltac quiet_prim :=
  solve [run_prim; unfold quiet, hashOf; simpl; repeat split; try done;
         by apply hash_alter].

Lemma changed_push_written p st : changed (push_written p st) = true.
Proof. unfold changed. simpl. rewrite length_app. simpl. by rewrite Nat.add_1_r. Qed.

Lemma changed_push_renamed p st : changed (push_renamed p st) = true.
Proof.
  unfold changed. simpl. rewrite length_app. simpl. rewrite Nat.add_1_r.
  by rewrite orb_true_r.
Qed.

Lemma changed_push_deleted p st : changed (push_deleted p st) = true.
Proof.
  unfold changed. simpl. rewrite length_app. simpl. rewrite Nat.add_1_r.
  by rewrite orb_true_r.
Qed.

(** Every primitive keeps the three arrays non-empty once they are. *)
Ltac staysChanged_prim :=
  first
    [ solve [intros ?st ?Hc; first [apply changed_push_written
                                   |apply changed_push_renamed
                                   |apply changed_push_deleted]]
    | solve [run_prim; unfold staysChanged, changed; simpl; done] ].

Ltac staysChanged_tac :=
  repeat first [respects_step | staysChanged_prim | progress unfold_stages].

Lemma after_change_gitOnly id {A} (m : M A) st :
  respects staysChanged m -> changed st = true ->
  gitOnlyAfterChange id st (m st).2.
Proof. intros Hm Hc. split; [apply Hm|left; by apply Hm]. Qed.

(** Once an array has received an entry, whatever follows is covered. *)
Lemma respects_push_then id {A} (f : St -> St) (k : unit -> M A) :
  (forall st, changed (f st) = true) ->
  (forall u, respects staysChanged (k u)) ->
  respects (gitOnlyAfterChange id) (bind (modify f) k).
Proof.
  intros Hf Hk st. unfold bind, modify.
  pose proof (Hk tt (f st) (Hf st)) as Hc.
  split; [by intros _|by left].
Qed.

Lemma respects_quiet_gitOnly id {A} (m : M A) :
  respects (quiet id) m -> respects (gitOnlyAfterChange id) m.
Proof. apply respects_weaken, quiet_gitOnly. Qed.

Ltac gitOnly_prim :=
  first
    [ solve [apply respects_quiet_gitOnly; quiet_prim]
    | solve [intros ?st; split;
             [intros _|left];
             first [apply changed_push_written
                   |apply changed_push_renamed
                   |apply changed_push_deleted]] ].

Ltac gitOnly_step :=
  match goal with
  | |- respects (gitOnlyAfterChange _) (bind (modify (push_deleted _)) _) =>
      apply respects_push_then;
      [intros ?; apply changed_push_deleted|intros ?; staysChanged_tac]
  | |- respects (gitOnlyAfterChange _) (bind (modify (push_renamed _)) _) =>
      apply respects_push_then;
      [intros ?; apply changed_push_renamed|intros ?; staysChanged_tac]
  end.

Ltac gitOnly_tac :=
  repeat first [gitOnly_step | respects_step | gitOnly_prim | progress unfold_stages].

Lemma runActions_gitOnly env id fullResponse app appPath uploads messageId msg
    writes renames deletes packages queries :
  respects (gitOnlyAfterChange id)
    (runActions env fullResponse app appPath uploads messageId msg
       writes renames deletes packages queries).
Proof. gitOnly_tac. Qed.

Lemma respects_bind_gets {A B} (R : relation St) (f : St -> A) (k : A -> M B) :
  (forall st, R st (k (f st) st).2) -> respects R (bind (gets f) k).
Proof. intros Hk st. apply Hk. Qed.

Lemma hasChanges_no_packages st : hasChanges st [] = changed st.
Proof. unfold hasChanges, changed. simpl. by rewrite orb_false_r. Qed.

Lemma commitAndApprove_gitOnly env id appPath summary messageId queries :
  respects (gitOnlyAfterChange id)
    (commitAndApprove env appPath summary messageId [] queries).
Proof.
  unfold commitAndApprove. apply respects_bind_gets. intros st.
  rewrite hasChanges_no_packages. destruct (changed st) eqn:Hc.
  - apply after_change_gitOnly; [|done]. staysChanged_tac.
  - generalize st. change (respects (gitOnlyAfterChange id)
      (let* (uncommittedFiles, extraFilesError) := ret ([], None) in
       logger LInfo ("mark as approved: hasChanges " +:+ "false");;
       update_message messageId (set_approvalState "approved");;
       ret {| updatedFiles := Some false; res_error := None;
              extraFiles := if negb (length uncommittedFiles =? 0)%nat
                            then Some uncommittedFiles else None;
              extraFilesError := extraFilesError |})).
    gitOnly_tac.
Qed.

Lemma tryCatchBlock_gitOnly env id fullResponse chatId summary messageId app appPath
    uploads :
  getDyadAddDependencyTags fullResponse = [] ->
  respects (gitOnlyAfterChange id)
    (tryCatchBlock env fullResponse chatId summary messageId app appPath uploads).
Proof.
  intros Hpk. unfold tryCatchBlock, tryBlock. rewrite Hpk.
  apply respects_tryCatch; [apply _| |intros e; gitOnly_tac].
  destruct (getDyadWriteTags_logged _ _) as [writes ws].
  apply respects_bind; [apply _|gitOnly_tac|intros _].
  apply respects_bind; [apply _|gitOnly_tac|intros [msg|]; [|gitOnly_tac]].
  apply respects_bind; [apply _|apply runActions_gitOnly|intros _].
  apply commitAndApprove_gitOnly.
Qed.

(** A reflexive and transitive relation that every part of an invocation
    respects holds between the state at its start and the state it leaves. *)
Lemma process_respects (R : relation St) `{!PreOrder R}
    env fullResponse chatId summary messageId w :
  (forall app, respects R (neonStep env app)) ->
  (forall app,
     respects R
       (tryCatchBlock env fullResponse chatId summary messageId app
          (getDyadAppPath env (app_path app)) (fileUploads w !! chatId))) ->
  respects R (finallyBlock fullResponse messageId) ->
  (forall l st, R st (on_world (push_log l) st)) ->
  R (atTry w chatId)
    (processFullResponseActions env fullResponse chatId summary messageId w).2.
Proof.
  intros Hneon Htry Hfin Hlog. unfold processFullResponseActions.
  change (chats (push_log _ (set_fileUploads _ w)) !! chatId)
    with (chats w !! chatId).
  change (start (push_log _ (set_fileUploads _ w))) with (atTry w chatId).
  destruct (chats w !! chatId) as [app|]; [|apply Hlog].
  specialize (Hneon app (atTry w chatId)).
  destruct (neonStep env app (atTry w chatId)) as [[[]|e] st0]; [|done].
  specialize (Htry app st0).
  destruct (tryCatchBlock _ _ _ _ _ _ _ _ _) as [r st1].
  specialize (Hfin st1).
  destruct (finallyBlock fullResponse messageId st1) as [u st2].
  simpl in *. by repeat (etrans; [eassumption|]).
Qed.

(** C8.  Whenever an invocation ends with nothing written, renamed or deleted
    and the response asks for no dependency, git has not been called at all
    (no staging, no commit) and the commit hash of the message is what it
    was. *)
Theorem no_change_no_commit env fullResponse chatId summary messageId w :
  getDyadAddDependencyTags fullResponse = [] ->
  let st := (processFullResponseActions env fullResponse chatId summary messageId w).2 in
  writtenFiles st = [] -> renamedFiles st = [] -> deletedFiles st = [] ->
  gitLog (world st) = gitLog w /\
  commitHash <$> messages (world st) !! messageId
  = commitHash <$> messages w !! messageId.
Proof.
  intros Hpk st Hw Hr Hd.
  assert (changed st = false) as Hc by (unfold changed; by rewrite Hw, Hr, Hd).
  assert (gitOnlyAfterChange messageId (atTry w chatId) st) as [_ Hgit].
  { apply process_respects; [apply _|..].
    - intros app. gitOnly_tac.
    - intros app. by apply tryCatchBlock_gitOnly.
    - gitOnly_tac.
    - intros l st0. by apply quiet_gitOnly. }
  destruct Hgit as [Hgit|[Hg Hh]]; [congruence|].
  split; [exact Hg|exact Hh].
Qed.

(** ** From the start of the [try] block to the actions *)

Lemma on_world_on_world f g st : on_world g (on_world f st) = on_world (fun w => g (f w)) st.
Proof. by destruct st. Qed.

Lemma log_all_run l st : log_all l st = (Done tt, on_world (push_logs l) st).
Proof.
  revert st. induction l as [|e l IH]; intros st.
  - by destruct st as [[]].
  - unfold log_all in *. simpl. unfold bind at 1, modify. simpl.
    unfold bind. rewrite IH. by rewrite on_world_on_world.
Qed.

Lemma messages_push_logs l w : messages (push_logs l w) = messages w.
Proof. revert w. induction l as [|e l IH]; intros w; [done|]. simpl. by rewrite IH. Qed.

Lemma findMessage_found w messageId chatId msg st :
  messageFound w messageId chatId msg ->
  messages (world st) = messages w ->
  findMessage messageId chatId st = (Done (Some msg), st).
Proof.
  intros (Hm & Hrole & Hchat) Hst. unfold findMessage, gets.
  rewrite Hst, Hm, Hrole, Hchat. simpl. by rewrite Z.eqb_refl.
Qed.

(** An invocation that has found its app and its message runs the actions,
    then commits and approves, or goes through the [catch] clause; the
    [finally] block comes last. *)
Lemma process_found env fullResponse chatId summary messageId w app msg :
  entersTry env w chatId app ->
  messageFound w messageId chatId msg ->
  processFullResponseActions env fullResponse chatId summary messageId w
  = let run := actionsRun env fullResponse chatId messageId w app msg in
    let result :=
      match run.1 with
      | Done _ =>
          tryCatch
            (commitAndApprove env (getDyadAppPath env (app_path app)) summary
               messageId (getDyadAddDependencyTags fullResponse)
               (if truthy (supabaseProjectId app)
                then getDyadExecuteSqlTags fullResponse else []))
            catchClause run.2
      | Raise e => catchClause e run.2
      end in
    (result.1, (finallyBlock fullResponse messageId result.2).2).
Proof.
  intros Henter Hfound. rewrite (process_enters _ _ _ _ _ _ _ Henter).
  cbv zeta. unfold actionsRun, atActions, getDyadWriteTags.
  assert (tryCatchBlock env fullResponse chatId summary messageId app
            (getDyadAppPath env (app_path app)) (fileUploads w !! chatId)
            (atTry w chatId)
          = match
              runActions env fullResponse app (getDyadAppPath env (app_path app))
                (fileUploads w !! chatId) messageId msg
                (getDyadWriteTags_logged (normalizePath env) fullResponse).1
                (getDyadRenameTags (normalizePath env) fullResponse)
                (getDyadDeleteTags (normalizePath env) fullResponse)
                (getDyadAddDependencyTags fullResponse)
                (if truthy (supabaseProjectId app)
                 then getDyadExecuteSqlTags fullResponse else [])
                (on_world
                   (push_logs (getDyadWriteTags_logged (normalizePath env) fullResponse).2)
                   (atTry w chatId))
            with
            | (Done _, st) =>
                tryCatch
                  (commitAndApprove env (getDyadAppPath env (app_path app)) summary
                     messageId (getDyadAddDependencyTags fullResponse)
                     (if truthy (supabaseProjectId app)
                      then getDyadExecuteSqlTags fullResponse else []))
                  catchClause st
            | (Raise e, st) => catchClause e st
            end) as ->.
  { unfold tryCatchBlock, tryBlock.
    destruct (getDyadWriteTags_logged (normalizePath env) fullResponse) as [writes ws].
    simpl. unfold tryCatch at 1. unfold bind at 1. rewrite log_all_run.
    unfold bind at 1.
    rewrite (findMessage_found w messageId chatId msg); [|done|].
    2:{ simpl. by rewrite messages_push_logs. }
    unfold bind at 1.
    destruct (runActions _ _ _ _ _ _ _ _ _ _ _ _ _) as [[[]|e] st]; [|done].
    unfold tryCatch. by destruct (commitAndApprove _ _ _ _ _ _ _) as [[r|e] st']. }
  by destruct (runActions _ _ _ _ _ _ _ _ _ _ _ _ _) as [[[]|e] st].
Qed.

(** ** The install action *)

Lemma respects_bind_mixed {A B} (R1 R2 R3 : relation St) (m : M A) (k : A -> M B) :
  respects R1 m -> (forall a, respects R2 (k a)) ->
  (forall a b c, R1 a b -> R2 b c -> R3 a c) ->
  (forall a b, R1 a b -> R3 a b) ->
  respects R3 (bind m k).
Proof.
  intros Hm Hk Hcomp Hraise st. unfold bind. specialize (Hm st).
  destruct (m st) as [[a|e] st']; simpl in *; [|by apply Hraise].
  eapply Hcomp; [exact Hm|apply Hk].
Qed.

Lemma respects_bind_total {A B} (R1 R2 R3 : relation St) (m : M A) (k : A -> M B) :
  total m -> respects R1 m -> (forall a, respects R2 (k a)) ->
  (forall a b c, R1 a b -> R2 b c -> R3 a c) ->
  respects R3 (bind m k).
Proof.
  intros Ht Hm Hk Hcomp st. unfold bind. specialize (Hm st).
  destruct (Ht st) as [a Ha].
  destruct (m st) as [[a'|e] st']; simpl in *; [|done].
  eapply Hcomp; [exact Hm|apply Hk].
Qed.

Lemma respects_tryCatch_mixed {A} (R1 R2 R3 : relation St) (m : M A) h :
  respects R1 m -> (forall e, respects R2 (h e)) ->
  (forall a b c, R1 a b -> R2 b c -> R3 a c) ->
  (forall a b, R1 a b -> R3 a b) ->
  respects R3 (tryCatch m h).
Proof.
  intros Hm Hh Hcomp Hdone st. unfold tryCatch. specialize (Hm st).
  destruct (m st) as [[a|e] st']; simpl in *; [by apply Hdone|].
  eapply Hcomp; [exact Hm|apply Hh].
Qed.

Lemma adds_then_same pk a b c : addsInstall pk a b -> sameInstalls b c -> addsInstall pk a c.
Proof. unfold addsInstall, sameInstalls. congruence. Qed.

Lemma same_then_adds pk a b c : sameInstalls a b -> addsInstall pk b c -> addsInstall pk a c.
Proof. unfold addsInstall, sameInstalls. congruence. Qed.

Ltac sameInstalls_prim := solve [run_prim; unfold sameInstalls; simpl; reflexivity].

Ltac sameInstalls_tac :=
  repeat first [respects_step | sameInstalls_prim | progress unfold_stages].

Ltac total_step :=
  match goal with
  | |- total (bind _ _) => apply total_bind; [|intros ?]
  | |- total (tryCatch _ _) => apply total_tryCatch; intros ?
  | |- total (forEach _ _) => apply total_forEach; intros ? ?
  | |- total (when _ _) => apply total_when
  | |- total (ret _) => apply total_ret
  | |- total (modify _) => apply total_modify
  | |- total (gets _) => apply total_gets
  | |- total (logger _ _) => apply total_logger
  | |- total (if ?c then _ else _) => destruct c
  | |- total (match ?x with _ => _ end) => destruct x
  end.

Lemma sqlStage_total env app appPath queries : total (sqlStage env app appPath queries).
Proof. unfold sqlStage. repeat total_step. Qed.

Lemma executeAddDependency_adds env packages messageId msg appPath :
  respects (addsInstall packages)
    (executeAddDependency env packages messageId msg appPath).
Proof.
  unfold executeAddDependency.
  apply (respects_bind_mixed (addsInstall packages) sameInstalls).
  - by intros st.
  - intros _. sameInstalls_tac.
  - apply adds_then_same.
  - done.
Qed.

Lemma dependencyStage_adds env messageId msg appPath packages :
  packages <> [] ->
  respects (addsInstall packages)
    (dependencyStage env messageId msg appPath packages).
Proof.
  intros Hne. unfold dependencyStage.
  destruct packages as [|p packages]; [done|]. simpl negb. unfold when.
  apply (respects_bind_mixed (addsInstall (p :: packages)) sameInstalls).
  - apply (respects_tryCatch_mixed (addsInstall (p :: packages)) sameInstalls).
    + apply executeAddDependency_adds.
    + intros e. sameInstalls_tac.
    + apply adds_then_same.
    + done.
  - intros _. sameInstalls_tac.
  - apply adds_then_same.
  - done.
Qed.

Lemma runActions_adds env fullResponse app appPath uploads messageId msg
    writes renames deletes packages queries :
  packages <> [] ->
  respects (addsInstall packages)
    (runActions env fullResponse app appPath uploads messageId msg
       writes renames deletes packages queries).
Proof.
  intros Hne. unfold runActions.
  apply (respects_bind_total sameInstalls (addsInstall packages)).
  - apply sqlStage_total.
  - sameInstalls_tac.
  - intros _.
    apply (respects_bind_mixed (addsInstall packages) sameInstalls).
    + by apply dependencyStage_adds.
    + intros _. sameInstalls_tac.
    + apply adds_then_same.
    + done.
  - apply same_then_adds.
Qed.

Lemma installCalls_push_logs l w : installCalls (push_logs l w) = installCalls w.
Proof. revert w. induction l as [|e l IH]; intros w; [done|]. simpl. by rewrite IH. Qed.

(** C5.  The parsed package list of a response is the concatenation, in the
    order of the matches of the add-dependency expression, of every match's
    list split at the spaces, duplicates included; in a text made of
    add-dependency tags and plain text the matches are the tags, in order.
    When the list is not empty, an invocation that finds its app and its
    message calls the install action exactly once, with that whole list. *)
Theorem dependencies_installed_once
    env fullResponse chatId summary messageId w app msg :
  entersTry env w chatId app ->
  messageFound w messageId chatId msg ->
  getDyadAddDependencyTags fullResponse <> [] ->
  let matches := exec_all add_dependency_matcher fullResponse 0 in
  let packages := mjoin (split space <$> matches) in
  getDyadAddDependencyTags fullResponse = packages /\
  (forall d, forallb wfDependencySegment d = true ->
     fullResponse = render dependencyTagText d -> matches = packageAttributes d) /\
  installCalls
    (world (processFullResponseActions env fullResponse chatId summary messageId w).2)
  = (installCalls w ++ [packages])%list.
Proof.
  intros Henter Hfound Hne matches packages.
  split; [reflexivity|]. split.
  { intros d Hwf ->. by apply exec_all_dependencies. }
  change (mjoin (split space <$> matches))
    with (getDyadAddDependencyTags fullResponse) in packages.
  rewrite (process_found _ _ _ _ _ _ _ _ Henter Hfound). cbv zeta.
  unfold actionsRun.
  pose proof (runActions_adds env fullResponse app
                (getDyadAppPath env (app_path app)) (fileUploads w !! chatId)
                messageId msg
                (getDyadWriteTags (normalizePath env) fullResponse)
                (getDyadRenameTags (normalizePath env) fullResponse)
                (getDyadDeleteTags (normalizePath env) fullResponse)
                packages
                (if truthy (supabaseProjectId app)
                 then getDyadExecuteSqlTags fullResponse else [])
                Hne (atActions env fullResponse w chatId)) as Hrun.
  fold packages.
  destruct (runActions _ _ _ _ _ _ _ _ _ _ _ _ _) as [o st1]. simpl in Hrun |- *.
  assert (forall (m : M ProcessResult), respects sameInstalls m ->
            installCalls (world (finallyBlock fullResponse messageId (m st1).2).2)
            = (installCalls w ++ [packages])%list) as Hrest.
  { intros m Hm.
    assert (respects sameInstalls (finallyBlock fullResponse messageId)) as Hfin
      by sameInstalls_tac.
    specialize (Hfin (m st1).2). specialize (Hm st1).
    unfold sameInstalls, addsInstall in *. rewrite Hfin, Hm, Hrun.
    simpl. by rewrite installCalls_push_logs. }
  destruct o as [[]|e]; apply Hrest; sameInstalls_tac.
Qed.

(** ** The commit and the files edited outside *)

Lemma messages_push_gits ops w : messages (push_gits ops w) = messages w.
Proof. revert w. induction ops as [|o ops IH]; intros w; [done|]. simpl. by rewrite IH. Qed.

Lemma gitAdd_all_run env appPath l st :
  Forall (fun f => forall w, gitAdd env w appPath f = Done tt) l ->
  forEach l (do_gitAdd env appPath) st
  = (Done tt, on_world (push_gits (GitAdd appPath <$> l)) st).
Proof.
  intros Hl. revert st. induction Hl as [|f l Hf Hl IH]; intros st.
  - by destruct st as [[]].
  - simpl. unfold bind at 1. unfold do_gitAdd at 1. unfold bind at 1, modify, ask.
    rewrite Hf. rewrite IH. by rewrite on_world_on_world.
Qed.

(** The commit step when the primary commit succeeds, files edited outside
    are found and staged, and the amend commit throws. *)
Lemma commitAndApprove_amend_fails
    env appPath summary messageId packages queries st h files e :
  hasChanges st packages = true ->
  Forall (fun f => forall w, gitAdd env w appPath f = Done tt) (writtenFiles st) ->
  (forall w,
     gitCommit env w appPath (commitMessage summary (changes st packages queries))
       false
     = Done h) ->
  (forall w, getGitUncommittedFiles env w appPath = Done files) ->
  files <> [] ->
  (forall w, gitAddAll env w appPath = Done tt) ->
  (forall w,
     gitCommit env w appPath
       (commitMessage summary (changes st packages queries)
        +:+ " + extra files edited outside of Dyad") true
     = Raise e) ->
  exists st',
    commitAndApprove env appPath summary messageId packages queries st
    = (Done {| updatedFiles := Some true; res_error := None;
               extraFiles := Some files; extraFilesError := Some e |}, st') /\
    messages (world st')
    = alter (set_approvalState "approved") messageId
        (alter (set_commitHash h) messageId (messages (world st))).
Proof.
  intros Hch Hadd Hcommit Hfiles Hne HaddAll Hamend.
  unfold commitAndApprove. unfold bind at 1, gets. rewrite Hch.
  unfold bind at 1. unfold commitStage.
  unfold bind at 1, gets. unfold bind at 1.
  rewrite gitAdd_all_run by done.
  unfold bind at 1, gets.
  change (changes (on_world _ st) packages queries) with (changes st packages queries).
  unfold bind at 1. unfold do_gitCommit at 1. unfold bind at 1, modify, ask.
  rewrite Hcommit.
  unfold bind at 1, logger, modify.
  unfold bind at 1, ask. rewrite Hfiles.
  destruct files as [|f0 files]; [done|]. simpl negb.
  cbv iota.
  unfold bind at 1. unfold bind at 1. unfold do_gitAddAll. unfold bind at 1, modify, ask.
  rewrite HaddAll.
  unfold tryCatch. unfold bind at 1. unfold do_gitCommit. unfold bind at 1, modify, ask.
  rewrite Hamend.
  simpl.
  eexists. split; [reflexivity|]. simpl. by rewrite messages_push_gits.
Qed.

Lemma runActions_keepsMessage env id fullResponse app appPath uploads messageId msg
    writes renames deletes packages queries :
  respects (keepsMessage id)
    (runActions env fullResponse app appPath uploads messageId msg
       writes renames deletes packages queries).
Proof. repeat first [respects_step | keepsMessage_prim | progress unfold_stages]. Qed.

(** C9.  When the actions have gone through with changes, the primary commit
    has succeeded with hash [h], files edited outside are found and staged,
    and the amend commit throws [e]: the invocation returns its normal result,
    without a top-level error, carrying the list of those files and the text
    of [e]; and the hash recorded on the message is [h]. *)
Theorem amend_failure_is_advisory
    env fullResponse chatId summary messageId w app msg st1 h files e :
  let appPath := getDyadAppPath env (app_path app) in
  let packages := getDyadAddDependencyTags fullResponse in
  let queries :=
    if truthy (supabaseProjectId app) then getDyadExecuteSqlTags fullResponse
    else [] in
  let commitMsg := commitMessage summary (changes st1 packages queries) in
  entersTry env w chatId app ->
  messageFound w messageId chatId msg ->
  actionsRun env fullResponse chatId messageId w app msg = (Done tt, st1) ->
  hasChanges st1 packages = true ->
  Forall (fun f => forall w', gitAdd env w' appPath f = Done tt) (writtenFiles st1) ->
  (forall w', gitCommit env w' appPath commitMsg false = Done h) ->
  (forall w', getGitUncommittedFiles env w' appPath = Done files) ->
  files <> [] ->
  (forall w', gitAddAll env w' appPath = Done tt) ->
  (forall w',
     gitCommit env w' appPath
       (commitMsg +:+ " + extra files edited outside of Dyad") true
     = Raise e) ->
  let run := processFullResponseActions env fullResponse chatId summary messageId w in
  run.1 = Done {| updatedFiles := Some true; res_error := None;
                  extraFiles := Some files; extraFilesError := Some e |} /\
  commitHash <$> messages (world run.2) !! messageId = Some (Some h).
Proof.
  intros appPath packages queries commitMsg Henter Hfound Hrun Hch Hadd Hcommit
    Hfiles Hne HaddAll Hamend.
  cbv zeta. rewrite (process_found _ _ _ _ _ _ _ _ Henter Hfound). cbv zeta.
  assert (is_Some (messages (world st1) !! messageId)) as [m1 Hm1].
  { pose proof (runActions_keepsMessage env messageId fullResponse app appPath
                  (fileUploads w !! chatId) messageId msg
                  (getDyadWriteTags (normalizePath env) fullResponse)
                  (getDyadRenameTags (normalizePath env) fullResponse)
                  (getDyadDeleteTags (normalizePath env) fullResponse)
                  packages queries (atActions env fullResponse w chatId)) as Hkeep.
    unfold actionsRun in Hrun. fold appPath packages queries in Hrun.
    rewrite Hrun in Hkeep. apply Hkeep. unfold atActions, atTry. simpl.
    rewrite messages_push_logs. simpl.
    destruct Hfound as (Hm & _). rewrite Hm. eauto. }
  rewrite Hrun. simpl.
  destruct (commitAndApprove_amend_fails env appPath summary messageId packages
              queries st1 h files e Hch Hadd Hcommit Hfiles Hne HaddAll Hamend)
    as (st2 & Hca & Hmsgs).
  unfold tryCatch. fold appPath packages queries. rewrite Hca. cbn [fst snd].
  split; [done|].
  by rewrite lookup_alter_eq, Hmsgs, !lookup_alter_eq, Hm1.
Qed.

(** ** Search-replace failures *)

(** C6.  A search-replace action whose target file is missing, or whose patch
    fails, ends normally and only logs a warning: no entry is added to the
    warnings or errors shown to the user, the file system (and so the target)
    is unchanged, and the loop goes on with the next action. *)
Theorem search_replace_failure_is_silent env app appPath tag rest st full :
  safeJoin env appPath (path tag) = Done full ->
  (fs (world st) !! full = None \/
   exists original,
     fs (world st) !! full = Some (File original) /\
     patchFails env original (content tag)) ->
  let st' := on_world (push_log (searchReplaceWarning env (fs (world st)) full tag)) st in
  searchReplaceOne env app appPath tag st = (Done tt, st') /\
  searchReplaceStage env app appPath (tag :: rest) st
  = searchReplaceStage env app appPath rest st' /\
  warnings st' = warnings st /\ errors st' = errors st /\
  fs (world st') = fs (world st).
Proof.
  intros Hjoin Hfail st'.
  assert (searchReplaceOne env app appPath tag st = (Done tt, st')) as Hone.
  { unfold searchReplaceOne. unfold bind at 1, await. rewrite Hjoin.
    unfold tryCatch, bind at 1, existsSync, gets. subst st'.
    unfold searchReplaceWarning.
    destruct Hfail as [Hnone|(original & Hfile & Hpatch)].
    - by rewrite Hnone.
    - rewrite Hfile. simpl. unfold bind, readFile. rewrite Hfile.
      destruct Hpatch as [Hs|Hc].
      + by rewrite Hs.
      + rewrite Hc. by destruct (success _). }
  split; [done|]. split; [|done].
  unfold searchReplaceStage. simpl. unfold bind at 1. by rewrite Hone.
Qed.

(** ** The Neon pre-step *)

(** C2, as the code has it.  When the app is attached to a Neon branch and the
    snapshot throws [e], the invocation executes no action step and rejects:
    the error is thrown to the caller, not returned as a result; the
    [finally] block is not reached, so the stored messages are left as they
    were. *)
Theorem neon_failure_rejects env fullResponse chatId summary messageId w app e :
  chats w !! chatId = Some app ->
  truthy (neonProjectId app) && truthy (neonDevelopmentBranchId app) = true ->
  storeDbTimestampAtCurrentVersion env (world (atTry w chatId)) (app_id app)
  = Raise e ->
  let run := processFullResponseActions env fullResponse chatId summary messageId w in
  run.1 = Raise ("Error: Could not create Neon branch; database versioning functionality is not working: "
                 +:+ e) /\
  fs (world run.2) = fs w /\
  messages (world run.2) = messages w /\
  gitLog (world run.2) = gitLog w /\
  supabaseLog (world run.2) = supabaseLog w /\
  installCalls (world run.2) = installCalls w /\
  writtenFiles run.2 = [] /\ renamedFiles run.2 = [] /\ deletedFiles run.2 = [].
Proof.
  intros Hchat Hneon Hraise. cbv zeta. unfold processFullResponseActions.
  change (chats (push_log _ (set_fileUploads _ w)) !! chatId)
    with (chats w !! chatId).
  rewrite Hchat. unfold neonStep. rewrite Hneon.
  change (start (push_log _ (set_fileUploads _ w))) with (atTry w chatId).
  unfold when, tryCatch, ask. rewrite Hraise. simpl. done.
Qed.

(** ** The type-check caller *)

(** The three events the caller listens to: a message and an error terminate
    the worker and settle the promise; an exit with a non-zero code settles
    it. *)
Lemma worker_settled_by_events
    (ProblemReport : Type) normalizePath cachePath fullResponse appPath
    (report : ProblemReport) (e : string) :
  let caller :=
    generateProblemReport ProblemReport normalizePath cachePath fullResponse appPath in
  let reply := {| wo_success := true; wo_data := Some report; wo_error := None |} in
  (promise (handle caller (OnMessage reply)) = Resolved report /\
   terminated (handle caller (OnMessage reply)) = true) /\
  (promise (handle caller (OnError e)) = Rejected e /\
   terminated (handle caller (OnError e)) = true) /\
  promise (handle caller (OnExit 1)) = Rejected "Error: Worker exited with code 1".
Proof. done. Qed.

(** C3, as the code has it.  However much time goes by, as long as the worker
    neither posts a message, nor errors, nor exits, the promise stays pending
    and the worker is not terminated. *)
Theorem worker_never_timed_out
    (ProblemReport : Type) normalizePath cachePath fullResponse appPath
    (waits : list nat) :
  let caller :=
    after (Elapsed <$> waits)
      (generateProblemReport ProblemReport normalizePath cachePath fullResponse appPath) in
  promise caller = Pending /\ terminated caller = false.
Proof.
  cbv zeta. unfold after.
  assert (forall c : Caller ProblemReport,
            fold_left handle (Elapsed <$> waits) c = c) as ->.
  { induction waits as [|n waits IH]; intros c; [done|]. simpl. apply IH. }
  done.
Qed.

(** ** The file actions, one stage at a time *)

Lemma bind_run {A B} (m : M A) (k : A -> M B) st a st' :
  m st = (Done a, st') -> bind m k st = k a st'.
Proof. intros H. unfold bind. by rewrite H. Qed.


Ltac total_tac := repeat first [total_step | progress unfold_stages].


Lemma forEach_single {A} (body : A -> M unit) x st :
  forEach [x] body st = (let '(o, st') := body x st in
                         match o with Done _ => (Done tt, st') | Raise e => (Raise e, st') end).
Proof. simpl. unfold bind. destruct (body x st) as [[[]|e] st']; done. Qed.

Lemma modify_run f st : modify f st = (Done tt, f st).
Proof. reflexivity. Qed.

Lemma logger_run lv s st :
  logger lv s st = (Done tt, on_world (push_log {| level := lv; text := s |}) st).
Proof. reflexivity. Qed.

Lemma await_run {A} (o : outcome A) st : await o st = (o, st).
Proof. reflexivity. Qed.

Lemma existsSync_run p st :
  existsSync p st
  = (Done (match fs (world st) !! p with Some _ => true | None => false end), st).
Proof. reflexivity. Qed.

Global Instance quiet_preorder id : PreOrder (quiet id).
Proof.
  split.
  - intros a. by repeat split.
  - intros a b c (?&?&?&?&?) (?&?&?&?&?). unfold quiet. repeat split; congruence.
Qed.

Ltac quiet_tac :=
  repeat first [respects_step | quiet_prim | progress unfold_stages].

Lemma respects_both {A} (R1 R2 : relation St) (m : M A) :
  respects R1 m -> respects R2 m -> respects (fun a b => R1 a b /\ R2 a b) m.
Proof. intros H1 H2 st. split; [apply H1|apply H2]. Qed.

(** Run what is left of a loop body: guarded calls only, which end normally,
    keep the files and add nothing to the three arrays or to the calls of
    git. *)
Ltac run_tail :=
  match goal with
  | |- context [bind ?m ?k ?s] =>
      let Ht := fresh "Ht" in
      assert (total (bind m k)) as Ht by total_tac;
      let Hr := fresh "Hr" in
      assert (respects (fun a b => sameFs a b /\ quiet 0 a b) (bind m k)) as Hr
        by (apply respects_both; [sameFs_tac|quiet_tac]);
      let Hfs := fresh "Hfs" in
      let Hq := fresh "Hq" in
      destruct (total_respects_run _ (bind m k) s Ht Hr) as ([] & ? & -> & Hfs & Hq);
      clear Ht Hr
  | |- context [when ?c ?m ?s] =>
      let Ht := fresh "Ht" in
      assert (total (when c m)) as Ht by total_tac;
      let Hr := fresh "Hr" in
      assert (respects (fun a b => sameFs a b /\ quiet 0 a b) (when c m)) as Hr
        by (apply respects_both; [sameFs_tac|quiet_tac]);
      let Hfs := fresh "Hfs" in
      let Hq := fresh "Hq" in
      destruct (total_respects_run _ (when c m) s Ht Hr) as ([] & ? & -> & Hfs & Hq);
      clear Ht Hr
  end.

Lemma withoutTree_lookup p m k :
  withoutTree p m !! k = if String.eqb k p || under p k then None else m !! k.
Proof.
  unfold withoutTree.
  destruct (String.eqb k p) eqn:Hk; simpl.
  - apply String.eqb_eq in Hk as ->. apply map_lookup_filter_None. right.
    intros x _ [Hne _]. done.
  - apply String.eqb_neq in Hk. destruct (under p k) eqn:Hu.
    + apply map_lookup_filter_None. right. intros x _ [_ Hf]. simpl in Hf. congruence.
    + destruct (m !! k) as [x|] eqn:Hm.
      * apply map_lookup_filter_Some. split; [done|]. by split.
      * apply map_lookup_filter_None. by left.
Qed.

Global Instance keepsTrace_preorder : PreOrder keepsTrace.
Proof.
  split; [done|]. intros a b c (?&?&?) (?&?&?). unfold keepsTrace. repeat split; congruence.
Qed.

Global Instance keepsActions_preorder : PreOrder keepsActions.
Proof.
  split; [done|]. intros a b c (?&?&?&?&?) (?&?&?&?&?). unfold keepsActions.
  repeat split; try congruence. by etrans.
Qed.












Global Instance sameKinds_preorder : PreOrder sameKinds.
Proof.
  split; [by intros a p|]. intros a b c Hab Hbc p. by rewrite Hbc, Hab.
Qed.


Lemma readFile_run p st :
  readFile p st
  = (match fs (world st) !! p with
     | Some (File d) => Done d
     | Some Dir => Raise (fsErrorFd "EISDIR" "read")
     | None => Raise (fsError "ENOENT" "open" p)
     end, st).
Proof. unfold readFile. by destruct (fs (world st) !! p) as [[]|]. Qed.





Lemma fs_push_logs l w : fs (push_logs l w) = fs w.
Proof. revert w. induction l as [|e l IH]; intros w; [done|]. simpl. by rewrite IH. Qed.

Lemma gitLog_push_logs l w : gitLog (push_logs l w) = gitLog w.
Proof. revert w. induction l as [|e l IH]; intros w; [done|]. simpl. by rewrite IH. Qed.


(** ** The packages attribute *)

(** C7, as stated, fails: two spaces between names yield an empty entry, and
    a tab does not separate names. *)
Lemma packages_not_split_at_all_whitespace :
  getDyadAddDependencyTags (dependencyTagText "left  right" EmptyString)
  = ["left"; EmptyString; "right"]
  /\
  getDyadAddDependencyTags
    (dependencyTagText ("left" +:+ str1 Texts.tab +:+ "right") EmptyString)
  = ["left" +:+ str1 Texts.tab +:+ "right"].
Proof. split; reflexivity. Qed.

(** C7, as the code has it.  The packages attribute is split at every single
    space and nowhere else.  So names that hold no space, joined by single
    spaces, are parsed into exactly those names. *)
Theorem packages_split_at_single_spaces packages body :
  nonempty packages = true ->
  has_char dquote packages = false ->
  has_char "<" body = false ->
  getDyadAddDependencyTags (dependencyTagText packages body) = split space packages /\
  (forall names,
     names <> [] -> Forall (fun n => has_char space n = false) names ->
     packages = join " " names ->
     getDyadAddDependencyTags (dependencyTagText packages body) = names).
Proof.
  intros Hne Hq Hbody.
  assert (getDyadAddDependencyTags (dependencyTagText packages body)
          = split space packages) as Hsplit.
  { rewrite <- (append_nil_r (dependencyTagText packages body)).
    change (dependencyTagText packages body +:+ EmptyString)
      with (render dependencyTagText [Tagged packages body]).
    rewrite getDyadAddDependencyTags_render.
    - simpl. by rewrite app_nil_r.
    - simpl. by rewrite Hne, Hq, Hbody. }
  split; [done|].
  intros names Hnames Hsp ->. rewrite Hsplit. by apply split_join.
Qed.

Lemma packages_split_at_single_spaces_witness :
  getDyadAddDependencyTags (dependencyTagText "left right right extra" EmptyString)
  = ["left"; "right"; "right"; "extra"].
Proof.
  refine (proj2 (packages_split_at_single_spaces "left right right extra"
                   EmptyString eq_refl eq_refl eq_refl)
            ["left"; "right"; "right"; "extra"] _ _ eq_refl).
  - discriminate.
  - repeat constructor.
Defined.

(** ** The properties at work *)


(** In that scenario the search-replace action finds, at [old.ts], the file
    that the rename has put there, and its result is overwritten by the
    write: [old.ts] is recorded as written twice. *)
Lemma order_scenario_trace :
  let st :=
    (processFullResponseActions Demo.env Order.scenario 1 None 10
       (Demo.world Order.scenario)).2 in
  writtenFiles st = ["old.ts"; "old.ts"] /\
  gitLog (world st)
  = [ GitRemove "/apps/demo" "old.ts"; GitAdd "/apps/demo" "old.ts";
      GitRemove "/apps/demo" "b.ts"; GitAdd "/apps/demo" "old.ts";
      GitAdd "/apps/demo" "old.ts";
      GitCommit "/apps/demo"
        "[dyad] wrote 2 file(s), renamed 1 file(s), deleted 1 file(s)" false ].
Proof. split; vm_compute; reflexivity. Qed.

Lemma neon_failure_rejects_witness :
  (processFullResponseActions NeonDown.env Demo.renameScenario 1 None 10
     (NeonDown.world Demo.renameScenario)).1
  = Raise "Error: Could not create Neon branch; database versioning functionality is not working: Error: branch not found".
Proof.
  apply (neon_failure_rejects NeonDown.env Demo.renameScenario 1 None 10
           (NeonDown.world Demo.renameScenario) NeonDown.app
           "Error: branch not found"); reflexivity.
Defined.

(** C2, as stated, fails: with a failing snapshot the invocation does not
    return a result at all, and the content of the stored message is not
    touched. *)
Lemma neon_failure_is_thrown_not_returned :
  let run :=
    processFullResponseActions NeonDown.env Demo.renameScenario 1 None 10
      (NeonDown.world Demo.renameScenario) in
  (forall r, run.1 <> Done r) /\
  msg_content <$> messages (world run.2) !! 10%Z = Some Demo.renameScenario.
Proof. split; [intros r; vm_compute; discriminate|reflexivity]. Qed.


(** The dependency scenario of the specification, in [Demo]. *)
Lemma dependencies_installed_once_witness :
  installCalls
    (world (processFullResponseActions Demo.env Demo.dependencyScenario 1 None 10
              (Demo.world Demo.dependencyScenario)).2)
  = [["left"; "right"; "right"; "extra"]].
Proof.
  apply (dependencies_installed_once Demo.env Demo.dependencyScenario 1 None 10
           (Demo.world Demo.dependencyScenario) Demo.app
           (Demo.theMessage Demo.dependencyScenario)).
  - split; [reflexivity|discriminate].
  - repeat split; reflexivity.
  - vm_compute. discriminate.
Defined.

Lemma search_replace_failure_is_silent_witness :
  let tag := {| path := "missing.ts"; content := "x"; description := None |} in
  let st := start (Demo.world EmptyString) in
  searchReplaceStage Demo.env Demo.app "/apps/demo" [tag] st
  = (Done tt,
     on_world
       (push_log {| level := LWarn;
                    text := "Search-replace target file does not exist: missing.ts" |})
       st).
Proof.
  apply (search_replace_failure_is_silent Demo.env Demo.app "/apps/demo"
           {| path := "missing.ts"; content := "x"; description := None |} []
           (start (Demo.world EmptyString)) "/apps/demo/missing.ts").
  - reflexivity.
  - left. reflexivity.
Defined.

Lemma no_change_no_commit_witness :
  let st :=
    (processFullResponseActions Demo.env "Nothing to change." 1 None 10
       (Demo.world "Nothing to change.")).2 in
  gitLog (world st) = [] /\
  commitHash <$> messages (world st) !! 10%Z = Some None.
Proof.
  apply (no_change_no_commit Demo.env "Nothing to change." 1 None 10
           (Demo.world "Nothing to change.")); reflexivity.
Defined.

Lemma amend_failure_is_advisory_witness :
  let run :=
    processFullResponseActions AmendFails.env Demo.renameScenario 1 None 10
      (Demo.world Demo.renameScenario) in
  run.1 = Done {| updatedFiles := Some true; res_error := None;
                  extraFiles := Some ["notes.md"];
                  extraFilesError := Some "Error: cannot amend" |} /\
  commitHash <$> messages (world run.2) !! 10%Z = Some (Some "c0ffee1").
Proof.
  apply (amend_failure_is_advisory AmendFails.env Demo.renameScenario 1 None 10
           (Demo.world Demo.renameScenario) Demo.app
           (Demo.theMessage Demo.renameScenario)
           (actionsRun AmendFails.env Demo.renameScenario 1 10
              (Demo.world Demo.renameScenario) Demo.app
              (Demo.theMessage Demo.renameScenario)).2
           "c0ffee1" ["notes.md"] "Error: cannot amend").
  - split; [reflexivity|discriminate].
  - repeat split; reflexivity.
  - vm_compute. reflexivity.
  - vm_compute. reflexivity.
  - vm_compute. repeat constructor.
  - reflexivity.
  - reflexivity.
  - discriminate.
  - reflexivity.
  - reflexivity.
Defined.

Lemma finally_always_overwrites_content_witness :
  let st :=
    (processFullResponseActions Demo.env "Nothing to change." 1 None 10
       (Demo.world "Nothing to change.")).2 in
  exists m, messages (world st) !! 10%Z = Some m /\
    msg_content m
    = "Nothing to change." +:+ str1 newline +:+ str1 newline
      +:+ appendedContent (warnings st) (errors st).
Proof.
  exact (proj2
           (finally_always_overwrites_content Demo.env "Nothing to change." 1 None 10
              (Demo.world "Nothing to change.") Demo.app
              (conj eq_refl (fun H => False_ind _ (Bool.diff_false_true H))))
           (Demo.theMessage "Nothing to change.") eq_refl).
Defined.

(** * Further properties *)

(** ** Every match of a global expression *)

Lemma exec_all_Forall {G} (P : G -> Prop) (m : matcher G) :
  (forall s g r, m s = Some (g, r) -> P g) ->
  forall s skip, Forall P (exec_all m s skip).
Proof.
  intros Hm. induction s as [|a s IH]; intros skip; simpl; [constructor|].
  destruct skip as [|k]; [|apply IH].
  destruct (m (String a s)) as [[g r]|] eqn:E; [|apply IH].
  constructor; [by eapply Hm|apply IH].
Qed.

Lemma exec_all_clear_nil {G} (m : matcher G) ci opener t :
  (forall x r, mismatch ci opener x = true -> m (x +:+ r) = None) ->
  clear_of ci opener t = true ->
  exec_all m t 0 = [].
Proof.
  intros Hm Ht. rewrite <- (append_nil_r t).
  by rewrite (exec_all_clear m ci opener t EmptyString Hm Ht).
Qed.

Lemma exec_first_clear {G} (m : matcher G) ci opener t s :
  (forall x r, mismatch ci opener x = true -> m (x +:+ r) = None) ->
  clear_of ci opener t = true ->
  exec_first m (t +:+ s) = exec_first m s.
Proof.
  intros Hm. induction t as [|a t IH]; intros Ht; [reflexivity|].
  simpl in Ht. apply andb_true_iff in Ht as [Ha Ht].
  pose proof (Hm (String a t) s Ha) as Hnone.
  rewrite append_cons in *. simpl. rewrite Hnone. by apply IH.
Qed.

(** ** parse_mention_apps.ts *)

Lemma span_while_class p s :
  forallb p (list_ascii_of_string (span_while p s).1) = true.
Proof.
  induction s as [|a s IH]; [reflexivity|]. simpl.
  destruct (p a) eqn:Ha; [|reflexivity].
  destruct (span_while p s) as [x r]. simpl in *. by rewrite Ha.
Qed.

Lemma span_while_append p n rest :
  forallb p (list_ascii_of_string n) = true ->
  match rest with String a _ => p a | EmptyString => false end = false ->
  span_while p (n +:+ rest) = (n, rest).
Proof.
  intros Hn Hrest. induction n as [|a n IH].
  - change (EmptyString +:+ rest) with rest.
    destruct rest as [|b rest]; [reflexivity|]. simpl. by rewrite Hrest.
  - simpl in Hn. apply andb_true_iff in Hn as [Ha Hn].
    rewrite append_cons. simpl. by rewrite Ha, IH.
Qed.

Lemma mention_matcher_mismatch x r :
  mismatch false "@app:" x = true -> mention_matcher (x +:+ r) = None.
Proof. intros Hx. unfold mention_matcher. by rewrite lit_mismatch. Qed.

Lemma mention_matcher_name s n r :
  mention_matcher s = Some (n, r) -> mentionName n = true.
Proof.
  unfold mention_matcher. destruct (lit false "@app:" s) as [r1|]; [|done].
  cbv beta iota delta [mbind option_bind].
  pose proof (span_while_class is_mention_char r1) as Hc.
  destruct (span_while is_mention_char r1) as [name r2].
  destruct name as [|a name]; [done|]. intros [= <- <-].
  unfold mentionName. simpl in Hc |- *. exact Hc.
Qed.

(** X1.  Every mention returned is a name: not empty, and made of letters, digits,
    underscores and hyphens only, whatever the prompt. *)
Theorem parseAppMentions_names prompt :
  Forall (fun n => mentionName n = true) (parseAppMentions prompt).
Proof.
  apply exec_all_Forall. intros s g r. apply mention_matcher_name.
Qed.

(** X2.  Text without a beginning of [@app:] yields no mention.  A mention after
    such text is captured up to the first character that cannot belong to a
    name, and the search goes on right after it. *)
Theorem parseAppMentions_mention t n rest :
  clear_of false "@app:" t = true ->
  mentionName n = true ->
  continuesName rest = false ->
  parseAppMentions t = [] /\
  parseAppMentions (t +:+ "@app:" +:+ n +:+ rest) = n :: parseAppMentions rest.
Proof.
  intros Ht Hn Hrest. unfold parseAppMentions. split.
  { apply (exec_all_clear_nil _ false "@app:"); [|done].
    intros x r. apply mention_matcher_mismatch. }
  rewrite (exec_all_clear _ false "@app:"); [| |done].
  2:{ intros x r. apply mention_matcher_mismatch. }
  apply andb_true_iff in Hn as [Hne Hcl].
  rewrite <- (append_assoc "@app:" n rest).
  apply exec_all_match; [reflexivity|].
  rewrite append_assoc. unfold mention_matcher.
  rewrite (lit_append false "@app:" (n +:+ rest)).
  cbv beta iota delta [mbind option_bind].
  rewrite (span_while_append _ _ _ Hcl Hrest).
  by destruct n.
Qed.

Lemma parseAppMentions_mention_witness :
  parseAppMentions "Check @app:MyApp@InvalidPart and @app:AnotherApp.InvalidPart"
  = "MyApp" :: parseAppMentions "@InvalidPart and @app:AnotherApp.InvalidPart".
Proof.
  exact (proj2 (parseAppMentions_mention "Check " "MyApp"
                  "@InvalidPart and @app:AnotherApp.InvalidPart"
                  eq_refl eq_refl eq_refl)).
Defined.

(** ** dyad_tag_parser.ts: the other extractors *)

Arguments renameTagText : simpl never.
Arguments deleteTagText : simpl never.
Arguments commandTagText : simpl never.
Arguments chatSummaryTagText : simpl never.

Lemma attrValue_parts v :
  attrValue v = true -> nonempty v = true /\ has_char dquote v = false.
Proof.
  unfold attrValue. intros H. apply andb_true_iff in H as [Hne Hq].
  by apply negb_true_iff in Hq.
Qed.

Lemma rename_matcher_mismatch x r :
  mismatch false ("<dyad-rename from=" +:+ str1 dquote) x = true ->
  rename_matcher (x +:+ r) = None.
Proof. intros Hx. unfold rename_matcher. by rewrite lit_mismatch. Qed.

Lemma rename_matcher_steps s r1 f r2 r3 t r4 r5 more r6 r7 body r8 :
  lit false ("<dyad-rename from=" +:+ str1 dquote) s = Some r1 ->
  span_not dquote r1 = (f, r2) ->
  nonempty f = true ->
  lit false (str1 dquote +:+ " to=" +:+ str1 dquote) r2 = Some r3 ->
  span_not dquote r3 = (t, r4) ->
  nonempty t = true ->
  lit false (str1 dquote) r4 = Some r5 ->
  span_not ">" r5 = (more, r6) ->
  lit false ">" r6 = Some r7 ->
  lazy_until false "</dyad-rename>" r7 = Some (body, r8) ->
  rename_matcher s = Some ((f, t), r8).
Proof.
  intros H1 H2 Hf H3 H4 Ht H5 H6 H7 H8. unfold rename_matcher.
  rewrite H1. cbv beta iota delta [mbind option_bind].
  rewrite H2. cbv beta iota. destruct f; [done|].
  rewrite H3. cbv beta iota. rewrite H4. cbv beta iota. destruct t; [done|].
  rewrite H5. cbv beta iota. rewrite H6. cbv beta iota.
  rewrite H7. cbv beta iota. by rewrite H8.
Qed.

Lemma renameTagText_shape f t more body s :
  renameTagText f t more body +:+ s
  = ("<dyad-rename from=" +:+ str1 dquote)
    +:+ f
    +:+ String dquote
          (" to=" +:+ str1 dquote +:+ t
           +:+ String dquote
                 (more +:+ String ">"
                    (body +:+ String "<" ("/dyad-rename>" +:+ s)))).
Proof. unfold renameTagText. rewrite !append_assoc. reflexivity. Qed.

Lemma rename_matcher_tag f t more body s :
  attrValue f = true -> attrValue t = true ->
  has_char ">" more = false ->
  occurs false "</dyad-rename>" body = false ->
  rename_matcher (renameTagText f t more body +:+ s) = Some ((f, t), s).
Proof.
  intros Hf Ht Hmore Hbody.
  apply attrValue_parts in Hf as [Hf Hfq], Ht as [Ht Htq].
  set (r7 := body +:+ String "<" ("/dyad-rename>" +:+ s)).
  set (r6 := String ">" r7).
  set (r5 := more +:+ r6).
  set (r4 := String dquote r5).
  set (r3 := t +:+ r4).
  set (r2 := String dquote (" to=" +:+ str1 dquote +:+ r3)).
  apply (rename_matcher_steps _ (f +:+ r2) f r2 r3 t r4 r5 more r6 r7 body s).
  - rewrite renameTagText_shape. apply lit_append.
  - by apply span_not_append.
  - done.
  - exact (lit_append false (str1 dquote +:+ " to=" +:+ str1 dquote) r3).
  - by apply span_not_append.
  - done.
  - exact (lit_append false (str1 dquote) r5).
  - by apply span_not_append.
  - exact (lit_append false ">" r7).
  - exact (lazy_until_append false "<" "/dyad-rename>" body s eq_refl Hbody).
Qed.

(** X3.  Text without a beginning of a rename tag yields no rename.  A rename tag
    after such text yields its two paths, normalised, whatever follows the
    two attributes inside the tag and whatever its body is; the search goes
    on after the tag. *)
Theorem getDyadRenameTags_tag np text f t more body rest :
  clear_of false ("<dyad-rename from=" +:+ str1 dquote) text = true ->
  attrValue f = true -> attrValue t = true ->
  has_char ">" more = false ->
  occurs false "</dyad-rename>" body = false ->
  getDyadRenameTags np text = [] /\
  getDyadRenameTags np (text +:+ renameTagText f t more body +:+ rest)
  = {| from := np f; to := np t |} :: getDyadRenameTags np rest.
Proof.
  intros Htext Hf Ht Hmore Hbody. unfold getDyadRenameTags. split.
  { rewrite (exec_all_clear_nil _ false ("<dyad-rename from=" +:+ str1 dquote));
      [done| |done].
    intros x r. apply rename_matcher_mismatch. }
  rewrite (exec_all_clear _ false ("<dyad-rename from=" +:+ str1 dquote));
    [| |done].
  2:{ intros x r. apply rename_matcher_mismatch. }
  rewrite (exec_all_match _ (renameTagText f t more body) rest (f, t));
    [reflexivity|reflexivity|].
  by apply rename_matcher_tag.
Qed.

Lemma getDyadRenameTags_tag_witness :
  getDyadRenameTags id
    ("Moving it: "
     +:+ renameTagText "src/a.ts" "src/b.ts" " reason=moved" "unused"
     +:+ " done")
  = [ {| from := "src/a.ts"; to := "src/b.ts" |} ].
Proof.
  exact (proj2 (getDyadRenameTags_tag id "Moving it: " "src/a.ts" "src/b.ts"
                  " reason=moved" "unused" " done"
                  eq_refl eq_refl eq_refl eq_refl eq_refl)).
Defined.

Lemma delete_matcher_mismatch x r :
  mismatch false ("<dyad-delete path=" +:+ str1 dquote) x = true ->
  delete_matcher (x +:+ r) = None.
Proof. intros Hx. unfold delete_matcher. by rewrite lit_mismatch. Qed.

Lemma delete_matcher_steps s r1 p r2 r3 more r4 r5 body r6 :
  lit false ("<dyad-delete path=" +:+ str1 dquote) s = Some r1 ->
  span_not dquote r1 = (p, r2) ->
  nonempty p = true ->
  lit false (str1 dquote) r2 = Some r3 ->
  span_not ">" r3 = (more, r4) ->
  lit false ">" r4 = Some r5 ->
  lazy_until false "</dyad-delete>" r5 = Some (body, r6) ->
  delete_matcher s = Some (p, r6).
Proof.
  intros H1 H2 Hp H3 H4 H5 H6. unfold delete_matcher.
  rewrite H1. cbv beta iota delta [mbind option_bind].
  rewrite H2. cbv beta iota. destruct p; [done|].
  rewrite H3. cbv beta iota. rewrite H4. cbv beta iota.
  rewrite H5. cbv beta iota. by rewrite H6.
Qed.

Lemma deleteTagText_shape p more body s :
  deleteTagText p more body +:+ s
  = ("<dyad-delete path=" +:+ str1 dquote)
    +:+ p
    +:+ String dquote
          (more +:+ String ">" (body +:+ String "<" ("/dyad-delete>" +:+ s))).
Proof. unfold deleteTagText. rewrite !append_assoc. reflexivity. Qed.

Lemma delete_matcher_tag p more body s :
  attrValue p = true ->
  has_char ">" more = false ->
  occurs false "</dyad-delete>" body = false ->
  delete_matcher (deleteTagText p more body +:+ s) = Some (p, s).
Proof.
  intros Hp Hmore Hbody. apply attrValue_parts in Hp as [Hp Hpq].
  set (r5 := body +:+ String "<" ("/dyad-delete>" +:+ s)).
  set (r4 := String ">" r5).
  set (r3 := more +:+ r4).
  set (r2 := String dquote r3).
  apply (delete_matcher_steps _ (p +:+ r2) p r2 r3 more r4 r5 body s).
  - rewrite deleteTagText_shape. apply lit_append.
  - by apply span_not_append.
  - done.
  - exact (lit_append false (str1 dquote) r3).
  - by apply span_not_append.
  - exact (lit_append false ">" r5).
  - exact (lazy_until_append false "<" "/dyad-delete>" body s eq_refl Hbody).
Qed.

(** X4.  Text without a beginning of a delete tag yields no path.  A delete tag
    after such text yields its path, normalised, whatever else the tag holds;
    the search goes on after the tag. *)
Theorem getDyadDeleteTags_tag np text p more body rest :
  clear_of false ("<dyad-delete path=" +:+ str1 dquote) text = true ->
  attrValue p = true ->
  has_char ">" more = false ->
  occurs false "</dyad-delete>" body = false ->
  getDyadDeleteTags np text = [] /\
  getDyadDeleteTags np (text +:+ deleteTagText p more body +:+ rest)
  = np p :: getDyadDeleteTags np rest.
Proof.
  intros Htext Hp Hmore Hbody. unfold getDyadDeleteTags. split.
  { rewrite (exec_all_clear_nil _ false ("<dyad-delete path=" +:+ str1 dquote));
      [done| |done].
    intros x r. apply delete_matcher_mismatch. }
  rewrite (exec_all_clear _ false ("<dyad-delete path=" +:+ str1 dquote));
    [| |done].
  2:{ intros x r. apply delete_matcher_mismatch. }
  rewrite (exec_all_match _ (deleteTagText p more body) rest p);
    [reflexivity|reflexivity|].
  by apply delete_matcher_tag.
Qed.

Lemma getDyadDeleteTags_tag_witness :
  getDyadDeleteTags id
    ("Remove " +:+ deleteTagText "src/old.ts" EmptyString EmptyString +:+ " now")
  = ["src/old.ts"].
Proof.
  exact (proj2 (getDyadDeleteTags_tag id "Remove " "src/old.ts" EmptyString
                  EmptyString " now" eq_refl eq_refl eq_refl eq_refl)).
Defined.

Lemma command_matcher_mismatch x r :
  mismatch false ("<dyad-command type=" +:+ str1 dquote) x = true ->
  command_matcher (x +:+ r) = None.
Proof. intros Hx. unfold command_matcher. by rewrite lit_mismatch. Qed.

Lemma command_matcher_steps s r1 t r2 r3 more r4 r5 :
  lit false ("<dyad-command type=" +:+ str1 dquote) s = Some r1 ->
  span_not dquote r1 = (t, r2) ->
  nonempty t = true ->
  lit false (str1 dquote) r2 = Some r3 ->
  span_not ">" r3 = (more, r4) ->
  lit false "></dyad-command>" r4 = Some r5 ->
  command_matcher s = Some (t, r5).
Proof.
  intros H1 H2 Ht H3 H4 H5. unfold command_matcher.
  rewrite H1. cbv beta iota delta [mbind option_bind].
  rewrite H2. cbv beta iota. destruct t; [done|].
  rewrite H3. cbv beta iota. rewrite H4. cbv beta iota. by rewrite H5.
Qed.

Lemma commandTagText_shape t more s :
  commandTagText t more +:+ s
  = ("<dyad-command type=" +:+ str1 dquote)
    +:+ t +:+ String dquote (more +:+ String ">" ("</dyad-command>" +:+ s)).
Proof. unfold commandTagText. rewrite !append_assoc. reflexivity. Qed.

Lemma command_matcher_tag t more s :
  attrValue t = true ->
  has_char ">" more = false ->
  command_matcher (commandTagText t more +:+ s) = Some (t, s).
Proof.
  intros Ht Hmore. apply attrValue_parts in Ht as [Ht Htq].
  set (r4 := String ">" ("</dyad-command>" +:+ s)).
  set (r3 := more +:+ r4).
  set (r2 := String dquote r3).
  apply (command_matcher_steps _ (t +:+ r2) t r2 r3 more r4 s).
  - rewrite commandTagText_shape. apply lit_append.
  - by apply span_not_append.
  - done.
  - exact (lit_append false (str1 dquote) r3).
  - by apply span_not_append.
  - exact (lit_append false "></dyad-command>" s).
Qed.

(** X5.  Text without a beginning of a command tag yields no command.  A command
    tag after such text yields its type, whatever follows the type inside the
    tag; the search goes on after the tag. *)
Theorem getDyadCommandTags_tag text t more rest :
  clear_of false ("<dyad-command type=" +:+ str1 dquote) text = true ->
  attrValue t = true ->
  has_char ">" more = false ->
  getDyadCommandTags text = [] /\
  getDyadCommandTags (text +:+ commandTagText t more +:+ rest)
  = t :: getDyadCommandTags rest.
Proof.
  intros Htext Ht Hmore. unfold getDyadCommandTags. split.
  { apply (exec_all_clear_nil _ false ("<dyad-command type=" +:+ str1 dquote));
      [|done].
    intros x r. apply command_matcher_mismatch. }
  rewrite (exec_all_clear _ false ("<dyad-command type=" +:+ str1 dquote));
    [| |done].
  2:{ intros x r. apply command_matcher_mismatch. }
  apply exec_all_match; [reflexivity|].
  by apply command_matcher_tag.
Qed.

Lemma getDyadCommandTags_tag_witness :
  getDyadCommandTags ("Then " +:+ commandTagText "rebuild" " now" +:+ ".")
  = ["rebuild"].
Proof.
  exact (proj2 (getDyadCommandTags_tag "Then " "rebuild" " now" "."
                  eq_refl eq_refl eq_refl)).
Defined.

Lemma chat_summary_matcher_mismatch x r :
  mismatch false "<dyad-chat-summary>" x = true ->
  chat_summary_matcher (x +:+ r) = None.
Proof. intros Hx. unfold chat_summary_matcher. by rewrite lit_mismatch. Qed.

Lemma chat_summary_matcher_tag body s :
  occurs false "</dyad-chat-summary>" body = false ->
  chat_summary_matcher (chatSummaryTagText body +:+ s) = Some (body, s).
Proof.
  intros Hbody. unfold chat_summary_matcher, chatSummaryTagText.
  rewrite !append_assoc.
  rewrite (lit_append false "<dyad-chat-summary>").
  exact (lazy_until_append false "<" "/dyad-chat-summary>" body s eq_refl Hbody).
Qed.

Lemma exec_first_match {G} (m : matcher G) s g r :
  m s = Some (g, r) -> exec_first m s = Some g.
Proof. intros H. destruct s; simpl; by rewrite H. Qed.

(** X6.  Only the first chat summary tag counts, whatever comes after it: its
    body, trimmed, is the summary; when that body is empty there is no
    summary, even if another tag follows.  Text without a beginning of the
    tag has no summary. *)
Theorem getDyadChatSummaryTag_first text body rest :
  clear_of false "<dyad-chat-summary>" text = true ->
  occurs false "</dyad-chat-summary>" body = false ->
  getDyadChatSummaryTag text = None /\
  getDyadChatSummaryTag (text +:+ chatSummaryTagText body +:+ rest)
  = if nonempty body then Some (trim body) else None.
Proof.
  intros Htext Hbody. unfold getDyadChatSummaryTag. split.
  - rewrite <- (append_nil_r text).
    rewrite (exec_first_clear _ false "<dyad-chat-summary>" text EmptyString);
      [done| |done].
    intros x r. apply chat_summary_matcher_mismatch.
  - rewrite (exec_first_clear _ false "<dyad-chat-summary>"); [| |done].
    2:{ intros x r. apply chat_summary_matcher_mismatch. }
    rewrite (exec_first_match _ _ body rest (chat_summary_matcher_tag body rest Hbody)).
    by destruct body.
Qed.

Lemma getDyadChatSummaryTag_first_witness :
  getDyadChatSummaryTag
    ("Done. " +:+ chatSummaryTagText "  Adding a button " +:+ chatSummaryTagText "other")
  = Some "Adding a button".
Proof.
  exact (proj2 (getDyadChatSummaryTag_first "Done. " "  Adding a button "
                  (chatSummaryTagText "other") eq_refl eq_refl)).
Defined.

Lemma open_close_matcher_tag_exact tag attrs body s :
  forallb (fun ch => negb (char_eq false ch "<"))
    (list_ascii_of_string ("/" +:+ tag +:+ ">")) = true ->
  has_char ">" attrs = false ->
  occurs false ("</" +:+ tag +:+ ">") body = false ->
  open_close_matcher false tag (pathTagText tag attrs body +:+ s)
  = Some ({| tm_whole := pathTagText tag attrs body;
             tm_attrs := attrs; tm_body := body |}, s).
Proof.
  intros Htag Hattrs Hbody.
  set (closer := String "<" ("/" +:+ tag +:+ ">")).
  set (rest := attrs +:+ String ">" (body +:+ closer +:+ s)).
  assert (lit false ("<" +:+ tag) (pathTagText tag attrs body +:+ s) = Some rest) as H1.
  { rewrite pathTagText_shape. exact (lit_append false (String "<" tag) rest). }
  assert (span_not ">" rest = (attrs, String ">" (body +:+ closer +:+ s))) as H2
    by by apply span_not_append.
  assert (lazy_until false ("</" +:+ tag +:+ ">") (body +:+ closer +:+ s)
          = Some (body, s)) as H3
    by exact (lazy_until_append false "<" ("/" +:+ tag +:+ ">") body s Htag Hbody).
  rewrite (open_close_matcher_steps _ _ _ _ _ _ _ _ _ H1 H2 eq_refl H3).
  by rewrite slice0_whole.
Qed.

(** X7.  Text without a beginning of an execute-sql tag yields no query.  Every
    execute-sql tag after such text yields a query, with or without a
    description: its body trimmed and freed of its code fence, and the
    description if the attributes hold one; the search goes on after the
    tag. *)
Theorem getDyadExecuteSqlTags_tag text attrs body rest :
  clear_of false "<dyad-execute-sql" text = true ->
  has_char ">" attrs = false ->
  occurs false "</dyad-execute-sql>" body = false ->
  getDyadExecuteSqlTags text = [] /\
  getDyadExecuteSqlTags (text +:+ pathTagText "dyad-execute-sql" attrs body +:+ rest)
  = {| sql_content := stripFences (trim body);
       sql_description := descriptionRegex attrs |}
    :: getDyadExecuteSqlTags rest.
Proof.
  intros Htext Hattrs Hbody. unfold getDyadExecuteSqlTags. split.
  { rewrite (exec_all_clear_nil _ false "<dyad-execute-sql"); [done| |done].
    intros x r. apply open_close_matcher_mismatch. }
  rewrite (exec_all_clear _ false "<dyad-execute-sql"); [| |done].
  2:{ intros x r. apply open_close_matcher_mismatch. }
  rewrite (exec_all_match _ (pathTagText "dyad-execute-sql" attrs body) rest
             {| tm_whole := pathTagText "dyad-execute-sql" attrs body;
                tm_attrs := attrs; tm_body := body |});
    [reflexivity|reflexivity|].
  by apply open_close_matcher_tag_exact.
Qed.

Lemma getDyadExecuteSqlTags_tag_witness :
  getDyadExecuteSqlTags
    ("Run: " +:+ pathTagText "dyad-execute-sql" EmptyString " select 1; " +:+ ".")
  = [ {| sql_content := "select 1;"; sql_description := None |} ].
Proof.
  exact (proj2 (getDyadExecuteSqlTags_tag "Run: " EmptyString " select 1; " "."
                  eq_refl eq_refl eq_refl)).
Defined.

(** ** Trimming, lines and code fences *)

Lemma trimStart_blank lead s : blank lead = true -> trimStart (lead +:+ s) = trimStart s.
Proof.
  unfold blank. induction lead as [|a lead IH]; intros H; [reflexivity|].
  simpl in H. apply andb_true_iff in H as [Ha H].
  rewrite append_cons. simpl. rewrite Ha. by apply IH.
Qed.

Lemma trimEnd_blank_nil trail : blank trail = true -> trimEnd trail = EmptyString.
Proof.
  unfold blank. induction trail as [|a trail IH]; intros H; [reflexivity|].
  simpl in H. apply andb_true_iff in H as [Ha H].
  simpl. rewrite IH by done. by rewrite Ha.
Qed.

Lemma trimEnd_blank s trail : blank trail = true -> trimEnd (s +:+ trail) = trimEnd s.
Proof.
  intros H. induction s as [|a s IH].
  - change (EmptyString +:+ trail) with trail. by apply trimEnd_blank_nil.
  - rewrite append_cons. simpl. by rewrite IH.
Qed.

Lemma trimEnd_fixed s c : is_space c = false -> trimEnd (s +:+ str1 c) = s +:+ str1 c.
Proof.
  intros Hc. induction s as [|a s IH].
  - change (EmptyString +:+ str1 c) with (str1 c). simpl. by rewrite Hc.
  - rewrite append_cons. simpl. rewrite IH.
    destruct (s +:+ str1 c) eqn:E; [|reflexivity].
    by destruct s.
Qed.

Lemma split_nonempty sep s : split sep s <> [].
Proof.
  destruct s as [|a s]; [done|]. simpl.
  destruct (Ascii.eqb a sep); [done|]. by destruct (split sep s).
Qed.

Lemma split_app sep s r :
  split sep (s +:+ String sep r) = (split sep s ++ split sep r)%list.
Proof.
  induction s as [|a s IH].
  - change (EmptyString +:+ String sep r) with (String sep r).
    simpl. by rewrite Ascii.eqb_refl.
  - rewrite append_cons. simpl. destruct (Ascii.eqb a sep); [by rewrite IH|].
    rewrite IH. pose proof (split_nonempty sep s) as Hne.
    by destruct (split sep s).
Qed.

(** Splitting at a separator and joining with it gives the string back. *)
Lemma join_split sep s : join (str1 sep) (split sep s) = s.
Proof.
  induction s as [|a s IH]; [reflexivity|]. simpl.
  destruct (Ascii.eqb a sep) eqn:Ha.
  - apply Ascii.eqb_eq in Ha as ->.
    pose proof (split_nonempty sep s) as Hne.
    destruct (split sep s) as [|h t] eqn:E; [done|].
    change (join (str1 sep) (EmptyString :: h :: t))
      with (EmptyString +:+ str1 sep +:+ join (str1 sep) (h :: t)).
    by rewrite IH.
  - pose proof (split_nonempty sep s) as Hne.
    destruct (split sep s) as [|h t] eqn:E; [done|].
    rewrite <- IH. destruct t as [|h' t]; reflexivity.
Qed.

Lemma removelast_snoc {A} (l : list A) x : removelast (l ++ [x]) = l.
Proof. apply removelast_last. Qed.

Lemma startsWith_append p s : startsWith p (p +:+ s) = true.
Proof.
  unfold startsWith. induction p as [|a p IH]; [by destruct s|].
  rewrite append_cons. simpl. by destruct (ascii_dec a a).
Qed.

Lemma fenced_shape lang code :
  fenced lang code
  = ("```" +:+ lang) +:+ String newline (code +:+ String newline "```").
Proof. unfold fenced. rewrite append_assoc. reflexivity. Qed.

Lemma fenced_framed lang code :
  fenced lang code
  = String "`" (("``" +:+ lang +:+ str1 newline +:+ code +:+ str1 newline +:+ "``")
                +:+ str1 "`").
Proof. unfold fenced. rewrite !append_assoc. reflexivity. Qed.

Lemma stripFences_fenced lang code :
  has_char newline lang = false ->
  stripFences (fenced lang code) = code.
Proof.
  intros Hlang. unfold stripFences. rewrite fenced_shape.
  rewrite split_append.
  2:{ change ("```" +:+ lang) with (String "`" (String "`" (String "`" lang))).
      simpl. exact Hlang. }
  rewrite split_app.
  rewrite startsWith_append.
  change (split newline "```") with ["```"].
  rewrite last_snoc. change (startsWith "```" "```") with true. cbv iota.
  rewrite removelast_snoc. apply join_split.
Qed.

Lemma stripFences_plain c :
  startsWith "```" (firstLine c) = false ->
  startsWith "```" (lastLine c) = false ->
  stripFences c = c.
Proof.
  unfold stripFences, firstLine, lastLine. intros Hf Hl.
  pose proof (split_nonempty newline c) as Hne.
  destruct (split newline c) as [|l0 tl] eqn:E; [done|].
  simpl in Hf. rewrite Hf.
  destruct (last (l0 :: tl)) as [ll|] eqn:El.
  - simpl in Hl. rewrite Hl. rewrite <- E. apply join_split.
  - rewrite <- E. apply join_split.
Qed.

Lemma trim_framed lead c s d trail :
  blank lead = true -> blank trail = true ->
  is_space c = false -> is_space d = false ->
  trim (lead +:+ String c (s +:+ str1 d) +:+ trail) = String c (s +:+ str1 d).
Proof.
  intros Hlead Htrail Hc Hd. unfold trim.
  rewrite trimStart_blank by done.
  rewrite append_cons. simpl. rewrite Hc.
  rewrite <- append_cons.
  rewrite trimEnd_blank by done.
  rewrite <- append_cons. by apply trimEnd_fixed.
Qed.

Lemma pathTagOfMatch_path np tag m p :
  pathRegex (tm_attrs m) = Some p ->
  pathTagOfMatch np tag m
  = inl {| path := np p; content := stripFences (trim (tm_body m));
           description := descriptionRegex (tm_attrs m) |}.
Proof. intros H. unfold pathTagOfMatch. by rewrite H. Qed.

Lemma getDyadWriteTags_tag np attrs body rest p :
  has_char ">" attrs = false ->
  occurs true "</dyad-write>" body = false ->
  pathRegex attrs = Some p ->
  getDyadWriteTags np (pathTagText "dyad-write" attrs body +:+ rest)
  = {| path := np p; content := stripFences (trim body);
       description := descriptionRegex attrs |}
    :: getDyadWriteTags np rest.
Proof.
  intros Hattrs Hbody Hp.
  unfold getDyadWriteTags, getDyadWriteTags_logged, pathTags.
  rewrite (exec_all_match _ (pathTagText "dyad-write" attrs body) rest
             {| tm_whole := pathTagText "dyad-write" attrs body;
                tm_attrs := attrs; tm_body := body |});
    [|reflexivity|by apply open_close_matcher_tag].
  set (m := {| tm_whole := pathTagText "dyad-write" attrs body;
               tm_attrs := attrs; tm_body := body |}).
  simpl.
  destruct (collectPathTags np "dyad-write" _) as [tags warns].
  by rewrite (pathTagOfMatch_path np "dyad-write" m p Hp).
Qed.

(** X8.  A write tag whose body is a fenced block, with white space around it,
    yields exactly the code between the fences: the fence lines are dropped
    and nothing of the code is, even when lines of the code start with a
    fence themselves. *)
Theorem getDyadWriteTags_fenced np attrs p lead lang code trail rest :
  has_char ">" attrs = false ->
  pathRegex attrs = Some p ->
  blank lead = true -> blank trail = true ->
  has_char newline lang = false ->
  occurs true "</dyad-write>" (lead +:+ fenced lang code +:+ trail) = false ->
  getDyadWriteTags np
    (pathTagText "dyad-write" attrs (lead +:+ fenced lang code +:+ trail) +:+ rest)
  = {| path := np p; content := code; description := descriptionRegex attrs |}
    :: getDyadWriteTags np rest.
Proof.
  intros Hattrs Hp Hlead Htrail Hlang Hbody.
  rewrite (getDyadWriteTags_tag np attrs _ rest p Hattrs Hbody Hp).
  do 2 f_equal.
  assert (trim (lead +:+ fenced lang code +:+ trail) = fenced lang code) as ->.
  { rewrite fenced_framed. by apply trim_framed. }
  by rewrite stripFences_fenced.
Qed.

(** X9.  A write tag whose trimmed body neither begins nor ends with a fence line
    yields that trimmed body, unchanged. *)
Theorem getDyadWriteTags_unfenced np attrs p body rest :
  has_char ">" attrs = false ->
  pathRegex attrs = Some p ->
  occurs true "</dyad-write>" body = false ->
  startsWith "```" (firstLine (trim body)) = false ->
  startsWith "```" (lastLine (trim body)) = false ->
  getDyadWriteTags np (pathTagText "dyad-write" attrs body +:+ rest)
  = {| path := np p; content := trim body; description := descriptionRegex attrs |}
    :: getDyadWriteTags np rest.
Proof.
  intros Hattrs Hp Hbody Hf Hl.
  rewrite (getDyadWriteTags_tag np attrs _ rest p Hattrs Hbody Hp).
  by rewrite stripFences_plain.
Qed.

(** ** What the extractors never return *)

Lemma span_not_free c s : has_char c (span_not c s).1 = false.
Proof.
  induction s as [|a s IH]; [reflexivity|]. simpl.
  destruct (Ascii.eqb a c) eqn:Ha; [reflexivity|].
  destruct (span_not c s) as [x r]. simpl in *. by rewrite Ha.
Qed.

Lemma attr_matcher_value name s v r :
  attr_matcher name s = Some (v, r) -> attrValue v = true.
Proof.
  unfold attr_matcher.
  destruct (lit false (name +:+ "=" +:+ str1 dquote) s) as [r1|]; [|done].
  cbv beta iota delta [mbind option_bind].
  pose proof (span_not_free dquote r1) as Hq.
  destruct (span_not dquote r1) as [x r2]. simpl in Hq.
  destruct x as [|a x]; [done|].
  destruct (lit false (str1 dquote) r2); [|done].
  intros [= <- <-]. unfold attrValue. by rewrite Hq.
Qed.

Lemma exec_first_Some {G} (m : matcher G) s g :
  exec_first m s = Some g -> exists s' r, m s' = Some (g, r).
Proof.
  induction s as [|a s IH]; simpl.
  - destruct (m EmptyString) as [[g' r]|] eqn:E; [|done].
    intros [= <-]. eauto.
  - destruct (m (String a s)) as [[g' r]|] eqn:E; [|exact IH].
    intros [= <-]. eauto.
Qed.

Lemma collectPathTags_captured np tag ms :
  Forall (fun t => capturedFrom np (path t)) (collectPathTags np tag ms).1.
Proof.
  induction ms as [|m ms IH]; simpl; [constructor|].
  destruct (collectPathTags np tag ms) as [tags warns]. simpl in IH.
  unfold pathTagOfMatch.
  destruct (pathRegex (tm_attrs m)) as [p|] eqn:Hp; simpl; [|done].
  constructor; [|done]. simpl.
  apply exec_first_Some in Hp as (s' & r & Hm).
  exists p. split; [done|]. by eapply attr_matcher_value.
Qed.

Lemma delete_matcher_value s p r :
  delete_matcher s = Some (p, r) -> attrValue p = true.
Proof.
  unfold delete_matcher.
  destruct (lit false _ s) as [r1|]; [|done].
  cbv beta iota delta [mbind option_bind].
  pose proof (span_not_free dquote r1) as Hq.
  destruct (span_not dquote r1) as [x r2]. simpl in Hq.
  destruct x as [|a x]; [done|].
  destruct (lit false (str1 dquote) r2) as [r3|]; [|done].
  destruct (span_not ">" r3) as [y r4].
  destruct (lit false ">" r4) as [r5|]; [|done].
  destruct (lazy_until false "</dyad-delete>" r5) as [[b r6]|]; [|done].
  intros [= <- <-]. unfold attrValue. by rewrite Hq.
Qed.

Lemma rename_matcher_value s f t r :
  rename_matcher s = Some ((f, t), r) -> attrValue f = true /\ attrValue t = true.
Proof.
  unfold rename_matcher.
  destruct (lit false _ s) as [r1|]; [|done].
  cbv beta iota delta [mbind option_bind].
  pose proof (span_not_free dquote r1) as Hq.
  destruct (span_not dquote r1) as [x r2]. simpl in Hq.
  destruct x as [|a x]; [done|].
  destruct (lit false _ r2) as [r3|]; [|done].
  pose proof (span_not_free dquote r3) as Hq'.
  destruct (span_not dquote r3) as [y r4]. simpl in Hq'.
  destruct y as [|b y]; [done|].
  destruct (lit false (str1 dquote) r4) as [r5|]; [|done].
  destruct (span_not ">" r5) as [z r6].
  destruct (lit false ">" r6) as [r7|]; [|done].
  destruct (lazy_until false "</dyad-rename>" r7) as [[bd r8]|]; [|done].
  intros [= <- <- <-]. unfold attrValue. by rewrite Hq, Hq'.
Qed.

(** X10.  Whatever the text, every path the extractors return comes from a
    captured attribute value that is not empty and holds no double quote:
    no tag with an empty path is ever handed to the file actions. *)
Theorem extracted_paths_captured np fullResponse :
  Forall (fun t => capturedFrom np (path t)) (getDyadWriteTags np fullResponse) /\
  Forall (fun t => capturedFrom np (path t)) (getDyadSearchReplaceTags np fullResponse) /\
  Forall (capturedFrom np) (getDyadDeleteTags np fullResponse) /\
  Forall (fun t => capturedFrom np (from t) /\ capturedFrom np (to t))
    (getDyadRenameTags np fullResponse).
Proof.
  split; [apply collectPathTags_captured|].
  split; [apply collectPathTags_captured|].
  split.
  - unfold getDyadDeleteTags. apply Forall_fmap.
    apply exec_all_Forall. intros s p r Hm. simpl.
    exists p. split; [done|]. by eapply delete_matcher_value.
  - unfold getDyadRenameTags. apply Forall_fmap.
    apply exec_all_Forall. intros s [f t] r Hm. simpl.
    apply rename_matcher_value in Hm as [Hf Ht].
    split; [by exists f|by exists t].
Qed.

Lemma split_pieces sep c s :
  has_char c s = false ->
  Forall (fun x => has_char sep x = false /\ has_char c x = false) (split sep s).
Proof.
  induction s as [|a s IH]; intros Hc.
  - by repeat constructor.
  - simpl in Hc. apply orb_false_iff in Hc as [Ha Hc]. specialize (IH Hc).
    simpl. destruct (Ascii.eqb a sep) eqn:Hsep.
    + constructor; [done|exact IH].
    + destruct (split sep s) as [|h t]; [by repeat constructor; simpl; rewrite ?Hsep, ?Ha|].
      apply Forall_cons in IH as [[Hh1 Hh2] IH].
      constructor; [|done]. simpl. by rewrite Hsep, Ha, Hh1, Hh2.
Qed.

Lemma add_dependency_matcher_value s p r :
  add_dependency_matcher s = Some (p, r) -> has_char dquote p = false.
Proof.
  unfold add_dependency_matcher.
  destruct (lit false _ s) as [r1|]; [|done].
  cbv beta iota delta [mbind option_bind].
  pose proof (span_not_free dquote r1) as Hq.
  destruct (span_not dquote r1) as [x r2]. simpl in Hq.
  destruct x as [|a x]; [done|].
  destruct (lit false _ r2) as [r3|]; [|done].
  destruct (span_not "<" r3) as [y r4].
  destruct (lit false _ r4) as [r5|]; [|done].
  by intros [= <- <-].
Qed.

(** X11.  Whatever the text, no package name returned holds a space or a double
    quote. *)
Theorem getDyadAddDependencyTags_names fullResponse :
  Forall (fun p => has_char space p = false /\ has_char dquote p = false)
    (getDyadAddDependencyTags fullResponse).
Proof.
  unfold getDyadAddDependencyTags.
  assert (Forall (fun p => has_char dquote p = false)
            (exec_all add_dependency_matcher fullResponse 0)) as Hall.
  { apply exec_all_Forall. intros s p r. apply add_dependency_matcher_value. }
  induction Hall as [|p ps Hp Hall IH]; [constructor|].
  simpl. apply Forall_app. split; [|exact IH].
  by apply split_pieces.
Qed.

(** ** The dry run of the search-replace actions *)

Global Instance onlyLogged_preorder : PreOrder onlyLogged.
Proof.
  split.
  - intros a. by repeat split.
  - intros a b c Hab Hbc. unfold onlyLogged in *.
    destruct Hab as (?&?&?&?&?&?&?&?&?&?&?&?).
    destruct Hbc as (?&?&?&?&?&?&?&?&?&?&?&?).
    repeat split; congruence.
Qed.

Ltac onlyLogged_prim := solve [run_prim; unfold onlyLogged; simpl; by repeat split].

Ltac onlyLogged_tac :=
  repeat first [respects_step | onlyLogged_prim | progress unfold_stages].

Lemma dryRunOne_onlyLogged env appPath tag : respects onlyLogged (dryRunOne env appPath tag).
Proof. unfold dryRunOne. onlyLogged_tac. Qed.

Lemma dryRunLoop_onlyLogged env appPath tags :
  respects onlyLogged (dryRunLoop env appPath tags).
Proof.
  induction tags as [|tag tags IH]; simpl; [onlyLogged_tac|].
  apply respects_bind; [apply _|apply dryRunOne_onlyLogged|intros found].
  apply respects_bind; [apply _|exact IH|intros more]. onlyLogged_tac.
Qed.

(** X12.  The dry run changes nothing: whatever it answers, the files, the
    database, git, Supabase and the installed packages are as they were (only
    log lines are added). *)
Theorem dryRunSearchReplace_changes_nothing env fullResponse appPath st :
  onlyLogged st (dryRunSearchReplace env fullResponse appPath st).2.
Proof.
  revert st. change (respects onlyLogged (dryRunSearchReplace env fullResponse appPath)).
  unfold dryRunSearchReplace.
  destruct (getDyadSearchReplaceTags_logged _ _) as [tags ws].
  apply respects_bind; [apply _|onlyLogged_tac|intros _].
  apply dryRunLoop_onlyLogged.
Qed.

Lemma dryRunOne_refused env appPath tag e st :
  safeJoin env appPath (path tag) = Raise e ->
  dryRunOne env appPath tag st = (Raise e, st).
Proof. intros H. unfold dryRunOne, bind, await. by rewrite H. Qed.

Lemma dryRunOne_accepted env appPath tag full st :
  safeJoin env appPath (path tag) = Done full ->
  exists found st',
    dryRunOne env appPath tag st = (Done found, st') /\
    sublist (issue_filePath <$> found) [path tag].
Proof.
  intros H. unfold dryRunOne. unfold bind at 1. rewrite await_run, H.
  unfold tryCatch, bind at 1. rewrite existsSync_run.
  destruct (fs (world st) !! full) as [[data|]|] eqn:Hfile; cbn [negb].
  - unfold bind. rewrite readFile_run, Hfile.
    destruct (success _); [destruct (sr_content _)|].
    + eexists _, _. split; [reflexivity|]. simpl. apply sublist_nil_l.
    + eexists _, _. split; [reflexivity|]. done.
    + eexists _, _. split; [reflexivity|]. done.
  - unfold bind. rewrite readFile_run, Hfile.
    eexists _, _. split; [reflexivity|]. done.
  - eexists _, _. split; [reflexivity|]. done.
Qed.

Lemma dryRunLoop_resolves env appPath tags st :
  (exists issues, (dryRunLoop env appPath tags st).1 = Done issues)
  <-> Forall (fun tag => exists full, safeJoin env appPath (path tag) = Done full) tags.
Proof.
  revert st. induction tags as [|tag tags IH]; intros st; simpl.
  - split; [constructor|]. intros _. by exists [].
  - destruct (safeJoin env appPath (path tag)) as [full|e] eqn:Hjoin.
    + destruct (dryRunOne_accepted env appPath tag full st Hjoin)
        as (found & st1 & Hone & _).
      unfold bind at 1. rewrite Hone. unfold bind at 1.
      specialize (IH st1).
      destruct (dryRunLoop env appPath tags st1) as [[more|e] st2]; simpl in *.
      * split; [|by eexists]. intros _. constructor; [by eexists|].
        apply IH. by eexists.
      * split.
        -- by intros [issues ?].
        -- intros Hall. apply Forall_cons in Hall as [_ Hall].
           apply IH in Hall as [? ?]. done.
    + unfold bind at 1. rewrite (dryRunOne_refused env appPath tag e st Hjoin). simpl.
      split.
      * by intros [issues ?].
      * intros Hall. apply Forall_cons in Hall as [[full ?] _]. congruence.
Qed.

Lemma dryRunLoop_issues env appPath tags st issues :
  (dryRunLoop env appPath tags st).1 = Done issues ->
  sublist (issue_filePath <$> issues) (path <$> tags).
Proof.
  revert st issues. induction tags as [|tag tags IH]; intros st issues; simpl.
  - by intros [= <-].
  - destruct (safeJoin env appPath (path tag)) as [full|e] eqn:Hjoin.
    + destruct (dryRunOne_accepted env appPath tag full st Hjoin)
        as (found & st1 & Hone & Hsub).
      unfold bind at 1. rewrite Hone. unfold bind at 1.
      specialize (IH st1).
      destruct (dryRunLoop env appPath tags st1) as [[more|e] st2]; simpl in *; [|done].
      intros [= <-]. rewrite fmap_app.
      apply (sublist_app _ [path tag] _ (path <$> tags)); [done|by apply IH].
    + unfold bind at 1. by rewrite (dryRunOne_refused env appPath tag e st Hjoin).
Qed.

(** X13.  The dry run rejects exactly when [safeJoin] refuses the path of one of
    the tags; every other failure is reported as an issue.  When it resolves,
    the issues name paths of the tags, in the order of the tags and at most
    one per tag. *)
Theorem dryRunSearchReplace_resolves env fullResponse appPath st :
  let tags := getDyadSearchReplaceTags (normalizePath env) fullResponse in
  let run := dryRunSearchReplace env fullResponse appPath st in
  ((exists issues, run.1 = Done issues)
   <-> Forall (fun tag => exists full, safeJoin env appPath (path tag) = Done full) tags)
  /\
  (forall issues, run.1 = Done issues ->
     sublist (issue_filePath <$> issues) (path <$> tags)).
Proof.
  cbv zeta. unfold dryRunSearchReplace, getDyadSearchReplaceTags.
  destruct (getDyadSearchReplaceTags_logged _ _) as [tags ws]. simpl.
  rewrite (bind_run _ _ _ _ _ (log_all_run ws st)).
  split; [apply dryRunLoop_resolves|]. intros issues. apply dryRunLoop_issues.
Qed.

Lemma dryRunOne_cases env appPath tag full st :
  safeJoin env appPath (path tag) = Done full ->
  dryRunOne env appPath tag st
  = (Done
       match fs (world st) !! full with
       | None =>
           [ {| issue_filePath := path tag;
                issue_error := "Search-replace target file does not exist: "
                               +:+ path tag |} ]
       | Some Dir =>
           [ {| issue_filePath := path tag;
                issue_error := fsErrorFd "EISDIR" "read" |} ]
       | Some (File original) =>
           let result := applySearchReplace env original (content tag) in
           match success result, sr_content result with
           | true, Some _ => []
           | _, _ =>
               [ {| issue_filePath := path tag;
                    issue_error := "Unable to apply search-replace to file because: "
                                   +:+ show_opt (sr_error result) |} ]
           end
       end, st).
Proof.
  intros Hjoin. unfold dryRunOne.
  unfold bind at 1. rewrite await_run, Hjoin.
  unfold tryCatch, bind at 1. rewrite existsSync_run.
  destruct (fs (world st) !! full) as [[data|]|] eqn:Hfile; cbn [negb].
  - unfold bind. rewrite readFile_run, Hfile. cbv zeta.
    destruct (success _); [destruct (sr_content _)|]; reflexivity.
  - unfold bind. by rewrite readFile_run, Hfile.
  - reflexivity.
Qed.

Lemma searchReplaceOne_patched env app appPath tag full original patched st :
  safeJoin env appPath (path tag) = Done full ->
  fs (world st) !! full = Some (File original) ->
  success (applySearchReplace env original (content tag)) = true ->
  sr_content (applySearchReplace env original (content tag)) = Some patched ->
  exists o st',
    searchReplaceOne env app appPath tag st = (o, st') /\
    fs (world st') = <[full := File patched]> (fs (world st)) /\
    writtenFiles st' = (writtenFiles st ++ [path tag])%list.
Proof.
  intros Hjoin Hfile Hs Hc. unfold searchReplaceOne.
  unfold bind at 1. rewrite await_run, Hjoin.
  unfold tryCatch at 1. unfold bind at 1. rewrite existsSync_run, Hfile. cbn [negb].
  unfold bind at 1. rewrite readFile_run, Hfile. rewrite Hs, Hc.
  unfold bind at 1, writeFileSync, update_fs. rewrite Hfile.
  unfold bind at 1. rewrite modify_run.
  match goal with
  | |- context [when ?c ?m ?s] =>
      assert (respects (quiet 0) (when c m)) as Hq by quiet_tac;
      assert (respects sameFs (when c m)) as Hf by sameFs_tac;
      specialize (Hq s); specialize (Hf s);
      destruct (when c m s) as [[[]|e] st2]
  end; simpl in *; destruct Hq as (Hw & _);
    (eexists _, _; split; [reflexivity|]); simpl; by rewrite ?Hw, ?Hf.
Qed.

Lemma searchReplaceOne_failed env app appPath tag full st :
  safeJoin env appPath (path tag) = Done full ->
  match fs (world st) !! full with
  | Some (File original) =>
      success (applySearchReplace env original (content tag)) = false \/
      sr_content (applySearchReplace env original (content tag)) = None
  | _ => True
  end ->
  exists o st',
    searchReplaceOne env app appPath tag st = (o, st') /\
    fs (world st') = fs (world st) /\ writtenFiles st' = writtenFiles st.
Proof.
  intros Hjoin Hfail. unfold searchReplaceOne.
  unfold bind at 1. rewrite await_run, Hjoin.
  unfold tryCatch at 1. unfold bind at 1. rewrite existsSync_run.
  destruct (fs (world st) !! full) as [[data|]|] eqn:Hfile; cbn [negb].
  - unfold bind at 1. rewrite readFile_run, Hfile.
    destruct Hfail as [Hs|Hc].
    + rewrite Hs. by eexists _, _.
    + rewrite Hc. destruct (success _); by eexists _, _.
  - unfold bind at 1. rewrite readFile_run, Hfile. by eexists _, _.
  - by eexists _, _.
Qed.

(** X14.  The dry run of an action predicts the action: on the same state, it
    reports no issue exactly when the action itself patches the file and
    records it as written; when it reports an issue, the action leaves the
    file system as it is. *)
Theorem dryRun_predicts env app appPath tag full st :
  safeJoin env appPath (path tag) = Done full ->
  let dry := dryRunOne env appPath tag st in
  let real := searchReplaceOne env app appPath tag st in
  (dry.1 = Done [] <-> writtenFiles real.2 = (writtenFiles st ++ [path tag])%list) /\
  (dry.1 = Done [] ->
   exists original patched,
     fs (world st) !! full = Some (File original) /\
     sr_content (applySearchReplace env original (content tag)) = Some patched /\
     fs (world real.2) = <[full := File patched]> (fs (world st))) /\
  (dry.1 <> Done [] -> fs (world real.2) = fs (world st)).
Proof.
  intros Hjoin. cbv zeta.
  assert (forall l : list string, l <> (l ++ [path tag])%list) as Hneq.
  { intros l H. apply (f_equal length) in H. rewrite length_app in H. simpl in H. lia. }
  rewrite (dryRunOne_cases env appPath tag full st Hjoin). cbn [fst].
  pose proof (searchReplaceOne_failed env app appPath tag full st Hjoin) as Hfailed.
  destruct (fs (world st) !! full) as [[original|]|] eqn:Hfile.
  - cbv zeta in *.
    destruct (success _) eqn:Hs; [destruct (sr_content _) as [patched|] eqn:Hc|].
    + destruct (searchReplaceOne_patched env app appPath tag full original patched st
                  Hjoin Hfile Hs Hc) as (o & st' & -> & Hfs & Hw).
      split; [done|]. split; [|done]. intros _. by exists original, patched.
    + destruct Hfailed as (o & st' & -> & Hfs & Hw); [by right|]. cbn [snd].
      split; [|split]; [|done..]. rewrite Hw. split; [done|]. intros H. by apply Hneq in H.
    + destruct Hfailed as (o & st' & -> & Hfs & Hw); [by left|]. cbn [snd].
      split; [|split]; [|done..]. rewrite Hw. split; [done|]. intros H. by apply Hneq in H.
  - destruct Hfailed as (o & st' & -> & Hfs & Hw); [done|]. cbn [snd].
    split; [|split]; [|done..]. rewrite Hw. split; [done|]. intros H. by apply Hneq in H.
  - destruct Hfailed as (o & st' & -> & Hfs & Hw); [done|]. cbn [snd].
    split; [|split]; [|done..]. rewrite Hw. split; [done|]. intros H. by apply Hneq in H.
Qed.

(** ** What every invocation leaves behind *)

Global Instance sameUploads_preorder : PreOrder sameUploads.
Proof. split; [done|]. intros a b c Hab Hbc. unfold sameUploads in *. congruence. Qed.

Ltac sameUploads_prim := solve [run_prim; unfold sameUploads; simpl; reflexivity].

Ltac sameUploads_tac :=
  repeat first [respects_step | sameUploads_prim | progress unfold_stages].

(** X15.  Every invocation, however it ends, leaves the registry of pending uploads
    without an entry for its chat, and with the entries of the other chats as
    they were. *)
Theorem uploads_cleared env fullResponse chatId summary messageId w :
  fileUploads (world (processFullResponseActions env fullResponse chatId summary
                        messageId w).2)
  = delete chatId (fileUploads w).
Proof.
  assert (sameUploads (atTry w chatId)
            (processFullResponseActions env fullResponse chatId summary messageId w).2)
    as H; [|exact H].
  apply process_respects; [apply _|..].
  - intros app. sameUploads_tac.
  - intros app. unfold tryCatchBlock, tryBlock.
    destruct (getDyadWriteTags_logged _ _) as [writes ws].
    unfold runActions.
    destruct (getDyadSearchReplaceTags_logged _ _) as [srTags srWs].
    sameUploads_tac.
  - sameUploads_tac.
  - intros l st. reflexivity.
Qed.

Global Instance sameSql_preorder : PreOrder sameSql.
Proof. split; [done|]. intros a b c Hab Hbc. unfold sameSql in *. congruence. Qed.

Ltac sameSql_prim :=
  solve [run_prim; unfold sameSql, sqlCalls; simpl;
         rewrite ?List.filter_app; simpl; rewrite ?app_nil_r; reflexivity].

Ltac sameSql_tac :=
  repeat first [respects_step | sameSql_prim | progress unfold_stages].

(** X16.  When the app of the chat has no Supabase project, no SQL query is sent
    to Supabase, whatever [dyad-execute-sql] tags the response holds. *)
Theorem no_project_no_sql env fullResponse chatId summary messageId w :
  (forall app, chats w !! chatId = Some app -> truthy (supabaseProjectId app) = false) ->
  sqlCalls (processFullResponseActions env fullResponse chatId summary messageId w).2
  = List.filter isExecuteSql (supabaseLog w).
Proof.
  intros Happ.
  unfold processFullResponseActions.
  change (chats (push_log _ (set_fileUploads _ w)) !! chatId)
    with (chats w !! chatId).
  change (start (push_log _ (set_fileUploads _ w))) with (atTry w chatId).
  destruct (chats w !! chatId) as [app|] eqn:Hchat; [|reflexivity].
  specialize (Happ app eq_refl).
  assert (respects sameSql (neonStep env app)) as Hneon by sameSql_tac.
  specialize (Hneon (atTry w chatId)).
  destruct (neonStep env app (atTry w chatId)) as [[[]|e] st0]; [|exact Hneon].
  assert (respects sameSql
            (tryCatchBlock env fullResponse chatId summary messageId app
               (getDyadAppPath env (app_path app)) (fileUploads w !! chatId))) as Htry.
  { unfold tryCatchBlock, tryBlock. rewrite Happ.
    destruct (getDyadWriteTags_logged _ _) as [writes ws].
    unfold runActions.
    destruct (getDyadSearchReplaceTags_logged _ _) as [srTags srWs].
    change (sqlStage env app (getDyadAppPath env (app_path app)) []) with (@ret unit tt).
    sameSql_tac. }
  specialize (Htry st0).
  destruct (tryCatchBlock _ _ _ _ _ _ _ _ _) as [r st1].
  assert (respects sameSql (finallyBlock fullResponse messageId)) as Hfin by sameSql_tac.
  specialize (Hfin st1).
  destruct (finallyBlock fullResponse messageId st1) as [u st2].
  unfold sameSql, sqlCalls in *. simpl in *. congruence.
Qed.

(** ** The result and the marks on the message *)

Lemma onRaise_bind {A B} (R : relation St) `{!PreOrder R} (m : M A) (k : A -> M B) :
  respects R m -> (forall a, onRaise R (k a)) -> onRaise R (bind m k).
Proof.
  intros Hm Hk st e st'. unfold bind. specialize (Hm st).
  destruct (m st) as [[a|e'] s1]; simpl in *.
  - intros H. etrans; [exact Hm|]. by eapply Hk.
  - by intros [= <- <-].
Qed.

Lemma onRaise_bind_total {A B} (R : relation St) (m : M A) (k : A -> M B) :
  onRaise R m -> (forall a, total (k a)) -> onRaise R (bind m k).
Proof.
  intros Hm Hk st e st'. unfold bind.
  destruct (m st) as [[a|e'] s1] eqn:E.
  - intros H. destruct (Hk a s1) as [b Hb]. rewrite H in Hb. done.
  - intros [= <- <-]. by eapply Hm.
Qed.

Lemma onRaise_total {A} (R : relation St) (m : M A) : total m -> onRaise R m.
Proof. intros Ht st e st' H. destruct (Ht st) as [a Ha]. rewrite H in Ha. done. Qed.

Lemma onRaise_respects {A} (R : relation St) (m : M A) : respects R m -> onRaise R m.
Proof. intros Hm st e st' H. specialize (Hm st). by rewrite H in Hm. Qed.

Global Instance sameMarks_preorder id : PreOrder (sameMarks id).
Proof.
  split; [done|]. intros a b c [? ?] [? ?]. unfold sameMarks in *. split; congruence.
Qed.

Lemma approval_alter (f : Message -> Message) (i j : Z) (m : gmap Z Message) :
  (forall x, approvalState (f x) = approvalState x) ->
  approvalState <$> alter f i m !! j = approvalState <$> m !! j.
Proof.
  intros Hf. rewrite lookup_alter. case_decide; [subst|done].
  destruct (m !! j); simpl; [by rewrite Hf|done].
Qed.

Ltac sameMarks_prim :=
  solve [run_prim; unfold sameMarks, hashOf, approvalOf; simpl;
         split; first [done | by apply hash_alter | by apply approval_alter]].

Ltac sameMarks_tac :=
  repeat first [respects_step | sameMarks_prim | progress unfold_stages].

Lemma runActions_sameMarks env id fullResponse app appPath uploads messageId msg
    writes renames deletes packages queries :
  respects (sameMarks id)
    (runActions env fullResponse app appPath uploads messageId msg
       writes renames deletes packages queries).
Proof.
  unfold runActions.
  destruct (getDyadSearchReplaceTags_logged _ _) as [srTags srWs].
  sameMarks_tac.
Qed.

Ltac onRaise_tac tac :=
  repeat first
    [ solve [apply onRaise_total; unfold update_message; total_tac]
    | apply onRaise_bind; [apply _|solve [tac]|intros ?] ].

Lemma commitStage_onRaise env id appPath summary messageId packages queries :
  onRaise (sameMarks id) (commitStage env appPath summary messageId packages queries).
Proof.
  unfold commitStage.
  apply onRaise_bind; [apply _|sameMarks_tac|intros written].
  apply onRaise_bind; [apply _|sameMarks_tac|intros _].
  apply onRaise_bind; [apply _|sameMarks_tac|intros chs].
  apply onRaise_bind; [apply _|sameMarks_tac|intros h].
  apply onRaise_bind; [apply _|sameMarks_tac|intros _].
  apply onRaise_bind; [apply _|sameMarks_tac|intros files].
  apply onRaise_bind; [apply _|sameMarks_tac|intros [h1 err]].
  apply onRaise_total. unfold update_message. total_tac.
Qed.

Lemma commitAndApprove_onRaise env id appPath summary messageId packages queries :
  onRaise (sameMarks id)
    (commitAndApprove env appPath summary messageId packages queries).
Proof.
  unfold commitAndApprove.
  apply onRaise_bind; [apply _|sameMarks_tac|intros changed].
  apply onRaise_bind_total.
  - destruct changed; [apply commitStage_onRaise|apply onRaise_total; unfold update_message; total_tac].
  - intros [files err]. unfold update_message. total_tac.
Qed.

Lemma tryBlock_onRaise env id fullResponse chatId summary messageId app appPath uploads :
  onRaise (sameMarks id)
    (tryBlock env fullResponse chatId summary messageId app appPath uploads).
Proof.
  unfold tryBlock. destruct (getDyadWriteTags_logged _ _) as [writes ws].
  apply onRaise_bind; [apply _|sameMarks_tac|intros _].
  apply onRaise_bind; [apply _|sameMarks_tac|intros [msg|]].
  - apply onRaise_bind; [apply _|apply runActions_sameMarks|intros _].
    apply commitAndApprove_onRaise.
  - apply onRaise_total. unfold update_message. total_tac.
Qed.

Lemma commitAndApprove_done env appPath summary messageId packages queries st r st' :
  commitAndApprove env appPath summary messageId packages queries st = (Done r, st') ->
  res_error r = None /\
  (is_Some (messages (world st) !! messageId) ->
   exists m, messages (world st') !! messageId = Some m /\
             approvalState m = Some "approved").
Proof.
  unfold commitAndApprove. unfold bind at 1, gets.
  set (changed := hasChanges st packages).
  set (stage := if changed
                then commitStage env appPath summary messageId packages queries
                else ret ([], None)).
  assert (respects (keepsMessage messageId) stage) as Hkeep.
  { subst stage. destruct changed;
      repeat first [respects_step | keepsMessage_prim | progress unfold_stages]. }
  specialize (Hkeep st). unfold bind at 1.
  destruct (stage st) as [[[files err]|e] s1]; [|done].
  unfold bind, logger, modify, update_message, ret. simpl.
  intros [= <- <-]. split; [done|]. intros Hsome. simpl.
  destruct (Hkeep Hsome) as [m Hm]. simpl in Hm.
  exists (set_approvalState "approved" m). split; [|done].
  by rewrite lookup_alter_eq, Hm.
Qed.

Lemma tryBlock_done env fullResponse chatId summary messageId app appPath uploads
    st r st' :
  tryBlock env fullResponse chatId summary messageId app appPath uploads st
  = (Done r, st') ->
  res_error r = None /\
  (is_Some (updatedFiles r) ->
   exists m, messages (world st') !! messageId = Some m /\
             approvalState m = Some "approved").
Proof.
  unfold tryBlock. destruct (getDyadWriteTags_logged _ _) as [writes ws].
  rewrite (bind_run _ _ _ _ _ (log_all_run ws st)).
  unfold bind at 1, findMessage, gets.
  set (s0 := on_world (push_logs ws) st).
  destruct (messages (world s0) !! messageId) as [m0|] eqn:Hm0.
  2:{ unfold bind, logger, modify, ret. intros [= <- <-].
      split; [done|]. by intros [? ?]. }
  destruct (String.eqb (msg_role m0) "assistant" && (msg_chatId m0 =? chatId)%Z).
  2:{ unfold bind, logger, modify, ret. intros [= <- <-].
      split; [done|]. by intros [? ?]. }
  unfold bind at 1.
  pose proof (runActions_keepsMessage env messageId fullResponse app appPath uploads
                messageId m0 writes
                (getDyadRenameTags (normalizePath env) fullResponse)
                (getDyadDeleteTags (normalizePath env) fullResponse)
                (getDyadAddDependencyTags fullResponse)
                (if truthy (supabaseProjectId app)
                 then getDyadExecuteSqlTags fullResponse else []) s0) as Hkeep.
  destruct (runActions _ _ _ _ _ _ _ _ _ _ _ _ _) as [[[]|e] s2]; [|done].
  intros Hdone. apply commitAndApprove_done in Hdone as [Herr Happ].
  split; [done|]. intros _. apply Happ, Hkeep. by rewrite Hm0.
Qed.

(** X17.  An invocation that returns a result with its [error] field set has gone
    through the [catch] clause: the message is not approved and no commit
    hash is recorded on it, even when the failure came after the commit was
    made. *)
Theorem error_result_leaves_marks env fullResponse chatId summary messageId w r e :
  let run := processFullResponseActions env fullResponse chatId summary messageId w in
  run.1 = Done r -> res_error r = Some e ->
  commitHash <$> messages (world run.2) !! messageId
  = commitHash <$> messages w !! messageId /\
  approvalState <$> messages (world run.2) !! messageId
  = approvalState <$> messages w !! messageId.
Proof.
  cbv zeta. unfold processFullResponseActions.
  change (chats (push_log _ (set_fileUploads _ w)) !! chatId)
    with (chats w !! chatId).
  change (start (push_log _ (set_fileUploads _ w))) with (atTry w chatId).
  destruct (chats w !! chatId) as [app|]; [|by intros [= <-]].
  assert (respects (sameMarks messageId) (neonStep env app)) as Hneon by sameMarks_tac.
  specialize (Hneon (atTry w chatId)).
  destruct (neonStep env app (atTry w chatId)) as [[[]|e0] st0]; [|done].
  unfold tryCatchBlock, tryCatch.
  destruct (tryBlock _ _ _ _ _ _ _ _ st0) as [[r'|e'] st1] eqn:Htry.
  - apply tryBlock_done in Htry as [Hnone _].
    destruct (finallyBlock fullResponse messageId st1) as [u st2].
    simpl. intros [= <-]. congruence.
  - apply (tryBlock_onRaise env messageId) in Htry.
    assert (respects (sameMarks messageId) (catchClause e')) as Hcatch by sameMarks_tac.
    specialize (Hcatch st1).
    destruct (catchClause e' st1) as [r1 st1'].
    assert (respects (sameMarks messageId) (finallyBlock fullResponse messageId)) as Hfin
      by sameMarks_tac.
    specialize (Hfin st1').
    destruct (finallyBlock fullResponse messageId st1') as [u st2].
    simpl in *. intros _ _.
    assert (sameMarks messageId (atTry w chatId) st2) as [Hh Ha].
    { etrans; [exact Hneon|]. etrans; [exact Htry|]. by etrans. }
    split; [exact Hh|exact Ha].
Qed.

(** X18.  An invocation that returns a result with [updatedFiles] set has run the
    whole [try] block: the result has no [error] field, and the message is
    stored with the approval state [approved]. *)
Theorem normal_result_is_approved env fullResponse chatId summary messageId w r :
  let run := processFullResponseActions env fullResponse chatId summary messageId w in
  run.1 = Done r -> is_Some (updatedFiles r) ->
  res_error r = None /\
  exists m, messages (world run.2) !! messageId = Some m /\
            approvalState m = Some "approved".
Proof.
  cbv zeta. unfold processFullResponseActions.
  change (chats (push_log _ (set_fileUploads _ w)) !! chatId)
    with (chats w !! chatId).
  change (start (push_log _ (set_fileUploads _ w))) with (atTry w chatId).
  destruct (chats w !! chatId) as [app|]; [|by intros [= <-] [? ?]].
  destruct (neonStep env app (atTry w chatId)) as [[[]|e0] st0]; [|done].
  unfold tryCatchBlock, tryCatch.
  destruct (tryBlock _ _ _ _ _ _ _ _ st0) as [[r'|e'] st1] eqn:Htry.
  - apply tryBlock_done in Htry as [Hnone Happ].
    rewrite finallyBlock_run. simpl. intros [= <-] Hup.
    split; [done|]. destruct (Happ Hup) as (m & Hm & Ha).
    eexists. rewrite lookup_alter_eq, Hm. simpl. split; [reflexivity|]. exact Ha.
  - unfold catchClause, bind, logger, modify, ret. rewrite finallyBlock_run. simpl.
    intros [= <-] [? ?]. done.
Qed.

Lemma supabaseLog_push_logs l w : supabaseLog (push_logs l w) = supabaseLog w.
Proof. revert w. induction l as [|e l IH]; intros w; [done|]. simpl. by rewrite IH. Qed.

(** X19.  When the row with the message id is missing, or is not a message of the
    assistant in this chat, the invocation resolves to an empty result
    without executing any action.  The [finally] block still runs, and it
    selects by id alone: a row with that id has its content replaced by the
    response and the (empty) annotation block all the same. *)
Theorem message_not_found env fullResponse chatId summary messageId w app :
  entersTry env w chatId app ->
  (forall m, messages w !! messageId = Some m ->
     msg_role m <> "assistant" \/ msg_chatId m <> chatId) ->
  let run := processFullResponseActions env fullResponse chatId summary messageId w in
  run.1 = Done emptyResult /\
  fs (world run.2) = fs w /\
  gitLog (world run.2) = gitLog w /\
  supabaseLog (world run.2) = supabaseLog w /\
  installCalls (world run.2) = installCalls w /\
  messages (world run.2)
  = alter (set_content (fullResponse +:+ str1 newline +:+ str1 newline
                        +:+ appendedContent [] []))
      messageId (messages w).
Proof.
  intros Henter Hmsg. cbv zeta. rewrite (process_enters _ _ _ _ _ _ _ Henter). cbv zeta.
  assert (tryCatchBlock env fullResponse chatId summary messageId app
            (getDyadAppPath env (app_path app)) (fileUploads w !! chatId)
            (atTry w chatId)
          = (Done emptyResult,
             on_world
               (push_log {| level := LError;
                            text := "No message found for ID: " +:+ pretty messageId |})
               (atActions env fullResponse w chatId))) as ->.
  { unfold tryCatchBlock, tryBlock, atActions.
    destruct (getDyadWriteTags_logged (normalizePath env) fullResponse) as [writes ws].
    unfold tryCatch. rewrite (bind_run _ _ _ _ _ (log_all_run ws (atTry w chatId))).
    unfold bind at 1, findMessage, gets.
    assert (messages (world (on_world (push_logs ws) (atTry w chatId))) = messages w)
      as -> by (simpl; by rewrite messages_push_logs).
    destruct (messages w !! messageId) as [m|] eqn:Hm; [|reflexivity].
    destruct (Hmsg m eq_refl) as [Hrole|Hchat].
    - apply String.eqb_neq in Hrole. by rewrite Hrole.
    - apply Z.eqb_neq in Hchat. rewrite Hchat. by rewrite andb_false_r. }
  rewrite finallyBlock_run. unfold atActions. simpl.
  by rewrite fs_push_logs, gitLog_push_logs, supabaseLog_push_logs,
    installCalls_push_logs, messages_push_logs.
Qed.

(** ** A failing install *)

(** A package list that makes no regular expression: the packages have been
    installed by the time [new RegExp] throws, and the stored message is left
    as it was. *)
Lemma executeAddDependency_bad_pattern env packages messageId msg appPath st out m e :
  execPromise env (installCommand packages) appPath (fs (world st)) = (Done out, m) ->
  (forall pattern replacement,
     regexReplace env pattern replacement (msg_content msg) = Raise e) ->
  exists st',
    executeAddDependency env packages messageId msg appPath st = (Raise e, st') /\
    installCalls (world st') = (installCalls (world st) ++ [packages])%list /\
    fs (world st') = m /\
    messages (world st') = messages (world st).
Proof.
  intros Hexec Hbad. unfold executeAddDependency.
  unfold bind at 1. rewrite modify_run.
  unfold bind at 1, do_execPromise. simpl.
  fold (installCommand packages). rewrite Hexec. destruct out as [stdout stderr].
  unfold bind, await. rewrite Hbad.
  eexists. split; [reflexivity|]. done.
Qed.

Lemma existsSync_decide p st :
  existsSync p st = (Done (bool_decide (is_Some (fs (world st) !! p))), st).
Proof. rewrite existsSync_run. by destruct (fs (world st) !! p). Qed.

(** X20.  When the install command fails, the dependency step still ends normally:
    the failure is recorded as one error for the user, the content of the
    message is left as it was, and [package.json] and the lock files that
    exist are recorded as written all the same, so that the invocation goes
    on to commit. *)
Theorem install_failure_is_recorded
    env messageId msg appPath packages st e files pnpmPath lockPath :
  packages <> [] ->
  execPromise env (installCommand packages) appPath (fs (world st)) = (Raise e, files) ->
  safeJoin env appPath "pnpm-lock.yaml" = Done pnpmPath ->
  safeJoin env appPath "package-lock.json" = Done lockPath ->
  exists st',
    dependencyStage env messageId msg appPath packages st = (Done tt, st') /\
    errors st'
    = (errors st
       ++ [ {| message := "Failed to add dependencies: " +:+ join ", " packages;
               error := e |} ])%list /\
    messages (world st') = messages (world st) /\
    writtenFiles st'
    = (writtenFiles st ++ "package.json" :: lockFiles files pnpmPath lockPath)%list /\
    hasChanges st' packages = true.
Proof.
  intros Hne Hexec Hpnpm Hlock. unfold dependencyStage.
  destruct packages as [|p packages]; [done|]. cbn [length Nat.eqb negb when].
  unfold bind at 1. unfold tryCatch at 1, executeAddDependency.
  unfold bind at 1. rewrite modify_run.
  unfold bind at 1, do_execPromise at 1.
  change (fs (world (on_world (push_install (p :: packages)) st))) with (fs (world st)).
  fold (installCommand (p :: packages)). rewrite Hexec.
  rewrite modify_run.
  unfold bind at 1. rewrite modify_run.
  unfold bind at 1. rewrite await_run, Hpnpm.
  unfold bind at 1. rewrite existsSync_decide.
  unfold bind at 1.
  set (s1 := push_written "package.json" _).
  assert (fs (world s1) = files) as Hfs1 by reflexivity.
  rewrite Hfs1. unfold lockFiles.
  destruct (bool_decide (is_Some (files !! pnpmPath))); cbn [when].
  - rewrite modify_run.
    unfold bind at 1. rewrite await_run, Hlock.
    unfold bind at 1. rewrite existsSync_decide.
    set (s2 := push_written "pnpm-lock.yaml" s1).
    assert (fs (world s2) = files) as -> by reflexivity.
    destruct (bool_decide (is_Some (files !! lockPath))); cbn [when].
    + rewrite modify_run. eexists. split; [reflexivity|]. simpl.
      repeat split;
        first [by rewrite <- ?app_assoc
              |unfold hasChanges; simpl; by rewrite ?orb_true_r].
    + eexists. split; [reflexivity|]. simpl.
      repeat split;
        first [by rewrite <- ?app_assoc
              |unfold hasChanges; simpl; by rewrite ?orb_true_r].
  - unfold ret at 1.
    unfold bind at 1. rewrite await_run, Hlock.
    unfold bind at 1. rewrite existsSync_decide.
    assert (fs (world s1) = files) as -> by reflexivity.
    destruct (bool_decide (is_Some (files !! lockPath))); cbn [when].
    + rewrite modify_run. eexists. split; [reflexivity|]. simpl.
      repeat split;
        first [by rewrite <- ?app_assoc
              |unfold hasChanges; simpl; by rewrite ?orb_true_r].
    + eexists. split; [reflexivity|]. simpl.
      repeat split;
        first [by rewrite <- ?app_assoc
              |unfold hasChanges; simpl; by rewrite ?orb_true_r].
Qed.

(** X21.  The package list of a tag goes into the command line as it is written in
    the attribute: splitting it at the spaces and joining the names with
    spaces gives the attribute back, character for character. *)
Theorem install_command_verbatim packages body :
  nonempty packages = true ->
  has_char dquote packages = false ->
  has_char "<" body = false ->
  installCommand (getDyadAddDependencyTags (dependencyTagText packages body))
  = "(pnpm add " +:+ packages +:+ ") || (npm install --legacy-peer-deps "
    +:+ packages +:+ ")".
Proof.
  intros Hne Hq Hbody.
  assert (getDyadAddDependencyTags (dependencyTagText packages body)
          = split space packages) as ->.
  { rewrite <- (append_nil_r (dependencyTagText packages body)).
    change (dependencyTagText packages body +:+ EmptyString)
      with (render dependencyTagText [Tagged packages body]).
    rewrite getDyadAddDependencyTags_render.
    - simpl. by rewrite app_nil_r.
    - simpl. by rewrite Hne, Hq, Hbody. }
  unfold installCommand.
  change (join " " (split space packages)) with (join (str1 space) (split space packages)).
  by rewrite join_split.
Qed.

(** ** File actions on what is not there, and on directories *)

Lemma lookup_dirs (l : list string) (m : gmap string node) k :
  foldr (fun q acc => <[q := Dir]> acc) m l !! k
  = if bool_decide (k ∈ l) then Some Dir else m !! k.
Proof.
  induction l as [|q l IH]; simpl; [done|].
  destruct (decide (k = q)) as [->|Hne].
  - rewrite lookup_insert_eq. by rewrite bool_decide_eq_true_2 by (apply elem_of_cons; by left).
  - rewrite lookup_insert_ne by done. rewrite IH.
    destruct (decide (k ∈ l)) as [Hin|Hout].
    + rewrite (bool_decide_eq_true_2 _ Hin).
      by rewrite bool_decide_eq_true_2 by (apply elem_of_cons; by right).
    + rewrite (bool_decide_eq_false_2 _ Hout).
      rewrite bool_decide_eq_false_2; [done|].
      intros [?|?]%elem_of_cons; done.
Qed.

Lemma mkdirp_lookup_ne p m k :
  k ∉ p :: ancestors p -> mkdirp p m !! k = m !! k.
Proof.
  intros Hout. unfold mkdirp, withDirs. destruct (m !! p); [done|].
  rewrite lookup_dirs. by rewrite bool_decide_eq_false_2.
Qed.

Lemma mkdirSync_run p st :
  canMkdir p (fs (world st)) = true ->
  mkdirSync_recursive p st
  = (Done tt, on_world (set_fs (mkdirp p (fs (world st)))) st).
Proof.
  unfold canMkdir, mkdirSync_recursive, update_fs, mkdirp.
  destruct (fs (world st) !! p) as [[data|]|]; [done|done|].
  by destruct (blocked p (fs (world st))).
Qed.

Lemma mkdirSync_blocked p st :
  canMkdir p (fs (world st)) = false ->
  exists e, mkdirSync_recursive p st = (Raise e, st).
Proof.
  unfold canMkdir, mkdirSync_recursive, update_fs.
  destruct (fs (world st) !! p) as [[data|]|]; [by eexists|done|].
  destruct (blocked p (fs (world st))); [by eexists|done].
Qed.

(** X22.  A rename whose source does not exist renames nothing and calls git for
    nothing; but the directory of its target, with the directories above it,
    has been created by then.  Where that directory cannot be created, a
    regular file being in its place or above it, the action throws before
    it has looked for the source, and changes nothing.  The source is taken
    not to be one of the directories that are created. *)
Theorem rename_without_source env app appPath tag fullFrom fullTo st :
  let dir := path_dirname env fullTo in
  safeJoin env appPath (from tag) = Done fullFrom ->
  safeJoin env appPath (to tag) = Done fullTo ->
  fs (world st) !! fullFrom = None ->
  fullFrom ∉ dir :: ancestors dir ->
  (canMkdir dir (fs (world st)) = true ->
   exists st',
     renameStage env app appPath [tag] st = (Done tt, st') /\
     fs (world st') = mkdirp dir (fs (world st)) /\
     renamedFiles st' = renamedFiles st /\
     gitLog (world st') = gitLog (world st)) /\
  (canMkdir dir (fs (world st)) = false ->
   exists e, renameStage env app appPath [tag] st = (Raise e, st)).
Proof.
  intros dir Hfrom Hto Hnone Hout. split.
  - intros Hcan. unfold renameStage. rewrite forEach_single.
    unfold bind at 1. rewrite await_run, Hfrom.
    unfold bind at 1. rewrite await_run, Hto.
    unfold bind at 1. fold dir. rewrite (mkdirSync_run dir st Hcan).
    set (s1 := on_world (set_fs (mkdirp dir (fs (world st)))) st).
    assert (fs (world s1) !! fullFrom = None) as Hnone1.
    { subst s1. simpl. by rewrite mkdirp_lookup_ne. }
    unfold bind at 1. rewrite existsSync_run, Hnone1.
    unfold bind at 1. rewrite logger_run.
    run_tail. destruct Hq as (_ & Hren & _ & Hgit & _).
    eexists. split; [reflexivity|]. unfold sameFs in Hfs. simpl in *.
    by rewrite Hfs, Hren, Hgit.
  - intros Hcan. destruct (mkdirSync_blocked dir st Hcan) as [e He].
    exists e. unfold renameStage. rewrite forEach_single.
    unfold bind at 1. rewrite await_run, Hfrom.
    unfold bind at 1. rewrite await_run, Hto.
    unfold bind at 1. fold dir. by rewrite He.
Qed.

Global Instance sameDeleted_preorder : PreOrder sameDeleted.
Proof. split; [done|]. intros a b c Hab Hbc. unfold sameDeleted in *. congruence. Qed.

Ltac sameDeleted_prim := solve [run_prim; unfold sameDeleted; simpl; reflexivity].

Ltac sameDeleted_tac :=
  repeat first [respects_step | sameDeleted_prim | progress unfold_stages].

(** Run the next guarded call: it ends normally, in a state related by [R]. *)
Ltac run_guarded_by R tac :=
  match goal with
  | |- context [tryCatch ?m ?h ?s] =>
      let H := fresh in
      assert (total (tryCatch m h)) as H by total_tac;
      let H' := fresh in
      assert (respects R (tryCatch m h)) as H' by tac;
      let Hrel := fresh "Hrel" in
      destruct (total_respects_run R (tryCatch m h) s H H') as ([] & ? & -> & Hrel);
      clear H H'
  end.

(** X23.  A delete tag that names a directory removes the directory with all it
    holds, and nothing else; the path of the tag is recorded as deleted. *)
Theorem delete_directory env app appPath p full st :
  safeJoin env appPath p = Done full ->
  fs (world st) !! full = Some Dir ->
  exists st',
    deleteStage env app appPath [p] st = (Done tt, st') /\
    (forall k,
       fs (world st') !! k
       = if String.eqb k full || under full k then None else fs (world st) !! k) /\
    deletedFiles st' = (deletedFiles st ++ [p])%list.
Proof.
  intros Hjoin Hdir. unfold deleteStage. rewrite forEach_single.
  unfold bind at 1. rewrite await_run, Hjoin.
  unfold bind at 1. rewrite existsSync_run, Hdir.
  unfold bind at 1. unfold bind at 1, lstat_isDirectory. rewrite Hdir.
  unfold bind at 1, rmdirSync_recursive, update_fs. rewrite Hdir.
  fold (withoutTree full (fs (world st))).
  unfold bind at 1. rewrite logger_run.
  unfold bind at 1. rewrite modify_run.
  run_guarded_by (fun a b => sameFs a b /\ sameDeleted a b)
    ltac:(apply respects_both; [sameFs_tac|sameDeleted_tac]).
  destruct Hrel as [Hfs Hdel]. unfold sameFs, sameDeleted in *. simpl in *.
  unfold when. destruct (isServerFunction env p).
  - run_guarded_by (fun a b => sameFs a b /\ sameDeleted a b)
      ltac:(apply respects_both; [sameFs_tac|sameDeleted_tac]).
    destruct Hrel as [Hfs' Hdel']. unfold sameFs, sameDeleted in *.
    eexists. split; [reflexivity|]. rewrite Hfs', Hfs, Hdel', Hdel.
    split; [|done]. intros k. apply withoutTree_lookup.
  - eexists. split; [reflexivity|]. simpl. rewrite Hfs, Hdel.
    split; [|done]. intros k. apply withoutTree_lookup.
Qed.

(** ** Pending uploads *)

Global Instance sameReports_preorder : PreOrder sameReports.
Proof.
  split; [done|]. intros a b c (?&?&?) (?&?&?). unfold sameReports. repeat split; congruence.
Qed.

Global Instance keepsError_preorder o : PreOrder (keepsError o).
Proof. split; [intros a Ha; exact Ha|]. intros a b c Hab Hbc Ha. auto. Qed.

Ltac keepsError_prim :=
  solve [run_prim; unfold keepsError; simpl; try done;
         intros; apply elem_of_app; by left].

Ltac keepsError_tac :=
  repeat first [respects_step | keepsError_prim | progress unfold_stages].

(** X24.  A write tag whose trimmed body is the id of a pending upload writes the
    content of the uploaded file instead of its body.  What is written is
    then not text, so nothing is deployed to Supabase, even at the path of a
    server function. *)
Theorem upload_replaces_body env app appPath uploads tag full info data st :
  safeJoin env appPath (path tag) = Done full ->
  uploads !! trim (content tag) = Some info ->
  fs (world st) !! filePath info = Some (File data) ->
  kindOf (fs (world st) !! full) <> Some true ->
  fs (world st) !! path_dirname env full = Some Dir ->
  exists st',
    writeStage env app appPath (Some uploads) [tag] st = (Done tt, st') /\
    fs (world st') = <[full := File data]> (fs (world st)) /\
    writtenFiles st' = (writtenFiles st ++ [path tag])%list /\
    sameReports st st'.
Proof.
  intros Hjoin Hup Hfile Hkind Hdir. unfold writeStage. rewrite forEach_single.
  unfold bind at 1. rewrite await_run, Hjoin.
  unfold bind at 1, resolveContent. rewrite Hup.
  unfold tryCatch at 1. unfold bind at 1. rewrite readFile_run, Hfile.
  unfold bind at 1. rewrite logger_run. unfold ret at 1.
  unfold bind at 1, mkdirSync_recursive, update_fs.
  set (s1 := on_world (push_log _) st).
  change (fs (world s1)) with (fs (world st)). rewrite Hdir.
  assert (on_world (set_fs (fs (world st))) s1 = s1) as -> by by destruct st as [[]].
  unfold bind at 1, writeFileSync, update_fs.
  change (fs (world s1)) with (fs (world st)).
  assert (match fs (world st) !! full with
          | Some Dir => Raise (fsError "EISDIR" "open" full)
          | _ => Done (<[full:=File data]> (fs (world st)))
          end = Done (<[full:=File data]> (fs (world st)))) as ->.
  { by destruct (fs (world st) !! full) as [[]|]. }
  unfold bind at 1. rewrite logger_run.
  unfold bind at 1. rewrite modify_run.
  rewrite andb_false_r. cbn [when].
  eexists. split; [reflexivity|]. by repeat split.
Qed.

(** X25.  When the uploaded file cannot be read, the id itself is written as the
    content of the file, and the failure is recorded as an error for the
    user. *)
Theorem unreadable_upload_writes_id env app appPath uploads tag full info st :
  safeJoin env appPath (path tag) = Done full ->
  uploads !! trim (content tag) = Some info ->
  fs (world st) !! filePath info = None ->
  kindOf (fs (world st) !! full) <> Some true ->
  fs (world st) !! path_dirname env full = Some Dir ->
  exists st',
    writeStage env app appPath (Some uploads) [tag] st = (Done tt, st') /\
    fs (world st') = <[full := File (content tag)]> (fs (world st)) /\
    {| message := "Failed to read uploaded file: " +:+ originalName info;
       error := fsError "ENOENT" "open" (filePath info) |} ∈ errors st'.
Proof.
  intros Hjoin Hup Hfile Hkind Hdir. unfold writeStage. rewrite forEach_single.
  unfold bind at 1. rewrite await_run, Hjoin.
  unfold bind at 1, resolveContent. rewrite Hup.
  unfold tryCatch at 1. unfold bind at 1. rewrite readFile_run, Hfile.
  unfold bind at 1. rewrite logger_run.
  unfold bind at 1. rewrite modify_run. unfold ret at 1.
  unfold bind at 1, mkdirSync_recursive, update_fs.
  set (s1 := push_error _ _).
  change (fs (world s1)) with (fs (world st)). rewrite Hdir.
  assert (on_world (set_fs (fs (world st))) s1 = s1) as -> by by destruct st as [[]].
  unfold bind at 1, writeFileSync, update_fs.
  change (fs (world s1)) with (fs (world st)).
  assert (match fs (world st) !! full with
          | Some Dir => Raise (fsError "EISDIR" "open" full)
          | _ => Done (<[full:=File (content tag)]> (fs (world st)))
          end = Done (<[full:=File (content tag)]> (fs (world st)))) as ->.
  { by destruct (fs (world st) !! full) as [[]|]. }
  unfold bind at 1. rewrite logger_run.
  unfold bind at 1. rewrite modify_run.
  set (o := {| message := "Failed to read uploaded file: " +:+ originalName info;
               error := fsError "ENOENT" "open" (filePath info) |}).
  match goal with
  | |- context [when ?c ?m ?s] =>
      assert (total (when c m)) as Ht by total_tac;
      assert (respects (fun a b => sameFs a b /\ keepsError o a b) (when c m)) as Hr
        by (apply respects_both; [sameFs_tac|keepsError_tac]);
      destruct (total_respects_run _ (when c m) s Ht Hr) as ([] & ? & -> & Hfs & Herr)
  end.
  eexists. split; [reflexivity|]. unfold sameFs in Hfs. simpl in Hfs.
  split; [exact Hfs|]. apply Herr. simpl. apply elem_of_app. right. by left.
Qed.

(** ** The commits of an invocation *)

Global Instance sameCommits_preorder : PreOrder sameCommits.
Proof. split; [done|]. intros a b c Hab Hbc. unfold sameCommits in *. congruence. Qed.

Ltac sameCommits_prim :=
  solve [run_prim; unfold sameCommits, commits; simpl;
         rewrite ?List.filter_app; simpl; rewrite ?app_nil_r; reflexivity].

Ltac sameCommits_tac :=
  repeat first [respects_step | sameCommits_prim | progress unfold_stages].

Lemma runActions_sameCommits env fullResponse app appPath uploads messageId msg
    writes renames deletes packages queries :
  respects sameCommits
    (runActions env fullResponse app appPath uploads messageId msg
       writes renames deletes packages queries).
Proof.
  unfold runActions.
  destruct (getDyadSearchReplaceTags_logged _ _) as [srTags srWs].
  sameCommits_tac.
Qed.

Lemma commitStage_commits env appPath summary messageId packages queries st :
  exists l,
    addsCommits l st (commitStage env appPath summary messageId packages queries st).2 /\
    commitShape l.
Proof.
  unfold commitStage. unfold bind at 1, gets.
  assert (respects sameCommits
            (forEach (writtenFiles st) (fun file => do_gitAdd env appPath file))) as Hadd
    by sameCommits_tac.
  specialize (Hadd st). unfold bind at 1.
  destruct (forEach _ _ st) as [[[]|e] s1]; simpl in Hadd.
  2:{ exists []. split; [|by left]. unfold addsCommits. simpl. by rewrite app_nil_r. }
  unfold sameCommits in Hadd.
  set (msg := commitMessage summary (changes s1 packages queries)).
  cbv [bind gets do_gitCommit do_gitAddAll tryCatch modify ask logger
       update_message ret].
  repeat (case_match; simpl in *; simplify_eq);
    unfold addsCommits, commits; simpl;
    rewrite ?List.filter_app; simpl; rewrite ?app_nil_r;
    fold (commits s1); rewrite Hadd.
  all: first
    [ exists [GitCommit appPath msg false;
              GitCommit appPath (msg +:+ " + extra files edited outside of Dyad") true];
      split; [by rewrite <- ?app_assoc|right; right; by eexists _, _]
    | exists [GitCommit appPath msg false];
      split; [by rewrite <- ?app_assoc|right; left; by eexists _, _] ].
Qed.

Lemma addsCommits_nil a b : sameCommits a b -> addsCommits [] a b.
Proof. unfold sameCommits, addsCommits. intros ->. by rewrite app_nil_r. Qed.

Lemma same_then_addsCommits l a b c :
  sameCommits a b -> addsCommits l b c -> addsCommits l a c.
Proof. unfold sameCommits, addsCommits. congruence. Qed.

Lemma addsCommits_then_same l a b c :
  addsCommits l a b -> sameCommits b c -> addsCommits l a c.
Proof. unfold sameCommits, addsCommits. congruence. Qed.

Lemma commitAndApprove_commits env appPath summary messageId packages queries st :
  exists l,
    addsCommits l st
      (commitAndApprove env appPath summary messageId packages queries st).2 /\
    commitShape l.
Proof.
  unfold commitAndApprove. unfold bind at 1, gets.
  destruct (hasChanges st packages).
  - destruct (commitStage_commits env appPath summary messageId packages queries st)
      as (l & Hl & Hshape).
    exists l. split; [|done]. unfold bind at 1.
    destruct (commitStage _ _ _ _ _ _ st) as [[[files err]|e] s1]; [|exact Hl].
    eapply addsCommits_then_same; [exact Hl|].
    assert (respects sameCommits
              (logger LInfo ("mark as approved: hasChanges " +:+ "true");;
               update_message messageId (set_approvalState "approved");;
               ret {| updatedFiles := Some true; res_error := None;
                      extraFiles := if negb (length files =? 0)%nat
                                    then Some files else None;
                      extraFilesError := err |})) as H by sameCommits_tac.
    apply H.
  - exists []. split; [|by left]. apply addsCommits_nil.
    assert (respects sameCommits
              (let* (uncommittedFiles, extraFilesError) := ret ([], None) in
               logger LInfo ("mark as approved: hasChanges " +:+ "false");;
               update_message messageId (set_approvalState "approved");;
               ret {| updatedFiles := Some false; res_error := None;
                      extraFiles := if negb (length uncommittedFiles =? 0)%nat
                                    then Some uncommittedFiles else None;
                      extraFilesError := extraFilesError |})) as H by sameCommits_tac.
    apply H.
Qed.

Lemma tryCatchBlock_commits env fullResponse chatId summary messageId app appPath
    uploads st :
  exists l,
    addsCommits l st
      (tryCatchBlock env fullResponse chatId summary messageId app appPath uploads st).2 /\
    commitShape l.
Proof.
  unfold tryCatchBlock, tryCatch, tryBlock.
  destruct (getDyadWriteTags_logged _ _) as [writes ws].
  rewrite (bind_run _ _ _ _ _ (log_all_run ws st)).
  set (s0 := on_world (push_logs ws) st).
  assert (sameCommits st s0) as H0.
  { assert (respects sameCommits (log_all ws)) as H by sameCommits_tac.
    specialize (H st). by rewrite log_all_run in H. }
  unfold bind at 1, findMessage at 1, gets at 1.
  assert (forall e s, sameCommits s (catchClause e s).2) as Hcatch.
  { intros e. change (respects sameCommits (catchClause e)). sameCommits_tac. }
  destruct (match messages (world s0) !! messageId with
            | Some m =>
                if String.eqb (msg_role m) "assistant" && (msg_chatId m =? chatId)%Z
                then Some m else None
            | None => None
            end) as [msg|].
  - unfold bind at 1.
    pose proof (runActions_sameCommits env fullResponse app appPath uploads messageId
                  msg writes
                  (getDyadRenameTags (normalizePath env) fullResponse)
                  (getDyadDeleteTags (normalizePath env) fullResponse)
                  (getDyadAddDependencyTags fullResponse)
                  (if truthy (supabaseProjectId app)
                   then getDyadExecuteSqlTags fullResponse else []) s0) as Hrun.
    destruct (runActions _ _ _ _ _ _ _ _ _ _ _ _ _) as [[[]|e] s2]; simpl in Hrun.
    + destruct (commitAndApprove_commits env appPath summary messageId
                  (getDyadAddDependencyTags fullResponse)
                  (if truthy (supabaseProjectId app)
                   then getDyadExecuteSqlTags fullResponse else []) s2)
        as (l & Hl & Hshape).
      exists l. split; [|done].
      apply (same_then_addsCommits l st s2); [by etrans|].
      destruct (commitAndApprove _ _ _ _ _ _ s2) as [[r|e] s3]; [exact Hl|].
      eapply addsCommits_then_same; [exact Hl|]. apply Hcatch.
    + exists []. split; [|by left]. apply addsCommits_nil.
      etrans; [exact H0|]. etrans; [exact Hrun|]. apply Hcatch.
  - exists []. split; [|by left]. apply addsCommits_nil.
    etrans; [exact H0|].
    assert (respects sameCommits
              (logger LError ("No message found for ID: " +:+ pretty messageId);;
               ret emptyResult)) as H by sameCommits_tac.
    specialize (H s0).
    destruct ((logger _ _;; ret emptyResult) s0) as [[r|e] s1]; [exact H|].
    etrans; [exact H|]. apply Hcatch.
Qed.

(** X26.  An invocation asks git for at most two commits: none, or the commit of
    the changes, or that commit followed by its amendment with the files
    edited outside.  No commit is ever amended that the invocation has not
    made itself. *)
Theorem at_most_two_commits env fullResponse chatId summary messageId w :
  exists l,
    commits (processFullResponseActions env fullResponse chatId summary messageId w).2
    = (List.filter isCommit (gitLog w) ++ l)%list /\
    commitShape l.
Proof.
  unfold processFullResponseActions.
  change (chats (push_log _ (set_fileUploads _ w)) !! chatId)
    with (chats w !! chatId).
  change (start (push_log _ (set_fileUploads _ w))) with (atTry w chatId).
  destruct (chats w !! chatId) as [app|].
  2:{ exists []. split; [|by left]. unfold commits. simpl. by rewrite app_nil_r. }
  assert (respects sameCommits (neonStep env app)) as Hneon by sameCommits_tac.
  specialize (Hneon (atTry w chatId)).
  destruct (neonStep env app (atTry w chatId)) as [[[]|e] st0].
  2:{ exists []. split; [|by left]. simpl in *. rewrite Hneon.
      unfold commits. simpl. by rewrite app_nil_r. }
  destruct (tryCatchBlock_commits env fullResponse chatId summary messageId app
              (getDyadAppPath env (app_path app)) (fileUploads w !! chatId) st0)
    as (l & Hl & Hshape).
  exists l. split; [|done].
  destruct (tryCatchBlock _ _ _ _ _ _ _ _ _) as [r st1].
  assert (respects sameCommits (finallyBlock fullResponse messageId)) as Hfin
    by sameCommits_tac.
  specialize (Hfin st1).
  destruct (finallyBlock fullResponse messageId st1) as [u st2].
  simpl in *. unfold sameCommits, addsCommits in *. rewrite Hfin, Hl, Hneon.
  reflexivity.
Qed.

(** ** The type-check caller: settling *)

Section Settling.

Context {ProblemReport : Type}.

Implicit Types (c : Caller ProblemReport) (ev : WorkerEvent ProblemReport).

Lemma handle_settled c ev :
  promise c <> Pending -> promise (handle c ev) = promise c.
Proof.
  intros Hc. destruct ev as [output|e|code|ms]; simpl.
  - destruct (wo_success _ output), (wo_data _ output); simpl; by destruct (promise c).
  - by destruct (promise c).
  - destruct (code =? 0)%Z; [done|]. simpl. by destruct (promise c).
  - done.
Qed.

Lemma handle_terminated c ev :
  terminated c = true -> terminated (handle c ev) = true.
Proof.
  intros Hc. destruct ev as [output|e|code|ms]; simpl; try done.
  - by destruct (wo_success _ output), (wo_data _ output).
  - by destruct (code =? 0)%Z.
Qed.

Lemma handle_posted c ev : posted (handle c ev) = posted c.
Proof.
  destruct ev as [output|e|code|ms]; simpl; try done.
  - by destruct (wo_success _ output), (wo_data _ output).
  - by destruct (code =? 0)%Z.
Qed.

Lemma handle_silent c ev : silent ev = true -> handle c ev = c.
Proof.
  destruct ev as [output|e|code|ms]; simpl; try done. by intros ->.
Qed.

Lemma handle_loud c ev :
  silent ev = false -> promise c = Pending -> promise (handle c ev) <> Pending.
Proof.
  intros Hev Hc. destruct ev as [output|e|code|ms]; simpl in *; try done.
  - destruct (wo_success _ output), (wo_data _ output); simpl; by rewrite Hc.
  - by rewrite Hc.
  - rewrite Hev. simpl. by rewrite Hc.
Qed.

Lemma after_settled events c :
  promise c <> Pending -> promise (after events c) = promise c.
Proof.
  revert c. induction events as [|ev events IH]; intros c Hc; [done|].
  unfold after in *. simpl. rewrite IH; [by apply handle_settled|].
  by rewrite handle_settled.
Qed.

End Settling.

(** X27.  The promise is settled once: when it is resolved or rejected, no later
    event changes it.  A terminated worker stays terminated, and the caller
    never posts anything after its one input. *)
Theorem promise_settles_once (ProblemReport : Type)
    (events : list (WorkerEvent ProblemReport)) (c : Caller ProblemReport) :
  (promise c <> Pending -> promise (after events c) = promise c) /\
  (terminated c = true -> terminated (after events c) = true) /\
  posted (after events c) = posted c.
Proof.
  split; [apply after_settled|]. split.
  - revert c. induction events as [|ev events IH]; intros c Hc; [done|].
    unfold after in *. simpl. apply IH. by apply handle_terminated.
  - revert c. induction events as [|ev events IH]; intros c; [done|].
    unfold after in *. simpl. rewrite IH. apply handle_posted.
Qed.

(** X28.  A message from the worker always terminates it and settles the promise,
    whatever the message holds: the promise is resolved, with the report,
    exactly when [success] is set and [data] is there, and rejected in every
    other case. *)
Theorem message_settles (ProblemReport : Type) normalizePath cachePath fullResponse
    appPath (output : WorkerOutput ProblemReport) :
  let caller :=
    handle
      (generateProblemReport ProblemReport normalizePath cachePath fullResponse appPath)
      (OnMessage output) in
  terminated caller = true /\
  (forall report,
     promise caller = Resolved report
     <-> wo_success _ output = true /\ wo_data _ output = Some report) /\
  ((forall report, promise caller <> Resolved report)
   -> exists e, promise caller = Rejected ("Error: " +:+ e)).
Proof.
  cbv zeta. simpl. split; [by destruct (wo_success _ output), (wo_data _ output)|].
  split.
  - intros report.
    destruct (wo_success _ output), (wo_data _ output) as [data|]; simpl;
      split; try done; try (by intros [? ?]).
    + by intros [= ->].
    + by intros [_ [= ->]].
  - intros Hno.
    destruct (wo_success _ output), (wo_data _ output) as [data|]; simpl;
      try by eexists.
    by destruct (Hno data).
Qed.

(** X29.  The promise stays pending exactly as long as nothing but clean exits and
    the passing of time happens: a worker that exits with code 0 without
    having posted a message leaves the caller waiting for ever. *)
Theorem pending_iff_silent (ProblemReport : Type) normalizePath cachePath fullResponse
    appPath (events : list (WorkerEvent ProblemReport)) :
  promise
    (after events
       (generateProblemReport ProblemReport normalizePath cachePath fullResponse appPath))
  = Pending
  <-> forallb silent events = true.
Proof.
  set (c0 := generateProblemReport _ _ _ _ _).
  assert (promise c0 = Pending) as H0 by reflexivity.
  clearbody c0. revert c0 H0.
  induction events as [|ev events IH]; intros c0 H0; [done|].
  unfold after in *. simpl.
  destruct (silent ev) eqn:Hev; simpl.
  - rewrite (handle_silent c0 ev Hev). by apply IH.
  - split; [|done]. intros Hp.
    pose proof (handle_loud c0 ev Hev H0) as Hloud.
    pose proof (after_settled events (handle c0 ev) Hloud) as Hs.
    unfold after in Hs. congruence.
Qed.

(** ** The SQL queries *)

Lemma sqlQuery_sent env app appPath (query : SqlQuery) st :
  exists st',
    tryCatch
      (do_executeSupabaseSql env (supabaseProjectId app) (sql_content query);;
       when (enableSupabaseWriteSqlMigration env)
         (tryCatch
            (let* migrationFilePath :=
               do_writeMigrationFile env appPath (sql_content query)
                 (sql_description query) in
             modify (push_written migrationFilePath))
            (fun error =>
               modify (push_error
                 {| message := "Failed to write SQL migration file for: "
                               +:+ show_opt (sql_description query);
                    error := error |}))))
      (fun error =>
         modify (push_error
           {| message := "Failed to execute SQL query: " +:+ sql_content query;
              error := error |})) st
    = (Done tt, st') /\
    supabaseLog (world st')
    = (supabaseLog (world st)
       ++ [ExecuteSql (supabaseProjectId app) (sql_content query)])%list.
Proof.
  cbv [tryCatch bind do_executeSupabaseSql do_writeMigrationFile when modify ask ret].
  repeat (case_match; simpl in *; simplify_eq); by eexists.
Qed.

Lemma sqlLoop_sent env app appPath (l : list SqlQuery) st :
  exists st',
    forEach l (fun query =>
      tryCatch
        (do_executeSupabaseSql env (supabaseProjectId app) (sql_content query);;
         when (enableSupabaseWriteSqlMigration env)
           (tryCatch
              (let* migrationFilePath :=
                 do_writeMigrationFile env appPath (sql_content query)
                   (sql_description query) in
               modify (push_written migrationFilePath))
              (fun error =>
                 modify (push_error
                   {| message := "Failed to write SQL migration file for: "
                                 +:+ show_opt (sql_description query);
                      error := error |}))))
        (fun error =>
           modify (push_error
             {| message := "Failed to execute SQL query: " +:+ sql_content query;
                error := error |}))) st
    = (Done tt, st') /\
    supabaseLog (world st')
    = (supabaseLog (world st)
       ++ ((fun query => ExecuteSql (supabaseProjectId app) (sql_content query))
             <$> l))%list.
Proof.
  revert st. induction l as [|query l IH]; intros st.
  - eexists. split; [reflexivity|]. simpl. by rewrite app_nil_r.
  - simpl forEach. unfold bind at 1.
    destruct (sqlQuery_sent env app appPath query st) as (s1 & -> & Hlog).
    destruct (IH s1) as (st' & Hrun & Hlog').
    exists st'. split; [exact Hrun|].
    rewrite Hlog', Hlog. rewrite fmap_cons. by rewrite <- app_assoc.
Qed.

(** X30.  Every query of the list is sent to Supabase, in the order of the list,
    whether or not the queries before it have failed; and the SQL step itself
    never throws. *)
Theorem sql_queries_all_sent env app appPath queries st :
  exists st',
    sqlStage env app appPath queries st = (Done tt, st') /\
    supabaseLog (world st')
    = (supabaseLog (world st)
       ++ ((fun query => ExecuteSql (supabaseProjectId app) (sql_content query))
             <$> queries))%list.
Proof.
  unfold sqlStage. destruct queries as [|q0 queries0].
  { eexists. split; [reflexivity|]. simpl. by rewrite app_nil_r. }
  cbn [length Nat.eqb negb when].
  destruct (sqlLoop_sent env app appPath (q0 :: queries0) st) as (s1 & Hrun & Hlog).
  rewrite (bind_run _ _ _ _ _ Hrun). rewrite logger_run.
  eexists. split; [reflexivity|]. exact Hlog.
Qed.

(** ** The further properties at work *)

Lemma getDyadWriteTags_fenced_witness :
  getDyadWriteTags id
    (pathTagText "dyad-write" (MoreTexts.pathAttr "src/App.tsx")
       (str1 newline +:+ fenced "tsx" "let a = 1;" +:+ str1 newline)
     +:+ " Done.")
  = [ {| path := "src/App.tsx"; content := "let a = 1;"; description := None |} ].
Proof.
  exact (getDyadWriteTags_fenced id (MoreTexts.pathAttr "src/App.tsx") "src/App.tsx"
           (str1 newline) "tsx" "let a = 1;" (str1 newline) " Done."
           eq_refl eq_refl eq_refl eq_refl eq_refl eq_refl).
Defined.

Lemma getDyadWriteTags_unfenced_witness :
  getDyadWriteTags id
    (pathTagText "dyad-write" (MoreTexts.pathAttr "new.ts") "  let n = 0; " +:+ " Done.")
  = [ {| path := "new.ts"; content := "let n = 0;"; description := None |} ].
Proof.
  exact (getDyadWriteTags_unfenced id (MoreTexts.pathAttr "new.ts") "new.ts"
           "  let n = 0; " " Done." eq_refl eq_refl eq_refl eq_refl eq_refl).
Defined.

Lemma dryRun_predicts_witness :
  (dryRunOne Demo.env "/apps/demo" MoreTexts.patch (start (Demo.world EmptyString))).1
  = Done []
  <-> writtenFiles
        (searchReplaceOne Demo.env Demo.app "/apps/demo" MoreTexts.patch
           (start (Demo.world EmptyString))).2
      = ["old.ts"].
Proof.
  exact (proj1 (dryRun_predicts Demo.env Demo.app "/apps/demo" MoreTexts.patch
                  "/apps/demo/old.ts" (start (Demo.world EmptyString)) eq_refl)).
Defined.

Lemma no_project_no_sql_witness :
  sqlCalls
    (processFullResponseActions Demo.env MoreTexts.sqlAndWrite 1 None 10
       (Demo.world MoreTexts.sqlAndWrite)).2
  = [].
Proof.
  apply (no_project_no_sql Demo.env MoreTexts.sqlAndWrite 1 None 10
           (Demo.world MoreTexts.sqlAndWrite)).
  intros app H. vm_compute in H. injection H as <-. reflexivity.
Defined.

Lemma error_result_leaves_marks_witness :
  let run :=
    processFullResponseActions Demo.env MoreTexts.blockedWrite 1 None 10
      (Demo.world MoreTexts.blockedWrite) in
  commitHash <$> messages (world run.2) !! 10%Z = Some None /\
  approvalState <$> messages (world run.2) !! 10%Z = Some None.
Proof.
  apply (error_result_leaves_marks Demo.env MoreTexts.blockedWrite 1 None 10
           (Demo.world MoreTexts.blockedWrite)
           {| updatedFiles := None;
              res_error := Some "Error: EEXIST: file already exists, mkdir '/apps/demo/old.ts'";
              extraFiles := None; extraFilesError := None |}
           "Error: EEXIST: file already exists, mkdir '/apps/demo/old.ts'").
  - vm_compute. reflexivity.
  - reflexivity.
Defined.

Lemma normal_result_is_approved_witness :
  let run :=
    processFullResponseActions Demo.env MoreTexts.oneWrite 1 None 10
      (Demo.world MoreTexts.oneWrite) in
  run.1 = Done {| updatedFiles := Some true; res_error := None;
                  extraFiles := None; extraFilesError := None |} /\
  exists m, messages (world run.2) !! 10%Z = Some m /\
            approvalState m = Some "approved".
Proof.
  split; [vm_compute; reflexivity|].
  apply (normal_result_is_approved Demo.env MoreTexts.oneWrite 1 None 10
           (Demo.world MoreTexts.oneWrite)
           {| updatedFiles := Some true; res_error := None;
              extraFiles := None; extraFilesError := None |}).
  - vm_compute. reflexivity.
  - by eexists.
Defined.

Lemma message_not_found_witness :
  let run :=
    processFullResponseActions Demo.env MoreTexts.oneWrite 1 None 10
      (Uploads.userWorld "Please add a file.") in
  run.1 = Done emptyResult /\
  fs (world run.2) = fs (Uploads.userWorld "Please add a file.") /\
  gitLog (world run.2) = [] /\
  supabaseLog (world run.2) = [] /\
  installCalls (world run.2) = [] /\
  messages (world run.2)
  = alter (set_content (MoreTexts.oneWrite +:+ str1 newline +:+ str1 newline
                        +:+ appendedContent [] []))
      10%Z (messages (Uploads.userWorld "Please add a file.")).
Proof.
  apply (message_not_found Demo.env MoreTexts.oneWrite 1 None 10
           (Uploads.userWorld "Please add a file.") Demo.app).
  - split; [reflexivity|discriminate].
  - intros m H. vm_compute in H. injection H as <-. left. discriminate.
Defined.

Lemma install_failure_is_recorded_witness :
  exists st',
    dependencyStage InstallFails.env 10 (Demo.theMessage EmptyString) "/apps/demo"
      ["left"; "right"] (start (Demo.world EmptyString))
    = (Done tt, st') /\
    errors st'
    = [ {| message := "Failed to add dependencies: left, right";
           error := "Error: Command failed" |} ] /\
    messages (world st') = messages (Demo.world EmptyString) /\
    writtenFiles st' = ["package.json"] /\
    hasChanges st' ["left"; "right"] = true.
Proof.
  apply (install_failure_is_recorded InstallFails.env 10 (Demo.theMessage EmptyString)
           "/apps/demo" ["left"; "right"] (start (Demo.world EmptyString))
           "Error: Command failed" (fs (Demo.world EmptyString))
           "/apps/demo/pnpm-lock.yaml" "/apps/demo/package-lock.json").
  - discriminate.
  - reflexivity.
  - reflexivity.
  - reflexivity.
Defined.

Lemma install_command_verbatim_witness :
  installCommand
    (getDyadAddDependencyTags (dependencyTagText "left  right; echo $HOME" EmptyString))
  = "(pnpm add left  right; echo $HOME) || (npm install --legacy-peer-deps left  right; echo $HOME)".
Proof.
  exact (install_command_verbatim "left  right; echo $HOME" EmptyString
           eq_refl eq_refl eq_refl).
Defined.

Lemma rename_without_source_witness :
  (exists st',
     renameStage Demo.env Demo.app "/apps/demo"
       [ {| from := "gone.ts"; to := "lib/here.ts" |} ] (start (Demo.world EmptyString))
     = (Done tt, st') /\
     fs (world st')
     = <["/apps/demo/lib" := Dir]>
         (<["/apps" := Dir]> (<["/apps/demo" := Dir]> (fs (Demo.world EmptyString)))) /\
     renamedFiles st' = [] /\
     gitLog (world st') = []) /\
  (exists e,
     renameStage Demo.env Demo.app "/apps/demo"
       [ {| from := "gone.ts"; to := "old.ts/sub/here.ts" |} ]
       (start (Demo.world EmptyString))
     = (Raise e, start (Demo.world EmptyString))).
Proof.
  split.
  - apply (rename_without_source Demo.env Demo.app "/apps/demo"
             {| from := "gone.ts"; to := "lib/here.ts" |}
             "/apps/demo/gone.ts" "/apps/demo/lib/here.ts"
             (start (Demo.world EmptyString))).
    + reflexivity.
    + reflexivity.
    + reflexivity.
    + vm_compute. intros Hin. repeat (apply elem_of_cons in Hin as [Hin|Hin]; [discriminate|]).
      by apply elem_of_nil in Hin.
    + reflexivity.
  - apply (rename_without_source Demo.env Demo.app "/apps/demo"
             {| from := "gone.ts"; to := "old.ts/sub/here.ts" |}
             "/apps/demo/gone.ts" "/apps/demo/old.ts/sub/here.ts"
             (start (Demo.world EmptyString))).
    + reflexivity.
    + reflexivity.
    + reflexivity.
    + vm_compute. intros Hin. repeat (apply elem_of_cons in Hin as [Hin|Hin]; [discriminate|]).
      by apply elem_of_nil in Hin.
    + reflexivity.
Defined.

Lemma delete_directory_witness :
  exists st',
    deleteStage Demo.env Demo.app "/apps/demo" ["lib"] Uploads.withLib = (Done tt, st') /\
    (forall k,
       fs (world st') !! k
       = if String.eqb k "/apps/demo/lib" || under "/apps/demo/lib" k
         then None else fs (world Uploads.withLib) !! k) /\
    deletedFiles st' = ["lib"].
Proof.
  apply (delete_directory Demo.env Demo.app "/apps/demo" "lib" "/apps/demo/lib"
           Uploads.withLib); reflexivity.
Defined.

Lemma upload_replaces_body_witness :
  exists st',
    writeStage Demo.env Demo.app "/apps/demo" (Some Uploads.uploads) [Uploads.tag]
      (Uploads.ready Uploads.stored)
    = (Done tt, st') /\
    fs (world st')
    = <["/apps/demo/supabase/functions/logo.svg" := File "<svg></svg>"]>
        (fs (world (Uploads.ready Uploads.stored))) /\
    writtenFiles st' = ["supabase/functions/logo.svg"] /\
    sameReports (Uploads.ready Uploads.stored) st'.
Proof.
  apply (upload_replaces_body Demo.env Demo.app "/apps/demo" Uploads.uploads Uploads.tag
           "/apps/demo/supabase/functions/logo.svg" Uploads.info "<svg></svg>"
           (Uploads.ready Uploads.stored)).
  - reflexivity.
  - reflexivity.
  - reflexivity.
  - vm_compute. discriminate.
  - reflexivity.
Defined.

Lemma unreadable_upload_writes_id_witness :
  exists st',
    writeStage Demo.env Demo.app "/apps/demo" (Some Uploads.uploads) [Uploads.tag]
      (Uploads.ready Uploads.lost)
    = (Done tt, st') /\
    fs (world st')
    = <["/apps/demo/supabase/functions/logo.svg" := File " DYAD_ATTACHMENT_0 "]>
        (fs (world (Uploads.ready Uploads.lost))) /\
    {| message := "Failed to read uploaded file: logo.svg";
       error := "Error: ENOENT: no such file or directory, open '/tmp/upload-1'" |} ∈ errors st'.
Proof.
  apply (unreadable_upload_writes_id Demo.env Demo.app "/apps/demo" Uploads.uploads
           Uploads.tag "/apps/demo/supabase/functions/logo.svg" Uploads.info
           (Uploads.ready Uploads.lost)).
  - reflexivity.
  - reflexivity.
  - reflexivity.
  - vm_compute. discriminate.
  - reflexivity.
Defined.
